(** * CrowdfundingV2: campaign escrow with milestones and weighted votes

    A shallow embedding of the [CrowdfundingV2] contract.

    - Storage is an explicit record threaded through a small
      state-and-revert monad; a revert carries no state, as in the EVM.
    - Every [mapping] of the contract is a finite map read with the zero
      default; a storage pointer reads and writes the slot as it is at
      that moment.
    - [uint256] is [N]; arithmetic is checked (compiler 0.8: overflow
      panics).
    - [msg.sender], [msg.value] and [block.timestamp] come in an [Env].
      Only [contribute] is payable.  Every other function is embedded as
      its body, which is what runs when the call carries no value; a call
      that carries value is turned away before the body, and a
      transaction never makes one.
    - The low-level value call to an address [a] is a function of the
      storage: the code behind [a] may call back into the contract before
      it returns, or revert.  A transaction is a tree of calls; all of
      them see the same block time.
    - Events are kept in a log; gas is not modelled. *)

From Stdlib Require Import NArith ZArith Lia.
From stdpp Require Import gmap strings list fin_maps.

#[local] Set Warnings "-clear-no-such-hyp".
Local Open Scope N_scope.

(** ** Machine integers, addresses, failures *)

(** A 160-bit account address, as a number. *)
Abbreviation address := N (only parsing).

Definition UINT256_MAX : N := 2 ^ 256 - 1.

Inductive Error : Type :=
| Revert (reason : string)      (* a failed [require] *)
| Panic (code : N).             (* 0x11 overflow, 0x32 index out of range *)

Inductive Result (A : Type) : Type :=
| Ok (a : A)
| Err (e : Error).
Arguments Ok {A} a.
Arguments Err {A} e.

Definition is_ok {A} (r : Result A) : bool :=
  match r with Ok _ => true | Err _ => false end.

(** ** Storage layout *)

(* [Milestone.description] is [mdescription] here: the field name belongs
   to [Campaign]; [Campaign.exists] is [exists_]. *)
Record Milestone : Type := mkMilestone {
  mdescription : string;
  amount : N;
  completed : bool;
  released : bool;
  votesFor : N;
  votesAgainst : N
}.

Record Campaign : Type := mkCampaign {
  creator : address;
  title : string;
  description : string;
  category : string;
  imageUrl : string;
  goalAmount : N;
  deadline : N;
  amountRaised : N;
  withdrawn : bool;
  exists_ : bool;
  milestoneCount : N
}.

Inductive Event : Type :=
| CampaignCreated (campaignId : N) (who : address) (ttl cat : string)
    (goal dl count : N)
| ContributionReceived (campaignId : N) (contributor : address) (amt : N)
| MilestoneCompleted (campaignId milestoneId : N)
| MilestoneVoted (campaignId milestoneId : N) (voter : address)
    (approve : bool) (weight : N)
| MilestoneReleased (campaignId milestoneId : N) (amt : N)
| FundsWithdrawn (campaignId : N) (who : address) (amt : N)
| RefundIssued (campaignId : N) (contributor : address) (amt : N).

Record State : Type := mkState {
  campaignCounter : N;
  campaigns : gmap N Campaign;
  contributions : gmap N (gmap N N);
  milestones : gmap N (gmap N Milestone);
  milestoneVotes : gmap N (gmap N (gmap N bool));
  campaignIds : list N;
  balance : N;                  (* address(this).balance *)
  events : list Event           (* the log, oldest first *)
}.

(** Zero values of the two structs: what an unwritten slot reads as. *)
Definition Milestone0 : Milestone := mkMilestone "" 0 false false 0 0.
Definition Campaign0 : Campaign :=
  mkCampaign 0 "" "" "" "" 0 0 0 false false 0.

(** The state left by the constructor. *)
Definition init : State := mkState 0 ∅ ∅ ∅ ∅ [] 0 [].

(** *** Reads: [campaigns[id]], [contributions[id][a]], ... *)

Definition campaign_at (s : State) (id : N) : Campaign :=
  default Campaign0 (campaigns s !! id).

Definition ledger_of (s : State) (id : N) : gmap N N :=
  default ∅ (contributions s !! id).

Definition contribution_at (s : State) (id : N) (a : address) : N :=
  default 0 (ledger_of s id !! a).

Definition milestone_at (s : State) (id mid : N) : Milestone :=
  default Milestone0 (default ∅ (milestones s !! id) !! mid).

Definition vote_at (s : State) (id mid : N) (a : address) : bool :=
  default false
    (default ∅ (default ∅ (milestoneVotes s !! id) !! mid) !! a).

(** *** Writes *)

Definition set_campaign (id : N) (c : Campaign) (s : State) : State :=
  mkState (campaignCounter s) (<[id := c]> (campaigns s)) (contributions s)
    (milestones s) (milestoneVotes s) (campaignIds s) (balance s) (events s).

Definition set_contribution (id : N) (a : address) (v : N) (s : State)
  : State :=
  mkState (campaignCounter s) (campaigns s)
    (<[id := <[a := v]> (ledger_of s id)]> (contributions s))
    (milestones s) (milestoneVotes s) (campaignIds s) (balance s) (events s).

Definition set_milestone (id mid : N) (m : Milestone) (s : State) : State :=
  mkState (campaignCounter s) (campaigns s) (contributions s)
    (<[id := <[mid := m]> (default ∅ (milestones s !! id))]> (milestones s))
    (milestoneVotes s) (campaignIds s) (balance s) (events s).

Definition set_vote (id mid : N) (a : address) (b : bool) (s : State)
  : State :=
  let per_campaign := default ∅ (milestoneVotes s !! id) in
  let per_milestone := default ∅ (per_campaign !! mid) in
  mkState (campaignCounter s) (campaigns s) (contributions s) (milestones s)
    (<[id := <[mid := <[a := b]> per_milestone]> per_campaign]>
       (milestoneVotes s))
    (campaignIds s) (balance s) (events s).

Definition set_campaignCounter (n : N) (s : State) : State :=
  mkState n (campaigns s) (contributions s) (milestones s)
    (milestoneVotes s) (campaignIds s) (balance s) (events s).

Definition push_campaignId (id : N) (s : State) : State :=
  mkState (campaignCounter s) (campaigns s) (contributions s) (milestones s)
    (milestoneVotes s) (campaignIds s ++ [id]) (balance s) (events s).

Definition set_balance (b : N) (s : State) : State :=
  mkState (campaignCounter s) (campaigns s) (contributions s) (milestones s)
    (milestoneVotes s) (campaignIds s) b (events s).

Definition log_event (ev : Event) (s : State) : State :=
  mkState (campaignCounter s) (campaigns s) (contributions s) (milestones s)
    (milestoneVotes s) (campaignIds s) (balance s) (events s ++ [ev]).

(** Field assignments through a storage pointer: read the slot as it is
    now, change one field, write it back. *)
Definition update_campaign (id : N) (f : Campaign → Campaign) (s : State)
  : State :=
  set_campaign id (f (campaign_at s id)) s.

Definition update_milestone (id mid : N) (f : Milestone → Milestone)
    (s : State) : State :=
  set_milestone id mid (f (milestone_at s id mid)) s.

Definition with_amountRaised (v : N) (c : Campaign) : Campaign :=
  mkCampaign (creator c) (title c) (description c) (category c) (imageUrl c)
    (goalAmount c) (deadline c) v (withdrawn c) (exists_ c)
    (milestoneCount c).

Definition with_withdrawn (b : bool) (c : Campaign) : Campaign :=
  mkCampaign (creator c) (title c) (description c) (category c) (imageUrl c)
    (goalAmount c) (deadline c) (amountRaised c) b (exists_ c)
    (milestoneCount c).

Definition with_completed (b : bool) (m : Milestone) : Milestone :=
  mkMilestone (mdescription m) (amount m) b (released m) (votesFor m)
    (votesAgainst m).

Definition with_released (b : bool) (m : Milestone) : Milestone :=
  mkMilestone (mdescription m) (amount m) (completed m) b (votesFor m)
    (votesAgainst m).

Definition with_votesFor (v : N) (m : Milestone) : Milestone :=
  mkMilestone (mdescription m) (amount m) (completed m) (released m) v
    (votesAgainst m).

Definition with_votesAgainst (v : N) (m : Milestone) : Milestone :=
  mkMilestone (mdescription m) (amount m) (completed m) (released m)
    (votesFor m) v.

(** ** The execution monad: storage in, storage or a revert out *)

Definition M (A : Type) : Type := State → Result (A * State).

Definition ret {A} (a : A) : M A := λ s, Ok (a, s).

Definition bind {A B} (m : M A) (k : A → M B) : M B :=
  λ s, match m s with
       | Ok (a, s') => k a s'
       | Err e => Err e
       end.

Definition fail {A} (e : Error) : M A := λ _, Err e.

Definition gets {A} (f : State → A) : M A := λ s, Ok (f s, s).

Definition modify (f : State → State) : M unit := λ s, Ok (tt, f s).

Definition require (b : bool) (reason : string) : M unit :=
  if b then ret tt else fail (Revert reason).

Definition emit (ev : Event) : M unit := modify (log_event ev).

Notation "x <- m ;; k" := (bind m (λ x, k))
  (at level 100, m at next level, right associativity).
Notation "m ;; k" := (bind m (λ _, k))
  (at level 100, right associativity).

(** Checked arithmetic of the 0.8 compiler. *)
Definition checked_add (a b : N) : M N :=
  if a + b <=? UINT256_MAX then ret (a + b) else fail (Panic 17).

Definition checked_mul (a b : N) : M N :=
  if a * b <=? UINT256_MAX then ret (a * b) else fail (Panic 17).

(** [arr[i]] on a memory array. *)
Definition index {A} (arr : list A) (i : N) : M A :=
  match arr !! N.to_nat i with
  | Some x => ret x
  | None => fail (Panic 50)
  end.

(** What a transaction carries. *)
Record Env : Type := mkEnv {
  block_timestamp : N;
  msg_sender : address;
  msg_value : N
}.

(** The code behind an address that receives value: given who is paid, how
    much, and the storage at the moment of the call, it either returns with
    the storage its own nested calls produced, or reverts. *)
Definition Receiver : Type := address → N → State → option State.

(** The low-level call [payable(to).call{value: amt}]: fails without
    touching anything when the balance is short or the callee reverts. *)
Definition call_value (recv : Receiver) (to : address) (amt : N) : M bool :=
  λ s, if balance s <? amt then Ok (false, s)
       else match recv to amt (set_balance (balance s - amt) s) with
            | Some s' => Ok (true, s')
            | None => Ok (false, s)
            end.

(** ** Modifiers *)

Definition campaignExists (id : N) : M unit :=
  c <- gets (λ s, campaign_at s id) ;;
  require (exists_ c) "Campaign does not exist".

Definition campaignActive (e : Env) (id : N) : M unit :=
  c <- gets (λ s, campaign_at s id) ;;
  require (block_timestamp e <? deadline c) "Campaign has ended".

Definition campaignEnded (e : Env) (id : N) : M unit :=
  c <- gets (λ s, campaign_at s id) ;;
  require (deadline c <=? block_timestamp e) "Campaign still active".

Definition onlyCreator (e : Env) (id : N) : M unit :=
  c <- gets (λ s, campaign_at s id) ;;
  require (msg_sender e =? creator c)
    "Only campaign creator can call this".

Definition onlyContributor (e : Env) (id : N) : M unit :=
  v <- gets (λ s, contribution_at s id (msg_sender e)) ;;
  require (0 <? v) "Only contributors can vote".

(** ** State-changing functions *)

(** The validation loop over [_milestoneAmounts]. *)
Fixpoint sum_milestone_amounts (amts : list N) (total : N) : M N :=
  match amts with
  | [] => ret total
  | a :: rest =>
      require (0 <? a) "Milestone amount must be > 0" ;;
      total' <- checked_add total a ;;
      sum_milestone_amounts rest total'
  end.

(** The storing loop: [descs] is what is left of [_milestoneDescriptions]
    from index [i] on; [_milestoneAmounts[i]] is bounds-checked. *)
Fixpoint store_milestones (id : N) (descs : list string) (amts : list N)
    (i : N) : M unit :=
  match descs with
  | [] => ret tt
  | d :: rest =>
      a <- index amts i ;;
      modify (set_milestone id i (mkMilestone d a false false 0 0)) ;;
      store_milestones id rest amts (i + 1)
  end.

Definition createCampaign (e : Env) (_title _description _category
    _imageUrl : string) (_goalAmount _durationInDays : N)
    (_milestoneDescriptions : list string) (_milestoneAmounts : list N)
  : M N :=
  require (0 <? _goalAmount) "Goal amount must be greater than 0" ;;
  require (0 <? _durationInDays) "Duration must be at least 1 day" ;;
  require (_durationInDays <=? 365) "Duration cannot exceed 365 days" ;;
  require (0 <? N.of_nat (String.length _title)) "Title cannot be empty" ;;
  require (0 <? N.of_nat (String.length _description))
    "Description cannot be empty" ;;
  (if 0 <? N.of_nat (length _milestoneDescriptions) then
     require (N.of_nat (length _milestoneDescriptions)
              =? N.of_nat (length _milestoneAmounts))
       "Milestone arrays must match" ;;
     totalMilestoneAmount <- sum_milestone_amounts _milestoneAmounts 0 ;;
     require (totalMilestoneAmount =? _goalAmount)
       "Milestone amounts must equal goal"
   else ret tt) ;;
  secs <- checked_mul _durationInDays 86400 ;;
  dl <- checked_add (block_timestamp e) secs ;;
  counter <- gets campaignCounter ;;
  newCampaignId <- checked_add counter 1 ;;
  modify (set_campaignCounter newCampaignId) ;;
  modify (set_campaign newCampaignId
            (mkCampaign (msg_sender e) _title _description _category
               _imageUrl _goalAmount dl 0 false true
               (N.of_nat (length _milestoneDescriptions)))) ;;
  store_milestones newCampaignId _milestoneDescriptions _milestoneAmounts 0 ;;
  modify (push_campaignId newCampaignId) ;;
  emit (CampaignCreated newCampaignId (msg_sender e) _title _category
          _goalAmount dl (N.of_nat (length _milestoneDescriptions))) ;;
  ret newCampaignId.

(** [payable]: the value sent is credited before the body runs. *)
Definition contribute (e : Env) (_campaignId : N) : M unit :=
  modify (λ s, set_balance (balance s + msg_value e) s) ;;
  campaignExists _campaignId ;;
  campaignActive e _campaignId ;;
  require (0 <? msg_value e) "Contribution must be greater than 0" ;;
  old <- gets (λ s, contribution_at s _campaignId (msg_sender e)) ;;
  new <- checked_add old (msg_value e) ;;
  modify (set_contribution _campaignId (msg_sender e) new) ;;
  campaign <- gets (λ s, campaign_at s _campaignId) ;;
  raised <- checked_add (amountRaised campaign) (msg_value e) ;;
  modify (update_campaign _campaignId (with_amountRaised raised)) ;;
  emit (ContributionReceived _campaignId (msg_sender e) (msg_value e)).

Definition completeMilestone (e : Env) (_campaignId _milestoneId : N)
  : M unit :=
  campaignExists _campaignId ;;
  onlyCreator e _campaignId ;;
  campaign <- gets (λ s, campaign_at s _campaignId) ;;
  require (_milestoneId <? milestoneCount campaign) "Invalid milestone" ;;
  require (goalAmount campaign <=? amountRaised campaign)
    "Goal not reached" ;;
  milestone <- gets (λ s, milestone_at s _campaignId _milestoneId) ;;
  require (negb (completed milestone)) "Milestone already completed" ;;
  (if 0 <? _milestoneId then
     prev <- gets (λ s, milestone_at s _campaignId (_milestoneId - 1)) ;;
     require (released prev) "Previous milestone must be released first"
   else ret tt) ;;
  modify (update_milestone _campaignId _milestoneId (with_completed true)) ;;
  emit (MilestoneCompleted _campaignId _milestoneId).

Definition voteOnMilestone (e : Env) (_campaignId _milestoneId : N)
    (_approve : bool) : M unit :=
  campaignExists _campaignId ;;
  onlyContributor e _campaignId ;;
  campaign <- gets (λ s, campaign_at s _campaignId) ;;
  require (_milestoneId <? milestoneCount campaign) "Invalid milestone" ;;
  milestone <- gets (λ s, milestone_at s _campaignId _milestoneId) ;;
  require (completed milestone) "Milestone not completed yet" ;;
  require (negb (released milestone)) "Milestone already released" ;;
  voted <- gets (λ s, vote_at s _campaignId _milestoneId (msg_sender e)) ;;
  require (negb voted) "Already voted" ;;
  modify (set_vote _campaignId _milestoneId (msg_sender e) true) ;;
  voteWeight <- gets (λ s, contribution_at s _campaignId (msg_sender e)) ;;
  (if _approve then
     cur <- gets (λ s, votesFor (milestone_at s _campaignId _milestoneId)) ;;
     v <- checked_add cur voteWeight ;;
     modify (update_milestone _campaignId _milestoneId (with_votesFor v))
   else
     cur <- gets (λ s, votesAgainst
                         (milestone_at s _campaignId _milestoneId)) ;;
     v <- checked_add cur voteWeight ;;
     modify (update_milestone _campaignId _milestoneId
               (with_votesAgainst v))) ;;
  emit (MilestoneVoted _campaignId _milestoneId (msg_sender e) _approve
          voteWeight).

Definition releaseMilestone (recv : Receiver) (e : Env)
    (_campaignId _milestoneId : N) : M unit :=
  campaignExists _campaignId ;;
  onlyCreator e _campaignId ;;
  campaign <- gets (λ s, campaign_at s _campaignId) ;;
  require (_milestoneId <? milestoneCount campaign) "Invalid milestone" ;;
  require (goalAmount campaign <=? amountRaised campaign)
    "Goal not reached" ;;
  milestone <- gets (λ s, milestone_at s _campaignId _milestoneId) ;;
  require (completed milestone) "Milestone not completed" ;;
  require (negb (released milestone)) "Already released" ;;
  require (votesAgainst milestone <? votesFor milestone)
    "Milestone not approved by contributors" ;;
  modify (update_milestone _campaignId _milestoneId (with_released true)) ;;
  amt <- gets (λ s, amount (milestone_at s _campaignId _milestoneId)) ;;
  payee <- gets (λ s, creator (campaign_at s _campaignId)) ;;
  success <- call_value recv payee amt ;;
  require success "Transfer failed" ;;
  emit (MilestoneReleased _campaignId _milestoneId amt).

Definition withdrawFunds (recv : Receiver) (e : Env) (_campaignId : N)
  : M unit :=
  campaignExists _campaignId ;;
  campaignEnded e _campaignId ;;
  onlyCreator e _campaignId ;;
  campaign <- gets (λ s, campaign_at s _campaignId) ;;
  require (negb (withdrawn campaign)) "Funds already withdrawn" ;;
  require (goalAmount campaign <=? amountRaised campaign)
    "Funding goal not reached" ;;
  require (0 <? amountRaised campaign) "No funds to withdraw" ;;
  require (milestoneCount campaign =? 0)
    "Use milestone release for this campaign" ;;
  modify (update_campaign _campaignId (with_withdrawn true)) ;;
  amt <- gets (λ s, amountRaised (campaign_at s _campaignId)) ;;
  payee <- gets (λ s, creator (campaign_at s _campaignId)) ;;
  success <- call_value recv payee amt ;;
  require success "Transfer failed" ;;
  who <- gets (λ s, creator (campaign_at s _campaignId)) ;;
  emit (FundsWithdrawn _campaignId who amt).

Definition refund (recv : Receiver) (e : Env) (_campaignId : N) : M unit :=
  campaignExists _campaignId ;;
  campaignEnded e _campaignId ;;
  campaign <- gets (λ s, campaign_at s _campaignId) ;;
  require (amountRaised campaign <? goalAmount campaign)
    "Campaign was successful, no refunds" ;;
  contributedAmount <-
    gets (λ s, contribution_at s _campaignId (msg_sender e)) ;;
  require (0 <? contributedAmount) "No contribution to refund" ;;
  modify (set_contribution _campaignId (msg_sender e) 0) ;;
  success <- call_value recv (msg_sender e) contributedAmount ;;
  require success "Refund transfer failed" ;;
  emit (RefundIssued _campaignId (msg_sender e) contributedAmount).

(** ** View functions *)

Definition getCampaign (_campaignId : N) : M Campaign :=
  campaignExists _campaignId ;;
  gets (λ s, campaign_at s _campaignId).

Definition getMilestone (_campaignId _milestoneId : N) : M Milestone :=
  gets (λ s, milestone_at s _campaignId _milestoneId).

Definition getAllMilestones (_campaignId : N) : M (list Milestone) :=
  campaignExists _campaignId ;;
  campaign <- gets (λ s, campaign_at s _campaignId) ;;
  gets (λ s, (λ i, milestone_at s _campaignId (N.of_nat i))
               <$> seq 0 (N.to_nat (milestoneCount campaign))).

Definition getTotalCampaigns : M N :=
  gets (λ s, N.of_nat (length (campaignIds s))).

Definition getContribution (_campaignId : N) (_contributor : address)
  : M N :=
  gets (λ s, contribution_at s _campaignId _contributor).

Definition isGoalReached (_campaignId : N) : M bool :=
  campaignExists _campaignId ;;
  gets (λ s, goalAmount (campaign_at s _campaignId)
             <=? amountRaised (campaign_at s _campaignId)).

Definition getAllCampaignIds : M (list N) := gets campaignIds.

Definition getContractBalance : M N := gets balance.

Definition hasVoted (_campaignId _milestoneId : N) (_voter : address)
  : M bool :=
  gets (λ s, vote_at s _campaignId _milestoneId _voter).

(** ** Transactions, re-entrancy, traces *)

(** A call into the contract.  Only [contribute] is payable, so only it
    carries a value.  The three functions that pay out also carry the
    behaviour of the account they pay: whether it accepts the value, and the
    calls it makes back into the contract before it returns. *)
#[warnings="-register-all"]
Inductive Call : Type :=
| call_createCampaign (from : address) (ttl desc cat img : string)
    (goal days : N) (descs : list string) (amts : list N)
| call_contribute (from : address) (value : N) (id : N)
| call_completeMilestone (from : address) (id mid : N)
| call_voteOnMilestone (from : address) (id mid : N) (approve : bool)
| call_releaseMilestone (from : address) (id mid : N)
    (accepts : bool) (reenters : list Call)
| call_withdrawFunds (from : address) (id : N)
    (accepts : bool) (reenters : list Call)
| call_refund (from : address) (id : N)
    (accepts : bool) (reenters : list Call).

(** Runs the calls of a list in order; one that reverts is undone alone. *)
Definition run_with (exec : Call → State → Result State)
  : list Call → State → State :=
  fix run (cs : list Call) (s : State) : State :=
    match cs with
    | [] => s
    | c :: rest =>
        run rest (match exec c s with Ok s' => s' | Err _ => s end)
    end.

(** The paid account as a [Receiver]: it makes its calls and returns, or it
    reverts and everything it did is undone with it. *)
Definition payee_code (run : list Call → State → State) (accepts : bool)
    (reenters : list Call) : Receiver :=
  λ _ _ s, if accepts then Some (run reenters s) else None.

Definition state_of {A} (r : Result (A * State)) : Result State :=
  match r with Ok (_, s) => Ok s | Err e => Err e end.

Fixpoint exec (now : N) (c : Call) (s : State) {struct c} : Result State :=
  match c with
  | call_createCampaign from ttl desc cat img goal days descs amts =>
      state_of (createCampaign (mkEnv now from 0) ttl desc cat img goal days
                  descs amts s)
  | call_contribute from value id =>
      state_of (contribute (mkEnv now from value) id s)
  | call_completeMilestone from id mid =>
      state_of (completeMilestone (mkEnv now from 0) id mid s)
  | call_voteOnMilestone from id mid approve =>
      state_of (voteOnMilestone (mkEnv now from 0) id mid approve s)
  | call_releaseMilestone from id mid accepts reenters =>
      state_of (releaseMilestone
                  (payee_code (run_with (exec now)) accepts reenters)
                  (mkEnv now from 0) id mid s)
  | call_withdrawFunds from id accepts reenters =>
      state_of (withdrawFunds
                  (payee_code (run_with (exec now)) accepts reenters)
                  (mkEnv now from 0) id s)
  | call_refund from id accepts reenters =>
      state_of (refund (payee_code (run_with (exec now)) accepts reenters)
                  (mkEnv now from 0) id s)
  end.

Definition run (now : N) : list Call → State → State := run_with (exec now).

(** A transaction: a block time and a call; a revert leaves the state. *)
Definition step (tx : N * Call) (s : State) : State :=
  match exec tx.1 tx.2 s with Ok s' => s' | Err _ => s end.

Definition run_trace (txs : list (N * Call)) (s : State) : State :=
  foldl (λ acc tx, step tx acc) s txs.

Definition reachable (s : State) : Prop :=
  ∃ txs, run_trace txs init = s.

(** ** Quantities the properties speak about *)

(** Σ of one campaign's ledger entries. *)
Definition ledger_sum (m : gmap N N) : N :=
  map_fold (λ _ v acc, v + acc) 0 m.

Definition sum_contributions (s : State) (id : N) : N :=
  ledger_sum (ledger_of s id).

(** What refunds have zeroed so far for a campaign, read off the log. *)
Definition refund_amount (id : N) (ev : Event) : N :=
  match ev with
  | RefundIssued id' _ amt => if decide (id' = id) then amt else 0
  | _ => 0
  end.

Definition refunded (evs : list Event) (id : N) : N :=
  foldr (λ ev acc, refund_amount id ev + acc) 0 evs.

(** How many votes the log records for a (campaign, milestone, voter). *)
Definition vote_count (id mid : N) (a : address) (ev : Event) : nat :=
  match ev with
  | MilestoneVoted id' mid' a' _ _ =>
      if decide (id' = id ∧ mid' = mid ∧ a' = a) then 1%nat else 0%nat
  | _ => 0%nat
  end.

Definition votes_recorded (evs : list Event) (id mid : N) (a : address)
  : nat :=
  foldr (λ ev acc, (vote_count id mid a ev + acc)%nat) 0%nat evs.

(** The state handed to the payee by [call_value]: the value has left. *)
Definition debit (amt : N) (s : State) : State :=
  set_balance (balance s - amt) s.

(** * Predicates and relations of the statements *)

(** ** What each function requires

    The conjunction of the [require]s of a function, modifiers included,
    in the order the function checks them. *)

Definition withdrawFunds_guards (e : Env) (id : N) (s : State) : Prop :=
  let c := campaign_at s id in
  exists_ c = true ∧ deadline c ≤ block_timestamp e ∧
  msg_sender e = creator c ∧ withdrawn c = false ∧
  goalAmount c ≤ amountRaised c ∧ 0 < amountRaised c ∧
  milestoneCount c = 0.

Definition refund_guards (e : Env) (id : N) (s : State) : Prop :=
  let c := campaign_at s id in
  exists_ c = true ∧ deadline c ≤ block_timestamp e ∧
  amountRaised c < goalAmount c ∧
  0 < contribution_at s id (msg_sender e).

Definition releaseMilestone_guards (e : Env) (id mid : N) (s : State)
  : Prop :=
  let c := campaign_at s id in
  let m := milestone_at s id mid in
  exists_ c = true ∧ msg_sender e = creator c ∧ mid < milestoneCount c ∧
  goalAmount c ≤ amountRaised c ∧ completed m = true ∧
  released m = false ∧ votesAgainst m < votesFor m.

Definition completeMilestone_guards (e : Env) (id mid : N) (s : State)
  : Prop :=
  let c := campaign_at s id in
  exists_ c = true ∧ msg_sender e = creator c ∧ mid < milestoneCount c ∧
  goalAmount c ≤ amountRaised c ∧
  completed (milestone_at s id mid) = false ∧
  (0 < mid → released (milestone_at s id (mid - 1)) = true).

Definition voteOnMilestone_guards (e : Env) (id mid : N) (s : State)
  : Prop :=
  let c := campaign_at s id in
  let m := milestone_at s id mid in
  exists_ c = true ∧ 0 < contribution_at s id (msg_sender e) ∧
  mid < milestoneCount c ∧ completed m = true ∧ released m = false ∧
  vote_at s id mid (msg_sender e) = false.

(** The six conditions the specification lists for [withdrawFunds]: the
    guards of the function without [amountRaised > 0]. *)
Definition withdrawable (e : Env) (id : N) (s : State) : Prop :=
  let c := campaign_at s id in
  msg_sender e = creator c ∧ exists_ c = true ∧
  deadline c ≤ block_timestamp e ∧ withdrawn c = false ∧
  goalAmount c ≤ amountRaised c ∧ milestoneCount c = 0.

(** The milestone record after a vote of weight [w]. *)
Definition add_vote (approve : bool) (w : N) (m : Milestone) : Milestone :=
  if approve then with_votesFor (votesFor m + w) m
  else with_votesAgainst (votesAgainst m + w) m.

(** ** Delivery of value *)

(** The payee, run on [t] with the value already gone, returns [t']. *)
Definition pays (recv : Receiver) (to : address) (amt : N) (t t' : State)
  : Prop :=
  recv to amt (debit amt t) = Some t'.

(** [call_value] returns [true]: the balance covers the amount and the
    payee returns. *)
Definition delivered (recv : Receiver) (to : address) (amt : N) (t : State)
  : Prop :=
  amt ≤ balance t ∧ ∃ t', pays recv to amt t t'.

(** [call_value] returns [false]: the balance is short or the payee
    reverts. *)
Definition undelivered (recv : Receiver) (to : address) (amt : N)
    (s : State) : Prop :=
  balance s < amt ∨ recv to amt (debit amt s) = None.

(** An account that takes the value and does nothing else, and one whose
    code rejects it. *)
Definition plain_account : Receiver := λ _ _ s, Some s.
Definition rejecting_account : Receiver := λ _ _ _, None.

(** The four ledgers of the contract (the log and the balance apart). *)
Definition same_ledgers (s t : State) : Prop :=
  campaigns s = campaigns t ∧ contributions s = contributions t ∧
  milestones s = milestones t ∧ milestoneVotes s = milestoneVotes t.

(** ** The milestone plan of [createCampaign] *)

Definition total_of (amts : list N) : N := foldr N.add 0 amts.

(** What the validation block accepts. *)
Definition plan_valid (goal : N) (descs : list string) (amts : list N)
  : Prop :=
  length descs = length amts ∧ Forall (λ a, 0 < a) amts ∧
  total_of amts = goal.

(** The record written for the new campaign. *)
Definition new_campaign (e : Env) (ttl desc cat img : string)
    (goal days : N) (descs : list string) : Campaign :=
  mkCampaign (msg_sender e) ttl desc cat img goal
    (block_timestamp e + days * 86400) 0 false true
    (N.of_nat (length descs)).

(** The net effect of the storing loop. *)
Fixpoint stored (id : N) (descs : list string) (amts : list N) (i : N)
    (s : State) : State :=
  match descs with
  | [] => s
  | d :: rest =>
      stored id rest amts (i + 1)
        (set_milestone id i
           (mkMilestone d (default 0 (amts !! N.to_nat i)) false false 0 0) s)
  end.

(** The [require] messages of [createCampaign]. *)
Definition validation_reasons : list string :=
  [ "Goal amount must be greater than 0";
    "Duration must be at least 1 day";
    "Duration cannot exceed 365 days";
    "Title cannot be empty";
    "Description cannot be empty";
    "Milestone arrays must match";
    "Milestone amount must be > 0";
    "Milestone amounts must equal goal" ].

Definition ValidationError (err : Error) : Prop :=
  ∃ reason, err = Revert reason ∧ reason ∈ validation_reasons.

(** ** The storage invariant and what no call can undo *)

Record Inv (s : State) : Prop := mkInv {
  (* identifiers above the counter are unused *)
  inv_fresh : ∀ id,
    campaignCounter s < id → exists_ (campaign_at s id) = false;
  (* an unused slot is all zeroes *)
  inv_absent : ∀ id,
    exists_ (campaign_at s id) = false → campaign_at s id = Campaign0;
  inv_goal : ∀ id,
    exists_ (campaign_at s id) = true → 0 < goalAmount (campaign_at s id);
  (* no milestone record at or beyond the campaign's count *)
  inv_bounds : ∀ id mid,
    milestoneCount (campaign_at s id) ≤ mid →
    milestone_at s id mid = Milestone0;
  (* milestones are completed in index order, behind a released one *)
  inv_order : ∀ id mid,
    completed (milestone_at s id mid) = true → 0 < mid →
    released (milestone_at s id (mid - 1)) = true;
  inv_released : ∀ id mid,
    released (milestone_at s id mid) = true →
    completed (milestone_at s id mid) = true;
  (* a milestone is completed only once the goal is reached *)
  inv_funded : ∀ id mid,
    completed (milestone_at s id mid) = true →
    goalAmount (campaign_at s id) ≤ amountRaised (campaign_at s id)
}.

(** What survives any call: a campaign's identity, every flag once set,
    every vote once cast. *)
Record Mono (s s' : State) : Prop := mkMono {
  mono_campaign : ∀ id,
    exists_ (campaign_at s id) = true →
    exists_ (campaign_at s' id) = true ∧
    creator (campaign_at s' id) = creator (campaign_at s id) ∧
    goalAmount (campaign_at s' id) = goalAmount (campaign_at s id) ∧
    deadline (campaign_at s' id) = deadline (campaign_at s id) ∧
    milestoneCount (campaign_at s' id) = milestoneCount (campaign_at s id) ∧
    amountRaised (campaign_at s id) ≤ amountRaised (campaign_at s' id) ∧
    (withdrawn (campaign_at s id) = true →
     withdrawn (campaign_at s' id) = true);
  mono_completed : ∀ id mid,
    completed (milestone_at s id mid) = true →
    completed (milestone_at s' id mid) = true;
  mono_released : ∀ id mid,
    released (milestone_at s id mid) = true →
    released (milestone_at s' id mid) = true;
  mono_vote : ∀ id mid a,
    vote_at s id mid a = true → vote_at s' id mid a = true;
  (* once the goal is reached no ledger entry of the campaign drops *)
  mono_contribution : ∀ id a,
    exists_ (campaign_at s id) = true →
    goalAmount (campaign_at s id) ≤ amountRaised (campaign_at s id) →
    contribution_at s id a ≤ contribution_at s' id a
}.

(** Past its deadline a campaign raises nothing more, and a ledger entry
    can only stay or drop to zero. *)
Definition Settled (now : N) (s s' : State) : Prop :=
  ∀ id, exists_ (campaign_at s id) = true →
        deadline (campaign_at s id) ≤ now →
        amountRaised (campaign_at s' id) = amountRaised (campaign_at s id) ∧
        ∀ a, contribution_at s' id a ≤ contribution_at s id a.

(** The relation between the storage before and after a call at time
    [now]. *)
Definition Keeps (now : N) (s s' : State) : Prop :=
  Inv s → Inv s' ∧ Mono s s' ∧ Settled now s s'.

(** A payee whose effect on the storage stays within [R]. *)
Definition within (R : State → State → Prop) (recv : Receiver) : Prop :=
  ∀ to amt t t', recv to amt t = Some t' → R t t'.

(** ** Accounting *)

(** The part of [amountRaised] not explained by ledger and refunds. *)
Definition gap (s : State) (id : N) : Z :=
  (Z.of_N (amountRaised (campaign_at s id))
   - Z.of_N (sum_contributions s id)
   - Z.of_N (refunded (events s) id))%Z.

Definition accounted (s : State) (id : N) : Prop :=
  amountRaised (campaign_at s id)
  = sum_contributions s id + refunded (events s) id.

Definition Balanced (now : N) (s s' : State) : Prop :=
  Keeps now s s' ∧ (Inv s → ∀ id, gap s' id = gap s id).

(** ** The vote log *)

(** The log holds one [MilestoneVoted] for a triple exactly when the vote
    flag of the triple is set, and none otherwise. *)
Definition VoteLog (s : State) : Prop :=
  ∀ id mid a,
    votes_recorded (events s) id mid a
    = if vote_at s id mid a then 1%nat else 0%nat.

Definition KeepsVoteLog (s s' : State) : Prop := VoteLog s → VoteLog s'.

(** * Sample histories

    The creator is account 1, the contributors are accounts 2 and 3; the
    campaigns are created at time 100 for 30 days, so their deadline is
    2592100. *)

(** Goal 10, no milestones, contributions of 4 and 6. *)
Definition lump_history : list (N * Call) :=
  [ (100, call_createCampaign 1 "Well" "Dig a well" "Community" "" 10 30
            [] []);
    (200, call_contribute 2 4 1);
    (300, call_contribute 3 6 1) ].

(** Goal 10, no milestones, one contribution of 5. *)
Definition short_history : list (N * Call) :=
  [ (100, call_createCampaign 1 "Well" "Dig a well" "Community" "" 10 30
            [] []);
    (200, call_contribute 2 5 1) ].

(** Goal 10 split 4 + 6, contributions of 4 and 6, milestone 0 completed,
    6 for and 4 against. *)
Definition plan_history : list (N * Call) :=
  [ (100, call_createCampaign 1 "Well" "Dig a well" "Community" "" 10 30
            ["survey"; "drilling"] [4; 6]);
    (200, call_contribute 2 4 1);
    (300, call_contribute 3 6 1);
    (400, call_completeMilestone 1 1 0);
    (500, call_voteOnMilestone 3 1 0 true);
    (500, call_voteOnMilestone 2 1 0 false) ].

Definition funded : State := run_trace lump_history init.
Definition underfunded : State := run_trace short_history init.
Definition approved : State := run_trace plan_history init.

(** The short history, then account 2 takes its contribution back. *)
Definition refunded_short : State :=
  step (2592100, call_refund 2 1 true []) underfunded.

(** The plan history up to the completion of milestone 0, and the first
    vote on it. *)
Definition survey_done : State := run_trace (take 4 plan_history) init.
Definition first_vote : State :=
  step (500, call_voteOnMilestone 3 1 0 true) survey_done.

(** * Induction over calls and the calls made from inside them *)

Section CallInduction.
Variable P : Call → Prop.
Hypothesis P_create : ∀ from ttl desc cat img goal days descs amts,
  P (call_createCampaign from ttl desc cat img goal days descs amts).
Hypothesis P_contribute : ∀ from value id,
  P (call_contribute from value id).
Hypothesis P_complete : ∀ from id mid,
  P (call_completeMilestone from id mid).
Hypothesis P_vote : ∀ from id mid approve,
  P (call_voteOnMilestone from id mid approve).
Hypothesis P_release : ∀ from id mid accepts reenters,
  Forall P reenters → P (call_releaseMilestone from id mid accepts reenters).
Hypothesis P_withdraw : ∀ from id accepts reenters,
  Forall P reenters → P (call_withdrawFunds from id accepts reenters).
Hypothesis P_refund : ∀ from id accepts reenters,
  Forall P reenters → P (call_refund from id accepts reenters).

Fixpoint Call_nested_ind (c : Call) : P c :=
  let all := fix all (cs : list Call) : Forall P cs :=
    match cs with
    | [] => @List.Forall_nil _ P
    | c' :: rest =>
        @List.Forall_cons _ P c' rest (Call_nested_ind c') (all rest)
    end in
  match c with
  | call_createCampaign from ttl desc cat img goal days descs amts =>
      P_create from ttl desc cat img goal days descs amts
  | call_contribute from value id => P_contribute from value id
  | call_completeMilestone from id mid => P_complete from id mid
  | call_voteOnMilestone from id mid approve => P_vote from id mid approve
  | call_releaseMilestone from id mid accepts reenters =>
      P_release from id mid accepts reenters (all reenters)
  | call_withdrawFunds from id accepts reenters =>
      P_withdraw from id accepts reenters (all reenters)
  | call_refund from id accepts reenters =>
      P_refund from id accepts reenters (all reenters)
  end.
End CallInduction.

(** * Invariants, accounting, the first contract, the front end

    State invariants and what it takes to carry one through every call,
    the accounting of the balance, the [Crowdfunding] contract that
    precedes [CrowdfundingV2] in the file, and the encoding the front end
    uses for category and image. *)

(** ** State invariants carried by every call *)

(** [P] is carried from the storage before a call to the storage after
    it, on top of the storage invariant. *)
Definition Carries (now : N) (P : State → Prop) (s s' : State) : Prop :=
  Keeps now s s' ∧ (Inv s → P s → P s').

(** What it takes for [P] to be carried by every function, given that
    [J] holds as well: one obligation per function and one for the log.
    For the three paying functions the obligation is the write made before
    the value leaves. *)
Record Stable (now : N) (J P : State → Prop) : Prop := mkStable {
  st_log : ∀ ev s, J s → P s → P (log_event ev s);
  st_createCampaign :
    ∀ from ttl desc cat img goal days descs amts s r s',
      Inv s → J s → P s →
      createCampaign (mkEnv now from 0) ttl desc cat img goal days descs
        amts s = Ok (r, s') → P s';
  st_contribute : ∀ from value id s s',
    Inv s → J s → P s →
    contribute (mkEnv now from value) id s = Ok (tt, s') → P s';
  st_completeMilestone : ∀ from id mid s s',
    Inv s → J s → P s →
    completeMilestone (mkEnv now from 0) id mid s = Ok (tt, s') → P s';
  st_voteOnMilestone : ∀ from id mid approve s s',
    Inv s → J s → P s →
    voteOnMilestone (mkEnv now from 0) id mid approve s = Ok (tt, s') → P s';
  st_releaseMilestone : ∀ from id mid s,
    Inv s → J s → P s → releaseMilestone_guards (mkEnv now from 0) id mid s →
    amount (milestone_at s id mid) ≤ balance s →
    P (debit (amount (milestone_at s id mid))
         (update_milestone id mid (with_released true) s));
  st_withdrawFunds : ∀ from id s,
    Inv s → J s → P s → withdrawFunds_guards (mkEnv now from 0) id s →
    amountRaised (campaign_at s id) ≤ balance s →
    P (debit (amountRaised (campaign_at s id))
         (update_campaign id (with_withdrawn true) s));
  st_refund : ∀ from id s,
    Inv s → J s → P s → refund_guards (mkEnv now from 0) id s →
    contribution_at s id from ≤ balance s →
    P (debit (contribution_at s id from) (set_contribution id from 0 s))
}.

Definition anything : State → Prop := λ _, True.

(** [P] survives every transaction. *)
Definition Invariant (P : State → Prop) : Prop :=
  ∀ now c s, Inv s → P s → P (step (now, c) s).

(** ** The registry of campaigns *)

(** The identifiers handed out so far: 1, 2, ..., [n]. *)
Definition ids_upto (n : N) : list N := N.of_nat <$> seq 1 (N.to_nat n).

Definition Registry (s : State) : Prop :=
  campaignIds s = ids_upto (campaignCounter s) ∧
  ∀ id, exists_ (campaign_at s id) = true ↔ 1 ≤ id ≤ campaignCounter s.

(** What [createCampaign] requires of its input and of the state. *)
Definition createCampaign_guards (e : Env) (ttl desc : string)
    (goal days : N) (descs : list string) (amts : list N) (s : State)
  : Prop :=
  0 < goal ∧ 0 < days ≤ 365 ∧ ttl ≠ "" ∧ desc ≠ "" ∧
  (descs ≠ [] → plan_valid goal descs amts ∧ goal ≤ UINT256_MAX) ∧
  block_timestamp e + days * 86400 ≤ UINT256_MAX ∧
  campaignCounter s + 1 ≤ UINT256_MAX.

(** The state it leaves. *)
Definition created (e : Env) (ttl desc cat img : string) (goal days : N)
    (descs : list string) (amts : list N) (s : State) : State :=
  let nid := campaignCounter s + 1 in
  log_event
    (CampaignCreated nid (msg_sender e) ttl cat goal
       (block_timestamp e + days * 86400) (N.of_nat (length descs)))
    (push_campaignId nid
       (stored nid descs amts 0
          (set_campaign nid (new_campaign e ttl desc cat img goal days descs)
             (set_campaignCounter nid s)))).

(** After [lump_history], account 1 opens a second campaign with a plan. *)
Definition pump_created : State :=
  created (mkEnv 700 1 0) "Pump" "Buy a pump" "Community" "" 6 10
    ["order"; "install"] [2; 4] funded.

(** The records of a fresh plan. *)
Definition fresh_plan (descs : list string) (amts : list N)
  : list Milestone :=
  zip_with (λ d a, mkMilestone d a false false 0 0) descs amts.

(** *** A new campaign starts clean *)

(** Nothing is recorded under an identifier that is not in use. *)
Definition Unused (s : State) : Prop :=
  ∀ id, exists_ (campaign_at s id) = false →
        (∀ a, contribution_at s id a = 0) ∧
        (∀ mid a, vote_at s id mid a = false).

(** The amounts of a campaign's plan, in index order. *)
Definition plan_amounts (s : State) (id : N) : list N :=
  (λ i, amount (milestone_at s id (N.of_nat i)))
    <$> seq 0 (N.to_nat (milestoneCount (campaign_at s id))).

(** The plan of every campaign that has one is made of positive amounts
    that add up to the goal. *)
Definition PlanSound (s : State) : Prop :=
  ∀ id, 0 < milestoneCount (campaign_at s id) →
        Forall (λ a, 0 < a) (plan_amounts s id) ∧
        total_of (plan_amounts s id) = goalAmount (campaign_at s id).

(** *** The terms of a campaign never change *)

(** What [createCampaign] writes and nothing later touches. *)
Definition terms (c : Campaign)
  : address * string * string * string * string * N * N * N :=
  (creator c, title c, description c, category c, imageUrl c, goalAmount c,
   deadline c, milestoneCount c).

Definition plan_step (m : Milestone) : string * N :=
  (mdescription m, amount m).

Definition same_terms (s0 s : State) : Prop :=
  ∀ id, exists_ (campaign_at s0 id) = true →
        exists_ (campaign_at s id) = true ∧
        terms (campaign_at s id) = terms (campaign_at s0 id) ∧
        ∀ mid, plan_step (milestone_at s id mid)
               = plan_step (milestone_at s0 id mid).

(** *** A released milestone is closed *)

Definition closed_since (s0 s : State) : Prop :=
  ∀ id mid, released (milestone_at s0 id mid) = true →
            milestone_at s id mid = milestone_at s0 id mid.

(** ** [contribute] *)

Definition contribute_guards (e : Env) (id : N) (s : State) : Prop :=
  let c := campaign_at s id in
  exists_ c = true ∧ block_timestamp e < deadline c ∧ 0 < msg_value e ∧
  amountRaised c + msg_value e ≤ UINT256_MAX.

(** The storage a contribution leaves. *)
Definition credited (e : Env) (id : N) (s : State) : State :=
  let c := campaign_at s id in
  let v := msg_value e in
  log_event (ContributionReceived id (msg_sender e) v)
    (update_campaign id (with_amountRaised (amountRaised c + v))
       (set_contribution id (msg_sender e)
          (contribution_at s id (msg_sender e) + v)
          (set_balance (balance s + v) s))).

(** ** One way out for the funds of a campaign *)

(** Only a campaign without a plan is ever marked withdrawn. *)
Definition LumpOnly (s : State) : Prop :=
  ∀ id, withdrawn (campaign_at s id) = true →
        milestoneCount (campaign_at s id) = 0.

(** ** Conservation of value *)

(** What an event says came in, and what it says went out. *)
Definition value_in (ev : Event) : N :=
  match ev with
  | ContributionReceived _ _ amt => amt
  | _ => 0
  end.

Definition value_out (ev : Event) : N :=
  match ev with
  | MilestoneReleased _ _ amt => amt
  | FundsWithdrawn _ _ amt => amt
  | RefundIssued _ _ amt => amt
  | _ => 0
  end.

Definition received (evs : list Event) : N :=
  foldr (λ ev acc, value_in ev + acc) 0 evs.

Definition paid_out (evs : list Event) : N :=
  foldr (λ ev acc, value_out ev + acc) 0 evs.

(** The balance not explained by the log. *)
Definition unlogged (s : State) : Z :=
  (Z.of_N (balance s) + Z.of_N (paid_out (events s))
   - Z.of_N (received (events s)))%Z.

Definition Conserves (s s' : State) : Prop := unlogged s' = unlogged s.

(** Value can reach the address of the contract without any call into it:
    from a contract that self-destructs, as a block reward, or before the
    contract is deployed.  The contract cannot refuse it and nothing but
    the balance changes. *)
Definition credit (x : N) (s : State) : State :=
  set_balance (balance s + x) s.

(** The states of a contract that may have been credited in this way
    before deployment and between transactions; [forced] is the total so
    credited. *)
Inductive reachable_open : N → State → Prop :=
| open_init b : reachable_open b (set_balance b init)
| open_step forced tx s :
    reachable_open forced s → reachable_open forced (step tx s)
| open_credit forced x s :
    reachable_open forced s → reachable_open (forced + x) (credit x s).

(** The plan history with the first milestone released, then 3 forced
    in. *)
Definition survey_paid_credited : State :=
  credit 3 (step (600, call_releaseMilestone 1 1 0 true []) approved).

(** ** Who can move the flags of a campaign *)

(** The senders of a call and of the calls made from inside it. *)
Fixpoint callers (c : Call) : list address :=
  match c with
  | call_createCampaign from _ _ _ _ _ _ _ _ => [from]
  | call_contribute from _ _ => [from]
  | call_completeMilestone from _ _ => [from]
  | call_voteOnMilestone from _ _ _ => [from]
  | call_releaseMilestone from _ _ _ reenters =>
      from :: flat_map callers reenters
  | call_withdrawFunds from _ _ reenters => from :: flat_map callers reenters
  | call_refund from _ _ reenters => from :: flat_map callers reenters
  end.

Definition callers_of (cs : list Call) : list address :=
  flat_map callers cs.

(** The three flags a creator moves: [withdrawn] of the campaign,
    [completed] and [released] of its milestones. *)
Definition same_flags (id : N) (s s' : State) : Prop :=
  withdrawn (campaign_at s' id) = withdrawn (campaign_at s id) ∧
  ∀ mid,
    completed (milestone_at s' id mid) = completed (milestone_at s id mid) ∧
    released (milestone_at s' id mid) = released (milestone_at s id mid).

Definition Spared (id : N) (cr : address) (s s' : State) : Prop :=
  Inv s → exists_ (campaign_at s id) = true →
  creator (campaign_at s id) = cr →
  Inv s' ∧ exists_ (campaign_at s' id) = true ∧
  creator (campaign_at s' id) = cr ∧ same_flags id s s'.

(** ** Solvency: what the contract holds against what it owes *)

(** Σ of [f 0 .. f (n-1)]. *)
Fixpoint sum_upto (f : nat → Z) (n : nat) : Z :=
  match n with
  | O => 0%Z
  | S k => (sum_upto f k + f k)%Z
  end.

(** What has been paid out of a campaign through its milestones. *)
Definition released_total (s : State) (id : N) : Z :=
  sum_upto
    (λ i, let m := milestone_at s id (N.of_nat i) in
          if released m then Z.of_N (amount m) else 0%Z)
    (N.to_nat (milestoneCount (campaign_at s id))).

(** What the contract still holds for a campaign: its ledger, less what
    was withdrawn, less what was released. *)
Definition owed (s : State) (id : N) : Z :=
  (Z.of_N (sum_contributions s id)
   - (if withdrawn (campaign_at s id)
      then Z.of_N (amountRaised (campaign_at s id)) else 0)
   - released_total s id)%Z.

Definition liabilities (s : State) : Z :=
  sum_upto (λ i, owed s (N.of_nat (S i))) (N.to_nat (campaignCounter s)).

(** With the clock at [clock]: a ledger adds up to [amountRaised] unless
    the campaign has failed, and a withdrawn campaign is over and
    reached its goal. *)
Definition Clocked (clock : N) (s : State) : Prop :=
  ∀ id, exists_ (campaign_at s id) = true →
    (sum_contributions s id = amountRaised (campaign_at s id) ∨
     (deadline (campaign_at s id) ≤ clock ∧
      amountRaised (campaign_at s id) < goalAmount (campaign_at s id))) ∧
    (withdrawn (campaign_at s id) = true →
     deadline (campaign_at s id) ≤ clock ∧
     goalAmount (campaign_at s id) ≤ amountRaised (campaign_at s id)).

(** [forced] is what has reached the address without a call. *)
Definition Solvent (clock forced : N) (s : State) : Prop :=
  Clocked clock s ∧
  Z.of_N (balance s) = (liabilities s + Z.of_N forced)%Z.

(** The invariants solvency rests on. *)
Definition Sound (s : State) : Prop :=
  (Registry s ∧ Unused s) ∧ (PlanSound s ∧ LumpOnly s).

(** States reached by a history whose block times never go back; [clock]
    is the time of the last transaction. *)
Inductive reachable_at : N → State → Prop :=
| reachable_at_init : reachable_at 0 init
| reachable_at_step clock now c s :
    reachable_at clock s → clock ≤ now →
    reachable_at now (step (now, c) s).

(** The same on a chain where value can also reach the address without a
    call, before deployment and between transactions: [forced] is the
    total so credited. *)
Inductive reachable_open_at : N → N → State → Prop :=
| open_at_init b : reachable_open_at 0 b (set_balance b init)
| open_at_step clock now forced c s :
    reachable_open_at clock forced s → clock ≤ now →
    reachable_open_at now forced (step (now, c) s)
| open_at_credit clock forced x s :
    reachable_open_at clock forced s →
    reachable_open_at clock (forced + x) (credit x s).

Fixpoint ordered_from (clock : N) (txs : list (N * Call)) : Prop :=
  match txs with
  | [] => True
  | tx :: rest => clock ≤ tx.1 ∧ ordered_from tx.1 rest
  end.

Fixpoint last_time (clock : N) (txs : list (N * Call)) : N :=
  match txs with
  | [] => clock
  | tx :: rest => last_time tx.1 rest
  end.

(** *** How the writes move what is owed *)

Definition paid_lump (s : State) (id : N) : Z :=
  if withdrawn (campaign_at s id)
  then Z.of_N (amountRaised (campaign_at s id)) else 0%Z.

(** The plan history, then 3 forced in. *)
Definition approved_credited : State := credit 3 approved.

(** The plan history followed by the release of milestone 0. *)
Definition survey_paid : State :=
  step (600, call_releaseMilestone 1 1 0 true []) approved.

(** ** Votes weigh no more than what was contributed *)

(** Σ over a ledger of a weight given to each entry. *)
Definition weighted (w : address → N → N) (m : gmap N N) : N :=
  map_fold (λ a v acc, w a v + acc) 0 m.

(** What the accounts that voted on a milestone hold in the ledger. *)
Definition voters_stake (s : State) (id mid : N) : N :=
  weighted (λ a v, if vote_at s id mid a then v else 0) (ledger_of s id).

(** A milestone not yet completed has no votes, and the two tallies of a
    milestone together are covered by the stake of its voters. *)
Definition Tally (s : State) : Prop :=
  ∀ id mid,
    (completed (milestone_at s id mid) = false →
     votesFor (milestone_at s id mid) = 0 ∧
     votesAgainst (milestone_at s id mid) = 0) ∧
    votesFor (milestone_at s id mid) + votesAgainst (milestone_at s id mid)
    ≤ voters_stake s id mid.

(** *** The milestone calls of the creator and of the contributors *)

(** Every [amountRaised] fits a word. *)
Definition Bounded (s : State) : Prop :=
  ∀ id, amountRaised (campaign_at s id) ≤ UINT256_MAX.

Module V1.

Record Campaign : Type := mkCampaign {
  creator : address;
  title : string;
  description : string;
  goalAmount : N;
  deadline : N;
  amountRaised : N;
  withdrawn : bool;
  exists_ : bool
}.

Inductive Event : Type :=
| CampaignCreated (campaignId : N) (who : address) (ttl : string)
    (goal dl : N)
| ContributionReceived (campaignId : N) (contributor : address) (amt : N)
| FundsWithdrawn (campaignId : N) (who : address) (amt : N)
| RefundIssued (campaignId : N) (contributor : address) (amt : N).

Record State : Type := mkState {
  campaignCounter : N;
  campaigns : gmap N Campaign;
  contributions : gmap N (gmap N N);
  campaignIds : list N;
  balance : N;
  events : list Event
}.

Definition Campaign0 : Campaign := mkCampaign 0 "" "" 0 0 0 false false.

Definition init : State := mkState 0 ∅ ∅ [] 0 [].

Definition campaign_at (s : State) (id : N) : Campaign :=
  default Campaign0 (campaigns s !! id).

Definition ledger_of (s : State) (id : N) : gmap N N :=
  default ∅ (contributions s !! id).

Definition contribution_at (s : State) (id : N) (a : address) : N :=
  default 0 (ledger_of s id !! a).

Definition set_campaign (id : N) (c : Campaign) (s : State) : State :=
  mkState (campaignCounter s) (<[id := c]> (campaigns s)) (contributions s)
    (campaignIds s) (balance s) (events s).

Definition set_contribution (id : N) (a : address) (v : N) (s : State)
  : State :=
  mkState (campaignCounter s) (campaigns s)
    (<[id := <[a := v]> (ledger_of s id)]> (contributions s))
    (campaignIds s) (balance s) (events s).

Definition set_campaignCounter (n : N) (s : State) : State :=
  mkState n (campaigns s) (contributions s) (campaignIds s) (balance s)
    (events s).

Definition push_campaignId (id : N) (s : State) : State :=
  mkState (campaignCounter s) (campaigns s) (contributions s)
    (campaignIds s ++ [id]) (balance s) (events s).

Definition set_balance (b : N) (s : State) : State :=
  mkState (campaignCounter s) (campaigns s) (contributions s)
    (campaignIds s) b (events s).

Definition log_event (ev : Event) (s : State) : State :=
  mkState (campaignCounter s) (campaigns s) (contributions s)
    (campaignIds s) (balance s) (events s ++ [ev]).

Definition update_campaign (id : N) (f : Campaign → Campaign) (s : State)
  : State :=
  set_campaign id (f (campaign_at s id)) s.

Definition with_amountRaised (v : N) (c : Campaign) : Campaign :=
  mkCampaign (creator c) (title c) (description c) (goalAmount c)
    (deadline c) v (withdrawn c) (exists_ c).

Definition with_withdrawn (b : bool) (c : Campaign) : Campaign :=
  mkCampaign (creator c) (title c) (description c) (goalAmount c)
    (deadline c) (amountRaised c) b (exists_ c).

(** The monad, over this storage. *)
Definition M (A : Type) : Type := State → Result (A * State).

Definition ret {A} (a : A) : M A := λ s, Ok (a, s).

Definition bind {A B} (m : M A) (k : A → M B) : M B :=
  λ s, match m s with
       | Ok (a, s') => k a s'
       | Err e => Err e
       end.

Definition fail {A} (e : Error) : M A := λ _, Err e.

Definition gets {A} (f : State → A) : M A := λ s, Ok (f s, s).

Definition modify (f : State → State) : M unit := λ s, Ok (tt, f s).

Definition require (b : bool) (reason : string) : M unit :=
  if b then ret tt else fail (Revert reason).

Definition emit (ev : Event) : M unit := modify (log_event ev).

#[local] Set Warnings "-notation-overridden".
#[local] Notation "x <- m ;; k" := (bind m (λ x, k))
  (at level 100, m at next level, right associativity).
#[local] Notation "m ;; k" := (bind m (λ _, k))
  (at level 100, right associativity).

Definition checked_add (a b : N) : M N :=
  if a + b <=? UINT256_MAX then ret (a + b) else fail (Panic 17).

Definition checked_mul (a b : N) : M N :=
  if a * b <=? UINT256_MAX then ret (a * b) else fail (Panic 17).

Definition Receiver : Type := address → N → State → option State.

Definition call_value (recv : Receiver) (to : address) (amt : N) : M bool :=
  λ s, if balance s <? amt then Ok (false, s)
       else match recv to amt (set_balance (balance s - amt) s) with
            | Some s' => Ok (true, s')
            | None => Ok (false, s)
            end.

(** Modifiers *)

Definition campaignExists (id : N) : M unit :=
  c <- gets (λ s, campaign_at s id) ;;
  require (exists_ c) "Campaign does not exist".

Definition campaignActive (e : Env) (id : N) : M unit :=
  c <- gets (λ s, campaign_at s id) ;;
  require (block_timestamp e <? deadline c) "Campaign has ended".

Definition campaignEnded (e : Env) (id : N) : M unit :=
  c <- gets (λ s, campaign_at s id) ;;
  require (deadline c <=? block_timestamp e) "Campaign still active".

Definition onlyCreator (e : Env) (id : N) : M unit :=
  c <- gets (λ s, campaign_at s id) ;;
  require (msg_sender e =? creator c)
    "Only campaign creator can call this".

(** Functions *)

Definition createCampaign (e : Env) (_title _description : string)
    (_goalAmount _durationInDays : N) : M N :=
  require (0 <? _goalAmount) "Goal amount must be greater than 0" ;;
  require (0 <? _durationInDays) "Duration must be at least 1 day" ;;
  require (_durationInDays <=? 365) "Duration cannot exceed 365 days" ;;
  require (0 <? N.of_nat (String.length _title)) "Title cannot be empty" ;;
  require (0 <? N.of_nat (String.length _description))
    "Description cannot be empty" ;;
  secs <- checked_mul _durationInDays 86400 ;;
  dl <- checked_add (block_timestamp e) secs ;;
  counter <- gets campaignCounter ;;
  newCampaignId <- checked_add counter 1 ;;
  modify (set_campaignCounter newCampaignId) ;;
  modify (set_campaign newCampaignId
            (mkCampaign (msg_sender e) _title _description _goalAmount dl 0
               false true)) ;;
  modify (push_campaignId newCampaignId) ;;
  emit (CampaignCreated newCampaignId (msg_sender e) _title _goalAmount dl) ;;
  ret newCampaignId.

Definition contribute (e : Env) (_campaignId : N) : M unit :=
  modify (λ s, set_balance (balance s + msg_value e) s) ;;
  campaignExists _campaignId ;;
  campaignActive e _campaignId ;;
  require (0 <? msg_value e) "Contribution must be greater than 0" ;;
  old <- gets (λ s, contribution_at s _campaignId (msg_sender e)) ;;
  new <- checked_add old (msg_value e) ;;
  modify (set_contribution _campaignId (msg_sender e) new) ;;
  campaign <- gets (λ s, campaign_at s _campaignId) ;;
  raised <- checked_add (amountRaised campaign) (msg_value e) ;;
  modify (update_campaign _campaignId (with_amountRaised raised)) ;;
  emit (ContributionReceived _campaignId (msg_sender e) (msg_value e)).

Definition withdrawFunds (recv : Receiver) (e : Env) (_campaignId : N)
  : M unit :=
  campaignExists _campaignId ;;
  campaignEnded e _campaignId ;;
  onlyCreator e _campaignId ;;
  campaign <- gets (λ s, campaign_at s _campaignId) ;;
  require (negb (withdrawn campaign)) "Funds already withdrawn" ;;
  require (goalAmount campaign <=? amountRaised campaign)
    "Funding goal not reached" ;;
  require (0 <? amountRaised campaign) "No funds to withdraw" ;;
  modify (update_campaign _campaignId (with_withdrawn true)) ;;
  amt <- gets (λ s, amountRaised (campaign_at s _campaignId)) ;;
  payee <- gets (λ s, creator (campaign_at s _campaignId)) ;;
  success <- call_value recv payee amt ;;
  require success "Transfer failed" ;;
  who <- gets (λ s, creator (campaign_at s _campaignId)) ;;
  emit (FundsWithdrawn _campaignId who amt).

Definition refund (recv : Receiver) (e : Env) (_campaignId : N) : M unit :=
  campaignExists _campaignId ;;
  campaignEnded e _campaignId ;;
  campaign <- gets (λ s, campaign_at s _campaignId) ;;
  require (amountRaised campaign <? goalAmount campaign)
    "Campaign was successful, no refunds" ;;
  contributedAmount <-
    gets (λ s, contribution_at s _campaignId (msg_sender e)) ;;
  require (0 <? contributedAmount) "No contribution to refund" ;;
  modify (set_contribution _campaignId (msg_sender e) 0) ;;
  success <- call_value recv (msg_sender e) contributedAmount ;;
  require success "Refund transfer failed" ;;
  emit (RefundIssued _campaignId (msg_sender e) contributedAmount).

(** Views *)

Definition getCampaign (_campaignId : N) : M Campaign :=
  campaignExists _campaignId ;;
  gets (λ s, campaign_at s _campaignId).

Definition getTotalCampaigns : M N :=
  gets (λ s, N.of_nat (length (campaignIds s))).

Definition getContribution (_campaignId : N) (_contributor : address)
  : M N :=
  gets (λ s, contribution_at s _campaignId _contributor).

Definition isGoalReached (_campaignId : N) : M bool :=
  campaignExists _campaignId ;;
  gets (λ s, goalAmount (campaign_at s _campaignId)
             <=? amountRaised (campaign_at s _campaignId)).

Definition getAllCampaignIds : M (list N) := gets campaignIds.

Definition getContractBalance : M N := gets balance.

End V1.

(** *** The second contract, restricted to campaigns without a plan *)

(** A campaign of the first contract as the second stores it: no category,
    no image, no milestones. *)
Definition lift_campaign (c : V1.Campaign) : Campaign :=
  mkCampaign (V1.creator c) (V1.title c) (V1.description c) "" ""
    (V1.goalAmount c) (V1.deadline c) (V1.amountRaised c) (V1.withdrawn c)
    (V1.exists_ c) 0.

Definition lift_event (ev : V1.Event) : Event :=
  match ev with
  | V1.CampaignCreated id who ttl goal dl =>
      CampaignCreated id who ttl "" goal dl 0
  | V1.ContributionReceived id a amt => ContributionReceived id a amt
  | V1.FundsWithdrawn id who amt => FundsWithdrawn id who amt
  | V1.RefundIssued id a amt => RefundIssued id a amt
  end.

Definition lift (s : V1.State) : State :=
  mkState (V1.campaignCounter s) (lift_campaign <$> V1.campaigns s)
    (V1.contributions s) ∅ ∅ (V1.campaignIds s) (V1.balance s)
    (lift_event <$> V1.events s).

Definition lift_result {A B} (f : A → B) (r : Result (A * V1.State))
  : Result (B * State) :=
  match r with
  | Ok (a, s) => Ok (f a, lift s)
  | Err e => Err e
  end.

(** Payees that do the same on both sides. *)
Definition same_payee (recv1 : V1.Receiver) (recv2 : Receiver) : Prop :=
  ∀ to amt t, recv2 to amt (lift t) = lift <$> recv1 to amt t.

(** A campaign of the first contract with goal 10 and contributions of 4
    and 6, and an account that takes what it is paid. *)
Definition V1_then {A} (m : V1.M A) (s : V1.State) : V1.State :=
  match m s with Ok (_, s') => s' | Err _ => s end.

Definition V1_funded : V1.State :=
  V1_then (V1.contribute (mkEnv 300 3 6) 1)
    (V1_then (V1.contribute (mkEnv 200 2 4) 1)
       (V1_then (V1.createCampaign (mkEnv 100 1 0) "Well" "Dig a well" 10 30)
          V1.init)).

Definition V1_plain_account : V1.Receiver := λ _ _ s, Some s.

(** The code units of an ASCII literal. *)
Definition lit (s : string) : list N :=
  Ascii.N_of_ascii <$> String.list_ascii_of_string s.

Definition CATEGORY_TAG : list N := Eval cbv in lit "[CATEGORY:".
Definition IMAGE_TAG : list N := Eval cbv in lit "[IMAGE:".
Definition Other : list N := Eval cbv in lit "Other".

(** The template literal of [handleSubmit]. *)
Definition enhancedDescription (category imageUrl description : list N)
  : list N :=
  CATEGORY_TAG ++ category ++ [93] ++ IMAGE_TAG ++ imageUrl ++ [93]
    ++ description.

(** [.] of a regular expression without the [s] flag matches any code unit
    but a line terminator: LF, CR, LS, PS. *)
Definition line_terminator (c : N) : bool :=
  (c =? 10) || (c =? 13) || (c =? 8232) || (c =? 8233).

(** What [trim] removes: white space and line terminators. *)
Definition white_space (c : N) : bool :=
  (c =? 9) || (c =? 11) || (c =? 12) || (c =? 32) || (c =? 160)
  || (c =? 5760) || ((8192 <=? c) && (c <=? 8202)) || (c =? 8239)
  || (c =? 8287) || (c =? 12288) || (c =? 65279) || line_terminator c.

(** The literal part of the pattern at the head of [s]. *)
Fixpoint after_prefix (p s : list N) : option (list N) :=
  match p, s with
  | [], _ => Some s
  | a :: p', b :: s' => if a =? b then after_prefix p' s' else None
  | _ :: _, [] => None
  end.

(** [(.*?)\]]: the lazy group takes as little as it can, so it ends at the
    first closing bracket, and fails if a line terminator comes first.
    Returns the group and what follows the bracket. *)
Fixpoint lazy_until_bracket (s : list N) : option (list N * list N) :=
  match s with
  | [] => None
  | c :: rest =>
      if c =? 93 then Some ([], rest)
      else if line_terminator c then None
      else match lazy_until_bracket rest with
           | Some (g, after) => Some (c :: g, after)
           | None => None
           end
  end.

(** The first match of [tag(.*?)\]] in [s], trying each start position
    from the left: what precedes the match, the group, what follows. *)
Fixpoint regexp_exec (tag s : list N)
  : option (list N * list N * list N) :=
  match
    match after_prefix tag s with
    | Some r => lazy_until_bracket r
    | None => None
    end
  with
  | Some (g, after) => Some ([], g, after)
  | None =>
      match s with
      | [] => None
      | c :: rest =>
          match regexp_exec tag rest with
          | Some (before, g, after) => Some (c :: before, g, after)
          | None => None
          end
      end
  end.

(** [s.match(re)[1]], or [None] for [null]. *)
Definition match_group (tag s : list N) : option (list N) :=
  match regexp_exec tag s with
  | Some (_, g, _) => Some g
  | None => None
  end.

(** [s.replace(re, "")]: the first match is removed. *)
Definition replace_first (tag s : list N) : list N :=
  match regexp_exec tag s with
  | Some (before, _, after) => before ++ after
  | None => s
  end.

Fixpoint trim_start (s : list N) : list N :=
  match s with
  | [] => []
  | c :: rest => if white_space c then trim_start rest else s
  end.

Definition trim (s : list N) : list N :=
  reverse (trim_start (reverse (trim_start s))).

Record CampaignData : Type := mkCampaignData {
  cd_category : list N;
  cd_imageUrl : list N;
  cd_description : list N
}.

Definition parseCampaignData (description : list N) : CampaignData :=
  let categoryMatch := match_group CATEGORY_TAG description in
  let imageMatch := match_group IMAGE_TAG description in
  let category :=
    match categoryMatch with Some g => g | None => Other end in
  let imageUrl := match imageMatch with Some g => g | None => [] end in
  let cleanDescription :=
    trim (replace_first IMAGE_TAG (replace_first CATEGORY_TAG description)) in
  mkCampaignData category imageUrl cleanDescription.

(** A code unit that can stand inside a tag's value. *)
Definition inside_tag (c : N) : Prop :=
  c ≠ 93 ∧ line_terminator c = false.

(** * Storage lemmas: reading what was written *)

Lemma campaign_at_set_campaign id c s id' :
  campaign_at (set_campaign id c s) id'
  = if decide (id = id') then c else campaign_at s id'.
Proof.
  unfold campaign_at, set_campaign; simpl.
  rewrite lookup_insert. by case_decide.
Qed.

Lemma campaign_at_update_campaign id f s id' :
  campaign_at (update_campaign id f s) id'
  = if decide (id = id') then f (campaign_at s id) else campaign_at s id'.
Proof. apply campaign_at_set_campaign. Qed.

Lemma ledger_of_set_contribution id a v s id' :
  ledger_of (set_contribution id a v s) id'
  = if decide (id = id') then <[a := v]> (ledger_of s id)
    else ledger_of s id'.
Proof.
  unfold ledger_of at 1. unfold set_contribution; simpl.
  rewrite lookup_insert. by case_decide.
Qed.

Lemma contribution_at_set_contribution id a v s id' a' :
  contribution_at (set_contribution id a v s) id' a'
  = if decide (id = id' ∧ a = a') then v else contribution_at s id' a'.
Proof.
  unfold contribution_at. rewrite ledger_of_set_contribution.
  destruct (decide (id = id')) as [->|Hne].
  - rewrite lookup_insert.
    repeat destruct (decide _); naive_solver.
  - destruct (decide _); naive_solver.
Qed.

Lemma milestone_at_set_milestone id mid m s id' mid' :
  milestone_at (set_milestone id mid m s) id' mid'
  = if decide (id = id' ∧ mid = mid') then m else milestone_at s id' mid'.
Proof.
  unfold milestone_at, set_milestone; simpl.
  rewrite lookup_insert.
  destruct (decide (id = id')) as [->|Hne]; simpl.
  - rewrite lookup_insert.
    repeat destruct (decide _); naive_solver.
  - destruct (decide _); naive_solver.
Qed.

Lemma milestone_at_update_milestone id mid f s id' mid' :
  milestone_at (update_milestone id mid f s) id' mid'
  = if decide (id = id' ∧ mid = mid') then f (milestone_at s id mid)
    else milestone_at s id' mid'.
Proof. apply milestone_at_set_milestone. Qed.

Lemma vote_at_set_vote id mid a b s id' mid' a' :
  vote_at (set_vote id mid a b s) id' mid' a'
  = if decide (id = id' ∧ mid = mid' ∧ a = a') then b
    else vote_at s id' mid' a'.
Proof.
  unfold vote_at, set_vote; simpl.
  rewrite lookup_insert.
  destruct (decide (id = id')) as [->|Hne]; simpl.
  - rewrite lookup_insert.
    destruct (decide (mid = mid')) as [->|Hne']; simpl.
    + rewrite lookup_insert.
      repeat destruct (decide _); naive_solver.
    + destruct (decide _); naive_solver.
  - destruct (decide _); naive_solver.
Qed.

(** Writes to one part of the storage leave the reads of the others. *)

Lemma campaign_at_set_contribution id a v s id0 :
  campaign_at (set_contribution id a v s) id0 = campaign_at s id0.
Proof. reflexivity. Qed.

Lemma campaign_at_set_milestone id mid m s id0 :
  campaign_at (set_milestone id mid m s) id0 = campaign_at s id0.
Proof. reflexivity. Qed.

Lemma campaign_at_set_vote id mid a b s id0 :
  campaign_at (set_vote id mid a b s) id0 = campaign_at s id0.
Proof. reflexivity. Qed.

Lemma campaign_at_set_campaignCounter n s id0 :
  campaign_at (set_campaignCounter n s) id0 = campaign_at s id0.
Proof. reflexivity. Qed.

Lemma campaign_at_push_campaignId id s id0 :
  campaign_at (push_campaignId id s) id0 = campaign_at s id0.
Proof. reflexivity. Qed.

Lemma campaign_at_set_balance b s id0 :
  campaign_at (set_balance b s) id0 = campaign_at s id0.
Proof. reflexivity. Qed.

Lemma campaign_at_log_event ev s id0 :
  campaign_at (log_event ev s) id0 = campaign_at s id0.
Proof. reflexivity. Qed.

Lemma ledger_of_set_campaign id c s id0 :
  ledger_of (set_campaign id c s) id0 = ledger_of s id0.
Proof. reflexivity. Qed.

Lemma ledger_of_set_milestone id mid m s id0 :
  ledger_of (set_milestone id mid m s) id0 = ledger_of s id0.
Proof. reflexivity. Qed.

Lemma ledger_of_set_vote id mid a b s id0 :
  ledger_of (set_vote id mid a b s) id0 = ledger_of s id0.
Proof. reflexivity. Qed.

Lemma ledger_of_set_campaignCounter n s id0 :
  ledger_of (set_campaignCounter n s) id0 = ledger_of s id0.
Proof. reflexivity. Qed.

Lemma ledger_of_push_campaignId id s id0 :
  ledger_of (push_campaignId id s) id0 = ledger_of s id0.
Proof. reflexivity. Qed.

Lemma ledger_of_set_balance b s id0 :
  ledger_of (set_balance b s) id0 = ledger_of s id0.
Proof. reflexivity. Qed.

Lemma ledger_of_log_event ev s id0 :
  ledger_of (log_event ev s) id0 = ledger_of s id0.
Proof. reflexivity. Qed.

Lemma contribution_at_set_campaign id c s id0 a0 :
  contribution_at (set_campaign id c s) id0 a0 = contribution_at s id0 a0.
Proof. reflexivity. Qed.

Lemma contribution_at_set_milestone id mid m s id0 a0 :
  contribution_at (set_milestone id mid m s) id0 a0 = contribution_at s id0 a0.
Proof. reflexivity. Qed.

Lemma contribution_at_set_vote id mid a b s id0 a0 :
  contribution_at (set_vote id mid a b s) id0 a0 = contribution_at s id0 a0.
Proof. reflexivity. Qed.

Lemma contribution_at_set_campaignCounter n s id0 a0 :
  contribution_at (set_campaignCounter n s) id0 a0 = contribution_at s id0 a0.
Proof. reflexivity. Qed.

Lemma contribution_at_push_campaignId id s id0 a0 :
  contribution_at (push_campaignId id s) id0 a0 = contribution_at s id0 a0.
Proof. reflexivity. Qed.

Lemma contribution_at_set_balance b s id0 a0 :
  contribution_at (set_balance b s) id0 a0 = contribution_at s id0 a0.
Proof. reflexivity. Qed.

Lemma contribution_at_log_event ev s id0 a0 :
  contribution_at (log_event ev s) id0 a0 = contribution_at s id0 a0.
Proof. reflexivity. Qed.

Lemma milestone_at_set_campaign id c s id0 mid0 :
  milestone_at (set_campaign id c s) id0 mid0 = milestone_at s id0 mid0.
Proof. reflexivity. Qed.

Lemma milestone_at_set_contribution id a v s id0 mid0 :
  milestone_at (set_contribution id a v s) id0 mid0 = milestone_at s id0 mid0.
Proof. reflexivity. Qed.

Lemma milestone_at_set_vote id mid a b s id0 mid0 :
  milestone_at (set_vote id mid a b s) id0 mid0 = milestone_at s id0 mid0.
Proof. reflexivity. Qed.

Lemma milestone_at_set_campaignCounter n s id0 mid0 :
  milestone_at (set_campaignCounter n s) id0 mid0 = milestone_at s id0 mid0.
Proof. reflexivity. Qed.

Lemma milestone_at_push_campaignId id s id0 mid0 :
  milestone_at (push_campaignId id s) id0 mid0 = milestone_at s id0 mid0.
Proof. reflexivity. Qed.

Lemma milestone_at_set_balance b s id0 mid0 :
  milestone_at (set_balance b s) id0 mid0 = milestone_at s id0 mid0.
Proof. reflexivity. Qed.

Lemma milestone_at_log_event ev s id0 mid0 :
  milestone_at (log_event ev s) id0 mid0 = milestone_at s id0 mid0.
Proof. reflexivity. Qed.

Lemma vote_at_set_campaign id c s id0 mid0 a0 :
  vote_at (set_campaign id c s) id0 mid0 a0 = vote_at s id0 mid0 a0.
Proof. reflexivity. Qed.

Lemma vote_at_set_contribution id a v s id0 mid0 a0 :
  vote_at (set_contribution id a v s) id0 mid0 a0 = vote_at s id0 mid0 a0.
Proof. reflexivity. Qed.

Lemma vote_at_set_milestone id mid m s id0 mid0 a0 :
  vote_at (set_milestone id mid m s) id0 mid0 a0 = vote_at s id0 mid0 a0.
Proof. reflexivity. Qed.

Lemma vote_at_set_campaignCounter n s id0 mid0 a0 :
  vote_at (set_campaignCounter n s) id0 mid0 a0 = vote_at s id0 mid0 a0.
Proof. reflexivity. Qed.

Lemma vote_at_push_campaignId id s id0 mid0 a0 :
  vote_at (push_campaignId id s) id0 mid0 a0 = vote_at s id0 mid0 a0.
Proof. reflexivity. Qed.

Lemma vote_at_set_balance b s id0 mid0 a0 :
  vote_at (set_balance b s) id0 mid0 a0 = vote_at s id0 mid0 a0.
Proof. reflexivity. Qed.

Lemma vote_at_log_event ev s id0 mid0 a0 :
  vote_at (log_event ev s) id0 mid0 a0 = vote_at s id0 mid0 a0.
Proof. reflexivity. Qed.

Create Rewrite HintDb storage.

#[global] Hint Rewrite campaign_at_set_contribution
  campaign_at_set_milestone campaign_at_set_vote
  campaign_at_set_campaignCounter campaign_at_push_campaignId
  campaign_at_set_balance campaign_at_log_event ledger_of_set_campaign
  ledger_of_set_milestone ledger_of_set_vote ledger_of_set_campaignCounter
  ledger_of_push_campaignId ledger_of_set_balance ledger_of_log_event
  contribution_at_set_campaign contribution_at_set_milestone
  contribution_at_set_vote contribution_at_set_campaignCounter
  contribution_at_push_campaignId contribution_at_set_balance
  contribution_at_log_event milestone_at_set_campaign
  milestone_at_set_contribution milestone_at_set_vote
  milestone_at_set_campaignCounter milestone_at_push_campaignId
  milestone_at_set_balance milestone_at_log_event vote_at_set_campaign
  vote_at_set_contribution vote_at_set_milestone vote_at_set_campaignCounter
  vote_at_push_campaignId vote_at_set_balance vote_at_log_event
  campaign_at_set_campaign ledger_of_set_contribution
  contribution_at_set_contribution milestone_at_set_milestone
  vote_at_set_vote : storage.

Ltac storage_step :=
  autorewrite with storage in *;
  cbn [campaignCounter campaigns contributions milestones milestoneVotes
       campaignIds balance events set_campaign set_contribution
       set_milestone set_vote set_campaignCounter push_campaignId
       set_balance log_event creator title description category imageUrl
       goalAmount deadline amountRaised withdrawn exists_ milestoneCount
       mdescription amount completed released votesFor votesAgainst
       with_amountRaised with_withdrawn with_completed with_released
       with_votesFor with_votesAgainst] in *.

Ltac storage :=
  unfold update_campaign, update_milestone, debit in *;
  storage_step; storage_step.

(** * Symbolic execution of a function body *)

Ltac unfold_body :=
  cbv beta iota delta
    [bind ret fail gets modify require emit campaignExists campaignActive
     campaignEnded onlyCreator onlyContributor checked_add checked_mul
     call_value index state_of].

Ltac unfold_body_in H :=
  cbv beta iota delta
    [bind ret fail gets modify require emit campaignExists campaignActive
     campaignEnded onlyCreator onlyContributor checked_add checked_mul
     call_value index state_of] in H.

(** Walks down the guards of a body that is known to have returned. *)
Ltac guards H :=
  unfold_body_in H;
  repeat match type of H with
    | context [if ?b then _ else _] =>
        let G := fresh "G" in destruct b eqn:G; try discriminate H
    | context [match ?r with Some _ => _ | None => _ end] =>
        let G := fresh "G" in destruct r eqn:G; try discriminate H
    end.

(** * A relation kept by every function is kept by every call tree

    [R] relates the storage before a call to the storage after it.  For the
    three paying functions the obligation is stated for any payee whose own
    effect on the storage is within [R]. *)

Section Preservation.
Variable now : N.
Variable R : State → State → Prop.
Hypothesis R_refl : ∀ s, R s s.
Hypothesis R_trans : ∀ s t u, R s t → R t u → R s u.
Hypothesis R_createCampaign :
  ∀ from ttl desc cat img goal days descs amts s r s',
    createCampaign (mkEnv now from 0) ttl desc cat img goal days descs amts
      s = Ok (r, s') → R s s'.
Hypothesis R_contribute : ∀ from value id s s',
  contribute (mkEnv now from value) id s = Ok (tt, s') → R s s'.
Hypothesis R_completeMilestone : ∀ from id mid s s',
  completeMilestone (mkEnv now from 0) id mid s = Ok (tt, s') → R s s'.
Hypothesis R_voteOnMilestone : ∀ from id mid approve s s',
  voteOnMilestone (mkEnv now from 0) id mid approve s = Ok (tt, s') →
  R s s'.
Hypothesis R_releaseMilestone : ∀ recv from id mid s s',
  within R recv →
  releaseMilestone recv (mkEnv now from 0) id mid s = Ok (tt, s') → R s s'.
Hypothesis R_withdrawFunds : ∀ recv from id s s',
  within R recv →
  withdrawFunds recv (mkEnv now from 0) id s = Ok (tt, s') → R s s'.
Hypothesis R_refund : ∀ recv from id s s',
  within R recv →
  refund recv (mkEnv now from 0) id s = Ok (tt, s') → R s s'.

Lemma run_with_within (cs : list Call) :
  Forall (λ c, ∀ s s', exec now c s = Ok s' → R s s') cs →
  ∀ s, R s (run_with (exec now) cs s).
Proof.
  induction 1 as [|c rest Hc _ IH]; intros s; simpl; [apply R_refl|].
  destruct (exec now c s) as [s1|e] eqn:E; [|apply IH].
  eapply R_trans; [apply Hc, E | apply IH].
Qed.

Lemma payee_code_within accepts reenters :
  Forall (λ c, ∀ s s', exec now c s = Ok s' → R s s') reenters →
  within R (payee_code (run_with (exec now)) accepts reenters).
Proof.
  intros Hall to amt t t'. unfold payee_code.
  destruct accepts; [|discriminate].
  intros [= <-]. by apply run_with_within.
Qed.

Lemma exec_within (c : Call) : ∀ s s', exec now c s = Ok s' → R s s'.
Proof.
  induction c using Call_nested_ind; intros s s' E; simpl in E;
    unfold state_of in E.
  - destruct (createCampaign _ _ _ _ _ _ _ _ _ _) as [[r t]|] eqn:E';
      [|discriminate]. injection E as <-. eauto.
  - destruct (contribute _ _ _) as [[[] t]|] eqn:E'; [|discriminate].
    injection E as <-. eauto.
  - destruct (completeMilestone _ _ _ _) as [[[] t]|] eqn:E';
      [|discriminate]. injection E as <-. eauto.
  - destruct (voteOnMilestone _ _ _ _ _) as [[[] t]|] eqn:E';
      [|discriminate]. injection E as <-. eauto.
  - destruct (releaseMilestone _ _ _ _ _) as [[[] t]|] eqn:E';
      [|discriminate]. injection E as <-.
    eapply R_releaseMilestone; [|exact E']. by apply payee_code_within.
  - destruct (withdrawFunds _ _ _ _) as [[[] t]|] eqn:E'; [|discriminate].
    injection E as <-.
    eapply R_withdrawFunds; [|exact E']. by apply payee_code_within.
  - destruct (refund _ _ _ _) as [[[] t]|] eqn:E'; [|discriminate].
    injection E as <-.
    eapply R_refund; [|exact E']. by apply payee_code_within.
Qed.

Lemma run_within (cs : list Call) (s : State) : R s (run now cs s).
Proof.
  apply run_with_within, Forall_forall. intros c _. apply exec_within.
Qed.

Lemma step_within (c : Call) (s : State) : R s (step (now, c) s).
Proof.
  unfold step; simpl. destruct (exec now c s) eqn:E; [|apply R_refl].
  by eapply exec_within.
Qed.
End Preservation.

(** * What a successful paying call is, exactly

    Each of the three functions returns normally in one way only: its
    guards hold, the slot is flipped (or zeroed), the value leaves, the
    payee runs on that storage and returns, and the event is logged on
    whatever storage the payee left.  Nothing else is written. *)

Ltac bool_facts :=
  repeat match goal with
    | H : negb _ = true |- _ => apply negb_true_iff in H
    | H : negb _ = false |- _ => apply negb_false_iff in H
    | H : (_ <=? _) = true |- _ => apply N.leb_le in H
    | H : (_ <=? _) = false |- _ => apply N.leb_gt in H
    | H : (_ <? _) = true |- _ => apply N.ltb_lt in H
    | H : (_ <? _) = false |- _ => apply N.ltb_ge in H
    | H : (_ =? _) = true |- _ => apply N.eqb_eq in H
    | H : (_ =? _) = false |- _ => apply N.eqb_neq in H
    end.

(** Discharges the next guard of a body from the facts at hand. *)
Ltac pass :=
  match goal with
  | |- context [if ?b then _ else _] =>
      let G := fresh "G" in
      assert (G : b = true)
        by first [ assumption
                 | apply N.leb_le; lia
                 | apply N.ltb_lt; lia
                 | apply N.eqb_eq; first [lia | congruence]
                 | apply negb_true_iff; assumption ];
      rewrite G; clear G; cbv beta iota
  end.

Ltac stop :=
  match goal with
  | |- context [if ?b then _ else _] =>
      let G := fresh "G" in
      assert (G : b = false)
        by first [ assumption
                 | apply N.leb_gt; lia
                 | apply N.ltb_ge; lia
                 | apply N.eqb_neq; first [lia | congruence]
                 | apply negb_false_iff; assumption ];
      rewrite G; clear G; cbv beta iota
  end.

Lemma withdrawFunds_ok recv e id s s' :
  withdrawFunds recv e id s = Ok (tt, s') ↔
  withdrawFunds_guards e id s ∧
  let c := campaign_at s id in
  amountRaised c ≤ balance s ∧
  ∃ t', recv (creator c) (amountRaised c)
          (debit (amountRaised c) (update_campaign id (with_withdrawn true) s))
        = Some t' ∧
        s' = log_event
               (FundsWithdrawn id (creator (campaign_at t' id))
                  (amountRaised c)) t'.
Proof.
  unfold withdrawFunds_guards. split.
  - intros H. unfold withdrawFunds in H. guards H. bool_facts.
    storage. rewrite decide_True in * by done. storage.
    injection H as <-. repeat split; try done. eauto.
  - intros ((Hex & Hdl & Hcr & Hw & Hgoal & Hpos & Hcnt) & Hbal & t' & Hr & ->).
    unfold withdrawFunds. unfold_body. cbn zeta in *. repeat pass.
    storage. rewrite decide_True by done. storage. stop.
    rewrite Hr. done.
Qed.

Lemma refund_ok recv e id s s' :
  refund recv e id s = Ok (tt, s') ↔
  refund_guards e id s ∧
  let paid := contribution_at s id (msg_sender e) in
  paid ≤ balance s ∧
  ∃ t', recv (msg_sender e) paid
          (debit paid (set_contribution id (msg_sender e) 0 s)) = Some t' ∧
        s' = log_event (RefundIssued id (msg_sender e) paid) t'.
Proof.
  unfold refund_guards. split.
  - intros H. unfold refund in H. guards H. bool_facts. storage.
    injection H as <-. repeat split; try done. eauto.
  - intros ((Hex & Hdl & Hgoal & Hpos) & Hbal & t' & Hr & ->).
    unfold refund. unfold_body. cbn zeta in *. repeat pass.
    storage. stop. rewrite Hr. done.
Qed.

Lemma releaseMilestone_ok recv e id mid s s' :
  releaseMilestone recv e id mid s = Ok (tt, s') ↔
  releaseMilestone_guards e id mid s ∧
  let c := campaign_at s id in
  let m := milestone_at s id mid in
  amount m ≤ balance s ∧
  ∃ t', recv (creator c) (amount m)
          (debit (amount m) (update_milestone id mid (with_released true) s))
        = Some t' ∧
        s' = log_event (MilestoneReleased id mid (amount m)) t'.
Proof.
  unfold releaseMilestone_guards. split.
  - intros H. unfold releaseMilestone in H. guards H. bool_facts.
    storage. rewrite decide_True in * by done. storage.
    injection H as <-. repeat split; try done. eauto.
  - intros ((Hex & Hcr & Hmid & Hgoal & Hc & Hr & Hv) & Hbal & t' & Hrecv & ->).
    unfold releaseMilestone. unfold_body. cbn zeta in *. repeat pass.
    storage. rewrite decide_True by done. storage. stop.
    rewrite Hrecv. done.
Qed.

Lemma withdrawFunds_transfer_failed recv e id s :
  withdrawFunds_guards e id s →
  undelivered recv (creator (campaign_at s id))
    (amountRaised (campaign_at s id))
    (update_campaign id (with_withdrawn true) s) →
  withdrawFunds recv e id s = Err (Revert "Transfer failed").
Proof.
  intros (Hex & Hdl & Hcr & Hw & Hgoal & Hpos & Hcnt) Hu.
  unfold withdrawFunds. unfold_body. cbn zeta in *. repeat pass.
  storage. rewrite decide_True by done. storage.
  destruct Hu as [Hu|Hu]; storage.
  - pass. done.
  - destruct (_ <? _); [done|]. rewrite Hu. done.
Qed.

Lemma refund_transfer_failed recv e id s :
  refund_guards e id s →
  undelivered recv (msg_sender e) (contribution_at s id (msg_sender e))
    (set_contribution id (msg_sender e) 0 s) →
  refund recv e id s = Err (Revert "Refund transfer failed").
Proof.
  intros (Hex & Hdl & Hgoal & Hpos) Hu.
  unfold refund. unfold_body. cbn zeta in *. repeat pass.
  storage. destruct Hu as [Hu|Hu]; storage.
  - pass. done.
  - destruct (_ <? _); [done|]. rewrite Hu. done.
Qed.

Lemma releaseMilestone_transfer_failed recv e id mid s :
  releaseMilestone_guards e id mid s →
  undelivered recv (creator (campaign_at s id))
    (amount (milestone_at s id mid))
    (update_milestone id mid (with_released true) s) →
  releaseMilestone recv e id mid s = Err (Revert "Transfer failed").
Proof.
  intros (Hex & Hcr & Hmid & Hgoal & Hc & Hr & Hv) Hu.
  unfold releaseMilestone. unfold_body. cbn zeta in *. repeat pass.
  storage. rewrite decide_True by done. storage.
  destruct Hu as [Hu|Hu]; storage.
  - pass. done.
  - destruct (_ <? _); [done|]. rewrite Hu. done.
Qed.

(** * The other functions: what a successful call has done *)

Lemma contribute_ok e id s s' :
  contribute e id s = Ok (tt, s') →
  let c := campaign_at s id in
  let v := msg_value e in
  exists_ c = true ∧ block_timestamp e < deadline c ∧ 0 < v ∧
  s' = log_event (ContributionReceived id (msg_sender e) v)
         (update_campaign id (with_amountRaised (amountRaised c + v))
            (set_contribution id (msg_sender e)
               (contribution_at s id (msg_sender e) + v)
               (set_balance (balance s + v) s))).
Proof.
  intros H. unfold contribute in H. guards H. bool_facts. storage.
  injection H as <-. done.
Qed.

Lemma completeMilestone_ok e id mid s s' :
  completeMilestone e id mid s = Ok (tt, s') →
  completeMilestone_guards e id mid s ∧
  s' = log_event (MilestoneCompleted id mid)
         (update_milestone id mid (with_completed true) s).
Proof.
  intros H. unfold completeMilestone, completeMilestone_guards in *.
  guards H; bool_facts; injection H as <-; repeat split; try done; lia.
Qed.

Lemma voteOnMilestone_ok e id mid approve s s' :
  voteOnMilestone e id mid approve s = Ok (tt, s') →
  voteOnMilestone_guards e id mid s ∧
  let w := contribution_at s id (msg_sender e) in
  s' = log_event (MilestoneVoted id mid (msg_sender e) approve w)
         (update_milestone id mid (add_vote approve w)
            (set_vote id mid (msg_sender e) true s)).
Proof.
  intros H. unfold voteOnMilestone, voteOnMilestone_guards in *.
  guards H; bool_facts; storage; injection H as <-; done.
Qed.

(** ** [createCampaign]: the two loops *)

Lemma sum_milestone_amounts_ok amts total s r s' :
  sum_milestone_amounts amts total s = Ok (r, s') →
  s' = s ∧ r = total + total_of amts ∧ Forall (λ a, 0 < a) amts.
Proof.
  revert total. induction amts as [|a rest IH]; intros total H; simpl in H.
  - injection H as <- <-. simpl. split_and!; [done|lia|constructor].
  - guards H. bool_facts.
    apply IH in H as (-> & -> & Hall). simpl.
    split_and!; [done|lia|by constructor].
Qed.

Lemma sum_milestone_amounts_err amts total s e :
  sum_milestone_amounts amts total s = Err e →
  e = Revert "Milestone amount must be > 0" ∨ e = Panic 17.
Proof.
  revert total. induction amts as [|a rest IH]; intros total H; simpl in H;
    [discriminate|].
  unfold_body_in H.
  destruct (0 <? a); [|injection H as <-; by left].
  destruct (total + a <=? UINT256_MAX); [|injection H as <-; by right].
  eauto.
Qed.

Lemma store_milestones_ok id descs amts i s s' :
  store_milestones id descs amts i s = Ok (tt, s') →
  s' = stored id descs amts i s.
Proof.
  revert i s. induction descs as [|d rest IH]; intros i s H; simpl in H.
  - by injection H as <-.
  - guards H. simpl. rewrite G. simpl. by apply IH.
Qed.

Lemma stored_frame id descs amts i s :
  campaignCounter (stored id descs amts i s) = campaignCounter s ∧
  campaigns (stored id descs amts i s) = campaigns s ∧
  contributions (stored id descs amts i s) = contributions s ∧
  milestoneVotes (stored id descs amts i s) = milestoneVotes s ∧
  campaignIds (stored id descs amts i s) = campaignIds s ∧
  balance (stored id descs amts i s) = balance s ∧
  events (stored id descs amts i s) = events s.
Proof.
  revert i s. induction descs as [|d rest IH]; intros i s; simpl; [done|].
  destruct (IH (i + 1)
              (set_milestone id i
                 (mkMilestone d (default 0 (amts !! N.to_nat i)) false false
                    0 0) s)) as (-> & -> & -> & -> & -> & -> & ->).
  done.
Qed.

Lemma campaign_at_stored id descs amts i s id0 :
  campaign_at (stored id descs amts i s) id0 = campaign_at s id0.
Proof.
  unfold campaign_at.
  by destruct (stored_frame id descs amts i s) as (_ & -> & _).
Qed.

Lemma ledger_of_stored id descs amts i s id0 :
  ledger_of (stored id descs amts i s) id0 = ledger_of s id0.
Proof.
  unfold ledger_of.
  by destruct (stored_frame id descs amts i s) as (_ & _ & -> & _).
Qed.

Lemma contribution_at_stored id descs amts i s id0 a0 :
  contribution_at (stored id descs amts i s) id0 a0
  = contribution_at s id0 a0.
Proof. unfold contribution_at. by rewrite ledger_of_stored. Qed.

Lemma vote_at_stored id descs amts i s id0 mid0 a0 :
  vote_at (stored id descs amts i s) id0 mid0 a0 = vote_at s id0 mid0 a0.
Proof.
  unfold vote_at.
  by destruct (stored_frame id descs amts i s) as (_ & _ & _ & -> & _).
Qed.

(** Inside the written range a fresh record, outside what was there. *)
Lemma milestone_at_stored id descs amts i s id0 mid0 :
  milestone_at (stored id descs amts i s) id0 mid0
  = if decide (id0 = id ∧ i ≤ mid0 < i + N.of_nat (length descs))
    then mkMilestone (default "" (descs !! N.to_nat (mid0 - i)))
           (default 0 (amts !! N.to_nat mid0)) false false 0 0
    else milestone_at s id0 mid0.
Proof.
  revert i s. induction descs as [|d rest IH]; intros i s; simpl length.
  - simpl. rewrite decide_False by lia. done.
  - simpl stored. rewrite IH. storage.
    destruct (decide (id0 = id)) as [->|Hne].
    + destruct (decide (mid0 = i)) as [->|Hne'].
      * rewrite decide_False by lia. rewrite decide_True by done.
        rewrite decide_True by lia.
        replace (N.to_nat (i - i)) with 0%nat by lia. done.
      * destruct (decide (i + 1 ≤ mid0 < i + 1 + N.of_nat (length rest))).
        -- rewrite decide_True by done. rewrite decide_True by lia.
           replace (N.to_nat (mid0 - i)) with (S (N.to_nat (mid0 - (i + 1))))
             by lia. done.
        -- rewrite decide_False by naive_solver.
           rewrite decide_False by naive_solver.
           rewrite decide_False by lia. done.
    + rewrite decide_False by naive_solver.
      rewrite decide_False by naive_solver.
      rewrite decide_False by naive_solver. done.
Qed.

#[global] Hint Rewrite campaign_at_stored ledger_of_stored
  contribution_at_stored vote_at_stored : storage.

Lemma createCampaign_ok e ttl desc cat img goal days descs amts s r s' :
  createCampaign e ttl desc cat img goal days descs amts s = Ok (r, s') →
  let nid := campaignCounter s + 1 in
  0 < goal ∧ 0 < days ≤ 365 ∧ ttl ≠ "" ∧ desc ≠ "" ∧
  (descs ≠ [] → plan_valid goal descs amts) ∧
  r = nid ∧
  s' = log_event
         (CampaignCreated nid (msg_sender e) ttl cat goal
            (block_timestamp e + days * 86400) (N.of_nat (length descs)))
         (push_campaignId nid
            (stored nid descs amts 0
               (set_campaign nid
                  (new_campaign e ttl desc cat img goal days descs)
                  (set_campaignCounter nid s)))).
Proof.
  intros H nid. unfold createCampaign in H. unfold_body_in H.
  destruct (0 <? goal) eqn:G1; [|discriminate].
  destruct (0 <? days) eqn:G2; [|discriminate].
  destruct (days <=? 365) eqn:G3; [|discriminate].
  destruct (0 <? N.of_nat (String.length ttl)) eqn:G4; [|discriminate].
  destruct (0 <? N.of_nat (String.length desc)) eqn:G5; [|discriminate].
  assert (Hplan : descs ≠ [] → plan_valid goal descs amts).
  { intros Hne. destruct (0 <? N.of_nat (length descs)) eqn:G6.
    - destruct (_ =? _) eqn:G7 in H; [|discriminate].
      destruct (sum_milestone_amounts amts 0 s) as [[t s1]|] eqn:E;
        [|discriminate].
      apply sum_milestone_amounts_ok in E as (-> & -> & Hall).
      destruct (_ =? _) eqn:G8 in H; [|discriminate].
      bool_facts. split_and!; [lia|done|lia].
    - destruct descs; [done|]. simpl in G6. bool_facts. lia. }
  assert (Hrest :
    match
      (let secs := days * 86400 in
       if secs <=? UINT256_MAX then
         if block_timestamp e + secs <=? UINT256_MAX then
           if campaignCounter s + 1 <=? UINT256_MAX then
             match store_milestones nid descs amts 0
                     (set_campaign nid
                        (new_campaign e ttl desc cat img goal days descs)
                        (set_campaignCounter nid s)) with
             | Ok (_, s2) =>
                 Ok (nid,
                     log_event
                       (CampaignCreated nid (msg_sender e) ttl cat goal
                          (block_timestamp e + secs)
                          (N.of_nat (length descs)))
                       (push_campaignId nid s2))
             | Err e' => Err e'
             end
           else Err (Panic 17)
         else Err (Panic 17)
       else Err (Panic 17))
    with
    | Ok x => Ok x = Ok (r, s')
    | Err _ => False
    end).
  { destruct (0 <? N.of_nat (length descs)) eqn:G6.
    - destruct (_ =? _) eqn:G7 in H; [|discriminate].
      destruct (sum_milestone_amounts amts 0 s) as [[t s1]|] eqn:E;
        [|discriminate].
      apply sum_milestone_amounts_ok in E as (-> & -> & Hall).
      destruct (_ =? _) eqn:G8 in H; [|discriminate].
      cbv zeta. fold nid in H.
      repeat (destruct (_ <=? UINT256_MAX); [|discriminate]).
      unfold new_campaign.
      destruct (store_milestones _ _ _ _ _) as [[[] s2]|]; [|discriminate].
      exact H.
    - cbv zeta. fold nid in H.
      repeat (destruct (_ <=? UINT256_MAX); [|discriminate]).
      unfold new_campaign.
      destruct (store_milestones _ _ _ _ _) as [[[] s2]|]; [|discriminate].
      exact H. }
  cbv zeta in Hrest.
  repeat (destruct (_ <=? UINT256_MAX) in Hrest; [|done]).
  destruct (store_milestones _ _ _ _ _) as [[[] s2]|] eqn:E in Hrest; [|done].
  apply store_milestones_ok in E as ->. injection Hrest as <- <-.
  bool_facts. split_and!; try done; try lia.
  - intros ->. simpl in G4. lia.
  - intros ->. simpl in G5. lia.
Qed.

(** * Every function keeps the invariant *)

Lemma Mono_refl s : Mono s s.
Proof. by constructor. Qed.

Lemma Mono_trans s t u : Mono s t → Mono t u → Mono s u.
Proof.
  intros [C1 D1 L1 V1 K1] [C2 D2 L2 V2 K2]. constructor; eauto.
  - intros id Hex. destruct (C1 id Hex) as (E1 & ? & ? & ? & ? & ? & W1).
    destruct (C2 id E1) as (E2 & ? & ? & ? & ? & ? & W2).
    split_and!; try congruence; try lia. eauto.
  - intros id a Hex Hg. destruct (C1 id Hex) as (E1 & ? & ? & ? & ? & ? & _).
    specialize (K1 id a Hex Hg). specialize (K2 id a E1). lia.
Qed.

Lemma Keeps_refl now s : Keeps now s s.
Proof.
  intros HI. split_and!; [done|apply Mono_refl|]. intros id _ _. split; done.
Qed.

Lemma Keeps_trans now s t u : Keeps now s t → Keeps now t u → Keeps now s u.
Proof.
  intros Hst Htu HI. destruct (Hst HI) as (HIt & Mst & Sst).
  destruct (Htu HIt) as (HIu & Mtu & Stu).
  split_and!; [done|by eapply Mono_trans|].
  intros id Hex Hdl.
  destruct (mono_campaign _ _ Mst id Hex) as (Hex' & _ & _ & Hdl' & _).
  destruct (Sst id Hex Hdl) as [R1 C1].
  destruct (Stu id Hex') as [R2 C2]; [lia|].
  split; [congruence|]. intros a. specialize (C1 a). specialize (C2 a). lia.
Qed.

(** Logging and moving value touch nothing the invariant reads. *)
Lemma Keeps_log_event now ev s : Keeps now s (log_event ev s).
Proof.
  intros [F A G B O L U].
  split_and!; [by constructor|by constructor|by intros id _ _].
Qed.

Lemma Keeps_set_balance now b s : Keeps now s (set_balance b s).
Proof.
  intros [F A G B O L U].
  split_and!; [by constructor|by constructor|by intros id _ _].
Qed.

Ltac funded_facts :=
  repeat match goal with
    | U : ∀ id mid, completed (milestone_at ?s id mid) = true → _ ≤ _,
      H : completed (milestone_at ?s ?i ?m) = true |- _ =>
        lazymatch goal with
        | _ : goalAmount (campaign_at s i) ≤ amountRaised (campaign_at s i)
          |- _ => fail
        | _ => pose proof (U i m H)
        end
    end.

Ltac keeps_auto :=
  intros; storage;
  repeat match goal with
    | |- context [decide ?P] => destruct (decide P)
    | H : context [decide ?P] |- _ => destruct (decide P)
    end;
  destruct_and?; simplify_eq/=; storage; bool_facts; funded_facts;
  try solve [repeat split; intros; eauto; try congruence; try lia].

Lemma Keeps_contribute now from value id s s' :
  contribute (mkEnv now from value) id s = Ok (tt, s') → Keeps now s s'.
Proof.
  intros H. apply contribute_ok in H as (Hex & Hdl & Hv & ->). simpl in *.
  intros [F A G B O L U]. split_and!.
  - constructor; keeps_auto.
  - constructor; keeps_auto.
  - intros id0 Hex0 Hdl0. split; keeps_auto.
Qed.

Lemma Keeps_completeMilestone now from id mid s s' :
  completeMilestone (mkEnv now from 0) id mid s = Ok (tt, s') →
  Keeps now s s'.
Proof.
  intros H.
  apply completeMilestone_ok in H as ((Hex & Hcr & Hmid & Hg & Hc & Hp) & ->).
  simpl in *. intros [F A G B O L U]. split_and!.
  - constructor; keeps_auto.
  - constructor; keeps_auto.
  - intros id0 Hex0 Hdl0. split; keeps_auto.
Qed.

Lemma Keeps_voteOnMilestone now from id mid approve s s' :
  voteOnMilestone (mkEnv now from 0) id mid approve s = Ok (tt, s') →
  Keeps now s s'.
Proof.
  intros H.
  apply voteOnMilestone_ok in H
    as ((Hex & Hc & Hmid & Hd & Hr & Hv) & ->).
  simpl in *. intros [F A G B O L U].
  unfold add_vote. destruct approve; split_and!.
  1,4: constructor; keeps_auto.
  1,3: constructor; keeps_auto.
  all: intros id0 Hex0 Hdl0; split; keeps_auto.
Qed.

(** The three flips that precede a payment. *)
Lemma Keeps_mark_released now e id mid s :
  releaseMilestone_guards e id mid s →
  Keeps now s (debit (amount (milestone_at s id mid))
                 (update_milestone id mid (with_released true) s)).
Proof.
  intros (Hex & Hcr & Hmid & Hg & Hc & Hr & Hv).
  eapply Keeps_trans; [|apply Keeps_set_balance].
  intros [F A G B O L U]. split_and!.
  - constructor; keeps_auto.
  - constructor; keeps_auto.
  - intros id0 Hex0 Hdl0. split; keeps_auto.
Qed.

Lemma Keeps_mark_withdrawn now e id s :
  withdrawFunds_guards e id s →
  Keeps now s (debit (amountRaised (campaign_at s id))
                 (update_campaign id (with_withdrawn true) s)).
Proof.
  intros (Hex & Hdl & Hcr & Hw & Hg & Hpos & Hcnt).
  eapply Keeps_trans; [|apply Keeps_set_balance].
  intros [F A G B O L U]. split_and!.
  - constructor; keeps_auto.
  - constructor; keeps_auto.
  - intros id0 Hex0 Hdl0. split; keeps_auto.
Qed.

Lemma Keeps_zero_contribution now e id s :
  refund_guards e id s →
  Keeps now s (debit (contribution_at s id (msg_sender e))
                 (set_contribution id (msg_sender e) 0 s)).
Proof.
  intros (Hex & Hdl & Hg & Hpos).
  eapply Keeps_trans; [|apply Keeps_set_balance].
  intros [F A G B O L U]. split_and!.
  - constructor; keeps_auto.
  - constructor; keeps_auto.
  - intros id0 Hex0 Hdl0. split; keeps_auto.
Qed.

Lemma Keeps_releaseMilestone now recv from id mid s s' :
  within (Keeps now) recv →
  releaseMilestone recv (mkEnv now from 0) id mid s = Ok (tt, s') →
  Keeps now s s'.
Proof.
  intros Hrecv H.
  apply releaseMilestone_ok in H as (Hg & Hbal & t' & Ht' & ->).
  apply Hrecv in Ht'.
  eapply Keeps_trans; [|apply Keeps_log_event].
  eapply Keeps_trans; [|exact Ht']. by eapply Keeps_mark_released.
Qed.

Lemma Keeps_withdrawFunds now recv from id s s' :
  within (Keeps now) recv →
  withdrawFunds recv (mkEnv now from 0) id s = Ok (tt, s') →
  Keeps now s s'.
Proof.
  intros Hrecv H.
  apply withdrawFunds_ok in H as (Hg & Hbal & t' & Ht' & ->).
  apply Hrecv in Ht'.
  eapply Keeps_trans; [|apply Keeps_log_event].
  eapply Keeps_trans; [|exact Ht']. by eapply Keeps_mark_withdrawn.
Qed.

Lemma Keeps_refund now recv from id s s' :
  within (Keeps now) recv →
  refund recv (mkEnv now from 0) id s = Ok (tt, s') →
  Keeps now s s'.
Proof.
  intros Hrecv H.
  apply refund_ok in H as (Hg & Hbal & t' & Ht' & ->).
  apply Hrecv in Ht'.
  eapply Keeps_trans; [|apply Keeps_log_event].
  eapply Keeps_trans; [|exact Ht']. by eapply Keeps_zero_contribution.
Qed.

Lemma campaignCounter_stored id descs amts i s :
  campaignCounter (stored id descs amts i s) = campaignCounter s.
Proof. by destruct (stored_frame id descs amts i s) as (-> & _). Qed.

Lemma events_stored id descs amts i s :
  events (stored id descs amts i s) = events s.
Proof.
  by destruct (stored_frame id descs amts i s)
    as (_ & _ & _ & _ & _ & _ & ->).
Qed.

#[global] Hint Rewrite campaignCounter_stored events_stored : storage.

Lemma fresh_slot s :
  Inv s →
  campaign_at s (campaignCounter s + 1) = Campaign0 ∧
  ∀ mid, milestone_at s (campaignCounter s + 1) mid = Milestone0.
Proof.
  intros [F A G B O L U].
  assert (Hz : campaign_at s (campaignCounter s + 1) = Campaign0)
    by (apply A, F; lia).
  split; [done|]. intros mid. apply B. rewrite Hz. simpl. lia.
Qed.

Lemma Keeps_createCampaign now from ttl desc cat img goal days descs amts
    s r s' :
  createCampaign (mkEnv now from 0) ttl desc cat img goal days descs amts s
  = Ok (r, s') →
  Keeps now s s'.
Proof.
  intros H.
  apply createCampaign_ok in H as (Hg & Hd & Ht & Hde & Hplan & -> & ->).
  simpl in *. intros HI. destruct (fresh_slot s HI) as [Hc0 Hm0].
  destruct HI as [F A G B O L U].
  set (nid := campaignCounter s + 1) in *.
  assert (Hnew : ∀ id, exists_ (campaign_at s id) = true → id ≠ nid).
  { intros id Hex ->. rewrite Hc0 in Hex. done. }
  unfold new_campaign. split_and!.
  - constructor; intros *; storage; rewrite ?milestone_at_stored; storage.
    + intros Hlt. rewrite decide_False by lia. apply F. lia.
    + destruct (decide (nid = id)); [done|apply A].
    + destruct (decide (nid = id)); [done|apply G].
    + destruct (decide (nid = id)) as [<-|Hne]; simpl.
      * intros Hle. rewrite decide_False by lia. apply Hm0.
      * rewrite decide_False by naive_solver. apply B.
    + destruct (decide (id = nid)) as [->|Hne].
      * destruct (decide _); [done|]. by rewrite Hm0.
      * rewrite decide_False by naive_solver.
        rewrite decide_False by naive_solver. apply O.
    + destruct (decide (id = nid)) as [->|Hne].
      * destruct (decide _); [done|]. by rewrite Hm0.
      * rewrite decide_False by naive_solver. apply L.
    + destruct (decide (id = nid)) as [->|Hne].
      * destruct (decide _); [done|]. by rewrite Hm0.
      * rewrite decide_False by naive_solver.
        rewrite decide_False by naive_solver. apply U.
  - constructor; intros *; storage; rewrite ?milestone_at_stored; storage.
    + intros Hex. rewrite decide_False by (intros <-; by eapply Hnew).
      split_and!; done.
    + intros Hc. rewrite decide_False; [done|].
      intros [-> _]. by rewrite Hm0 in Hc.
    + intros Hc. rewrite decide_False; [done|].
      intros [-> _]. by rewrite Hm0 in Hc.
    + done.
    + done.
  - intros id Hex Hdl. storage.
    destruct (decide (nid = id)) as [E|E]; [by apply Hnew in Hex|].
    split; [done|]. intros a. storage. done.
Qed.

(** ** Every call, every list of calls, every trace *)

Lemma exec_Keeps now c s s' : exec now c s = Ok s' → Keeps now s s'.
Proof.
  apply exec_within;
    eauto using Keeps_refl, Keeps_trans, Keeps_createCampaign,
      Keeps_contribute, Keeps_completeMilestone, Keeps_voteOnMilestone,
      Keeps_releaseMilestone, Keeps_withdrawFunds, Keeps_refund.
Qed.

Lemma step_Keeps tx s : Keeps tx.1 s (step tx s).
Proof.
  destruct tx as [now c]. simpl.
  apply step_within;
    eauto using Keeps_refl, Keeps_trans, Keeps_createCampaign,
      Keeps_contribute, Keeps_completeMilestone, Keeps_voteOnMilestone,
      Keeps_releaseMilestone, Keeps_withdrawFunds, Keeps_refund.
Qed.

Lemma Inv_init : Inv init.
Proof. constructor; intros *; try done; vm_compute; done. Qed.

Lemma run_trace_snoc txs tx s :
  run_trace (txs ++ [tx]) s = step tx (run_trace txs s).
Proof. unfold run_trace. by rewrite foldl_app. Qed.

Lemma run_trace_Inv txs s :
  Inv s → Inv (run_trace txs s) ∧ Mono s (run_trace txs s).
Proof.
  intros HI. induction txs as [|tx txs IH] using rev_ind.
  - split; [done|apply Mono_refl].
  - rewrite run_trace_snoc. destruct IH as [IH HM].
    destruct (step_Keeps tx _ IH) as (? & ? & _).
    split; [done|by eapply Mono_trans].
Qed.

Lemma reachable_Inv s : reachable s → Inv s.
Proof. intros [txs <-]. apply run_trace_Inv, Inv_init. Qed.

(** * Accounting: raised = ledger + refunded *)

Lemma ledger_sum_insert_fresh (m : gmap N N) a v :
  m !! a = None → ledger_sum (<[a := v]> m) = v + ledger_sum m.
Proof.
  intros Hnone. unfold ledger_sum.
  rewrite map_fold_insert_L; [done| |done]. intros; lia.
Qed.

Lemma ledger_sum_insert (m : gmap N N) a v :
  ledger_sum (<[a := v]> m) + default 0 (m !! a) = ledger_sum m + v.
Proof.
  destruct (m !! a) as [x|] eqn:E; simpl.
  - rewrite <- (insert_delete_eq m a v).
    rewrite <- (insert_delete_id m a x) at 2 by done.
    rewrite !ledger_sum_insert_fresh by apply lookup_delete_eq. lia.
  - rewrite ledger_sum_insert_fresh by done. lia.
Qed.

Lemma refunded_app evs ev id :
  refunded (evs ++ [ev]) id = refunded evs id + refund_amount id ev.
Proof.
  unfold refunded. induction evs as [|e evs IH]; simpl; [lia|].
  rewrite IH. lia.
Qed.

Lemma accounted_gap s id : accounted s id ↔ gap s id = 0%Z.
Proof. unfold accounted, gap. lia. Qed.

Lemma gap_set_balance b s id : gap (set_balance b s) id = gap s id.
Proof. reflexivity. Qed.

Lemma gap_log_event ev s id :
  gap (log_event ev s) id = (gap s id - Z.of_N (refund_amount id ev))%Z.
Proof.
  unfold gap, sum_contributions. storage. rewrite refunded_app. lia.
Qed.

Lemma gap_set_contribution id a v s id0 :
  gap (set_contribution id a v s) id0
  = (gap s id0 + if decide (id = id0)
                 then Z.of_N (contribution_at s id a) - Z.of_N v
                 else 0)%Z.
Proof.
  unfold gap, sum_contributions. storage.
  destruct (decide (id = id0)) as [->|Hne]; [|lia].
  pose proof (ledger_sum_insert (ledger_of s id0) a v) as Hs.
  unfold contribution_at. lia.
Qed.

Lemma gap_update_campaign id f s id0 :
  gap (update_campaign id f s) id0
  = (gap s id0 + if decide (id = id0)
                 then Z.of_N (amountRaised (f (campaign_at s id)))
                      - Z.of_N (amountRaised (campaign_at s id))
                 else 0)%Z.
Proof.
  unfold gap, sum_contributions. storage.
  destruct (decide (id = id0)) as [->|Hne]; lia.
Qed.

Lemma gap_update_milestone id mid f s id0 :
  gap (update_milestone id mid f s) id0 = gap s id0.
Proof. reflexivity. Qed.

Lemma gap_set_vote id mid a b s id0 :
  gap (set_vote id mid a b s) id0 = gap s id0.
Proof. reflexivity. Qed.

Lemma Balanced_refl now s : Balanced now s s.
Proof. split; [apply Keeps_refl|done]. Qed.

Lemma Balanced_trans now s t u :
  Balanced now s t → Balanced now t u → Balanced now s u.
Proof.
  intros [K1 G1] [K2 G2]. split; [by eapply Keeps_trans|].
  intros HI id. destruct (K1 HI) as (HIt & _).
  rewrite G2, G1; done.
Qed.

Lemma within_Balanced_Keeps now recv :
  within (Balanced now) recv → within (Keeps now) recv.
Proof. intros H to amt t t' Hr. by destruct (H to amt t t' Hr). Qed.

Lemma Balanced_createCampaign now from ttl desc cat img goal days descs amts
    s r s' :
  createCampaign (mkEnv now from 0) ttl desc cat img goal days descs amts s
  = Ok (r, s') →
  Balanced now s s'.
Proof.
  intros H. split; [by eapply Keeps_createCampaign|].
  apply createCampaign_ok in H as (_ & _ & _ & _ & _ & _ & ->).
  intros HI id. destruct (fresh_slot s HI) as [Hc0 _].
  rewrite gap_log_event. simpl refund_amount.
  unfold gap, sum_contributions. storage.
  destruct (decide _) as [<-|]; [|lia].
  rewrite Hc0. unfold new_campaign. simpl. lia.
Qed.

Lemma Balanced_contribute now from value id s s' :
  contribute (mkEnv now from value) id s = Ok (tt, s') → Balanced now s s'.
Proof.
  intros H. split; [by eapply Keeps_contribute|].
  apply contribute_ok in H as (_ & _ & _ & ->). simpl.
  intros _ id0. rewrite gap_log_event, gap_update_campaign,
    gap_set_contribution, gap_set_balance.
  storage. simpl. destruct (decide (id = id0)); lia.
Qed.

Lemma Balanced_completeMilestone now from id mid s s' :
  completeMilestone (mkEnv now from 0) id mid s = Ok (tt, s') →
  Balanced now s s'.
Proof.
  intros H. split; [by eapply Keeps_completeMilestone|].
  apply completeMilestone_ok in H as (_ & ->).
  intros _ id0. rewrite gap_log_event, gap_update_milestone. simpl. lia.
Qed.

Lemma Balanced_voteOnMilestone now from id mid approve s s' :
  voteOnMilestone (mkEnv now from 0) id mid approve s = Ok (tt, s') →
  Balanced now s s'.
Proof.
  intros H. split; [by eapply Keeps_voteOnMilestone|].
  apply voteOnMilestone_ok in H as (_ & ->).
  intros _ id0.
  rewrite gap_log_event, gap_update_milestone, gap_set_vote. simpl. lia.
Qed.

Lemma Balanced_releaseMilestone now recv from id mid s s' :
  within (Balanced now) recv →
  releaseMilestone recv (mkEnv now from 0) id mid s = Ok (tt, s') →
  Balanced now s s'.
Proof.
  intros Hrecv H.
  split;
    [eapply Keeps_releaseMilestone; [by apply within_Balanced_Keeps|done]|].
  apply releaseMilestone_ok in H as (Hg & Hbal & t' & Ht' & ->).
  intros HI id0. destruct (Hrecv _ _ _ _ Ht') as [_ Hgap].
  destruct (Keeps_mark_released now _ _ _ _ Hg HI) as (HIt & _).
  rewrite gap_log_event, Hgap by done. unfold debit.
  rewrite gap_set_balance, gap_update_milestone. simpl. lia.
Qed.

Lemma Balanced_withdrawFunds now recv from id s s' :
  within (Balanced now) recv →
  withdrawFunds recv (mkEnv now from 0) id s = Ok (tt, s') →
  Balanced now s s'.
Proof.
  intros Hrecv H.
  split; [eapply Keeps_withdrawFunds; [by apply within_Balanced_Keeps|done]|].
  apply withdrawFunds_ok in H as (Hg & Hbal & t' & Ht' & ->).
  intros HI id0. destruct (Hrecv _ _ _ _ Ht') as [_ Hgap].
  destruct (Keeps_mark_withdrawn now _ _ _ Hg HI) as (HIt & _).
  rewrite gap_log_event, Hgap by done. unfold debit.
  rewrite gap_set_balance, gap_update_campaign. simpl.
  destruct (decide (id = id0)); lia.
Qed.

(** The one place where the ledger drops: the entry leaves the sum when it
    is zeroed and enters the refunded total when the event is logged. *)
Lemma Balanced_refund now recv from id s s' :
  within (Balanced now) recv →
  refund recv (mkEnv now from 0) id s = Ok (tt, s') →
  Balanced now s s'.
Proof.
  intros Hrecv H.
  split; [eapply Keeps_refund; [by apply within_Balanced_Keeps|done]|].
  apply refund_ok in H as (Hg & Hbal & t' & Ht' & ->).
  intros HI id0. destruct (Hrecv _ _ _ _ Ht') as [_ Hgap].
  destruct (Keeps_zero_contribution now _ _ _ Hg HI) as (HIt & _).
  rewrite gap_log_event, Hgap by done. unfold debit.
  rewrite gap_set_balance, gap_set_contribution. simpl.
  destruct (decide (id = id0)); lia.
Qed.

Lemma exec_Balanced now c s s' : exec now c s = Ok s' → Balanced now s s'.
Proof.
  apply exec_within;
    eauto using Balanced_refl, Balanced_trans, Balanced_createCampaign,
      Balanced_contribute, Balanced_completeMilestone,
      Balanced_voteOnMilestone, Balanced_releaseMilestone,
      Balanced_withdrawFunds, Balanced_refund.
Qed.

Lemma step_Balanced tx s : Balanced tx.1 s (step tx s).
Proof.
  destruct tx as [now c]. unfold step; simpl.
  destruct (exec now c s) eqn:E; [|apply Balanced_refl].
  by apply exec_Balanced in E.
Qed.

Lemma run_trace_accounted txs s :
  Inv s → (∀ id, accounted s id) → ∀ id, accounted (run_trace txs s) id.
Proof.
  intros HI Hacc. induction txs as [|tx txs IH] using rev_ind; [done|].
  rewrite run_trace_snoc. intros id.
  destruct (step_Balanced tx (run_trace txs s)) as [_ Hgap].
  apply accounted_gap. rewrite Hgap by (by apply run_trace_Inv).
  by apply accounted_gap.
Qed.

(** * The sample histories are reachable *)

Lemma reachable_run_trace txs : reachable (run_trace txs init).
Proof. by exists txs. Qed.

Lemma reachable_funded : reachable funded.
Proof. exact (reachable_run_trace lump_history). Qed.

Lemma reachable_underfunded : reachable underfunded.
Proof. exact (reachable_run_trace short_history). Qed.

Lemma reachable_survey_done : reachable survey_done.
Proof. exact (reachable_run_trace (take 4 plan_history)). Qed.

Lemma reachable_approved : reachable approved.
Proof. exact (reachable_run_trace plan_history). Qed.

Lemma reachable_step tx s : reachable s → reachable (step tx s).
Proof.
  intros [txs <-]. exists (txs ++ [tx]). apply run_trace_snoc.
Qed.

(** * The accounting invariant *)

(** C1, as the code has it.  [refund] zeroes the caller's ledger entry and
    leaves [amountRaised] as it is, so after a refund the ledger entries
    of the campaign add up to less than [amountRaised].  What holds in
    every reachable state, for every campaign, is that [amountRaised]
    equals the sum of the campaign's ledger entries plus the amounts
    refunded from it (its [RefundIssued] amounts); and every call into
    the contract, of any function and with any re-entrant calls inside
    it, takes a state in which this holds to a state in which it holds. *)
Theorem amountRaised_is_ledger_plus_refunded :
  (∀ s, reachable s →
        ∀ id, amountRaised (campaign_at s id)
              = sum_contributions s id + refunded (events s) id) ∧
  (∀ now c s s',
      Inv s → (∀ id, accounted s id) → exec now c s = Ok s' →
      ∀ id, accounted s' id).
Proof.
  split.
  - intros s [txs <-] id.
    apply (run_trace_accounted txs init Inv_init). intros id'. reflexivity.
  - intros now c s s' HI Hacc E id.
    destruct (exec_Balanced now c s s' E) as [_ Hgap].
    apply accounted_gap. rewrite Hgap by done. by apply accounted_gap.
Qed.

Lemma amountRaised_is_ledger_plus_refunded_witness :
  amountRaised
    (campaign_at (step (2592100, call_refund 2 1 true []) underfunded) 1)
  = sum_contributions
      (step (2592100, call_refund 2 1 true []) underfunded) 1
    + refunded
        (events (step (2592100, call_refund 2 1 true []) underfunded)) 1 ∧
  accounted
    (log_event (RefundIssued 1 2 5)
       (debit 5 (set_contribution 1 2 0 underfunded))) 1.
Proof.
  split.
  - exact (proj1 amountRaised_is_ledger_plus_refunded _
             (reachable_step _ _ reachable_underfunded) 1).
  - apply (proj2 amountRaised_is_ledger_plus_refunded 2592100
             (call_refund 2 1 true []) underfunded).
    + exact (reachable_Inv _ reachable_underfunded).
    + exact (proj1 amountRaised_is_ledger_plus_refunded _
               reachable_underfunded).
    + vm_compute. reflexivity.
Defined.

(** Campaign 1 of the short history exists and its ledger adds up to
    [amountRaised]; the refund of account 2 returns, and in the state it
    leaves the three quantities are 5, 0 and 5: the ledger no longer adds
    up to [amountRaised]. *)
Lemma refund_keeps_amountRaised :
  reachable underfunded ∧
  exists_ (campaign_at underfunded 1) = true ∧
  amountRaised (campaign_at underfunded 1)
  = sum_contributions underfunded 1 ∧
  refund plain_account (mkEnv 2592100 2 0) 1 underfunded
  = Ok (tt, refunded_short) ∧
  reachable refunded_short ∧
  exists_ (campaign_at refunded_short 1) = true ∧
  amountRaised (campaign_at refunded_short 1) = 5 ∧
  sum_contributions refunded_short 1 = 0 ∧
  refunded (events refunded_short) 1 = 5 ∧
  amountRaised (campaign_at refunded_short 1)
  ≠ sum_contributions refunded_short 1.
Proof.
  split; [exact reachable_underfunded|].
  split; [vm_compute; reflexivity|].
  split; [vm_compute; reflexivity|].
  split; [vm_compute; reflexivity|].
  split; [exact (reachable_step _ _ reachable_underfunded)|].
  split_and!; vm_compute; congruence.
Qed.

(** * Paying out: order of effects, and rollback *)

Lemma payee_Keeps now accepts reenters :
  within (Keeps now) (payee_code (run_with (exec now)) accepts reenters).
Proof.
  apply payee_code_within; eauto using Keeps_refl, Keeps_trans.
  apply Forall_forall. intros c _. apply exec_Keeps.
Qed.

Lemma step_failed now c s e : exec now c s = Err e → step (now, c) s = s.
Proof. unfold step; simpl. by intros ->. Qed.

(** C2.  In [withdrawFunds], [refund] and [releaseMilestone] the payee's code
    runs on a storage in which the flag is already set (the entry already
    zero), and what the call returns is what the payee left plus one log
    entry: no ledger is written after the transfer.  When the value cannot
    be delivered the call reverts with the transfer message, and a call
    that reverts, for whatever reason, leaves the state as it was. *)
Theorem flip_then_pay_then_nothing (recv : Receiver) (e : Env) (id mid : N)
    (s : State) :
  (∀ s', withdrawFunds recv e id s = Ok (tt, s') →
     withdrawn
       (campaign_at (update_campaign id (with_withdrawn true) s) id) = true ∧
     ∃ t', pays recv (creator (campaign_at s id))
             (amountRaised (campaign_at s id))
             (update_campaign id (with_withdrawn true) s) t' ∧
           same_ledgers s' t') ∧
  (∀ s', refund recv e id s = Ok (tt, s') →
     contribution_at (set_contribution id (msg_sender e) 0 s) id
       (msg_sender e) = 0 ∧
     ∃ t', pays recv (msg_sender e) (contribution_at s id (msg_sender e))
             (set_contribution id (msg_sender e) 0 s) t' ∧
           same_ledgers s' t') ∧
  (∀ s', releaseMilestone recv e id mid s = Ok (tt, s') →
     released
       (milestone_at (update_milestone id mid (with_released true) s) id mid)
     = true ∧
     ∃ t', pays recv (creator (campaign_at s id))
             (amount (milestone_at s id mid))
             (update_milestone id mid (with_released true) s) t' ∧
           same_ledgers s' t') ∧
  (withdrawFunds_guards e id s →
   undelivered recv (creator (campaign_at s id))
     (amountRaised (campaign_at s id))
     (update_campaign id (with_withdrawn true) s) →
   withdrawFunds recv e id s = Err (Revert "Transfer failed")) ∧
  (refund_guards e id s →
   undelivered recv (msg_sender e) (contribution_at s id (msg_sender e))
     (set_contribution id (msg_sender e) 0 s) →
   refund recv e id s = Err (Revert "Refund transfer failed")) ∧
  (releaseMilestone_guards e id mid s →
   undelivered recv (creator (campaign_at s id))
     (amount (milestone_at s id mid))
     (update_milestone id mid (with_released true) s) →
   releaseMilestone recv e id mid s = Err (Revert "Transfer failed")) ∧
  (∀ now c err, exec now c s = Err err → step (now, c) s = s).
Proof.
  split_and!.
  - intros s' H. apply withdrawFunds_ok in H as (_ & _ & t' & Ht' & ->).
    split; [storage; by rewrite decide_True|]. by exists t'.
  - intros s' H. apply refund_ok in H as (_ & _ & t' & Ht' & ->).
    split; [storage; by rewrite decide_True|]. by exists t'.
  - intros s' H. apply releaseMilestone_ok in H as (_ & _ & t' & Ht' & ->).
    split; [storage; by rewrite decide_True|]. by exists t'.
  - apply withdrawFunds_transfer_failed.
  - apply refund_transfer_failed.
  - apply releaseMilestone_transfer_failed.
  - intros now c err. apply step_failed.
Qed.

Lemma flip_then_pay_then_nothing_witness :
  (withdrawn
     (campaign_at (update_campaign 1 (with_withdrawn true) funded) 1) = true ∧
   ∃ t', pays plain_account (creator (campaign_at funded 1))
           (amountRaised (campaign_at funded 1))
           (update_campaign 1 (with_withdrawn true) funded) t' ∧
         same_ledgers
           (log_event (FundsWithdrawn 1 1 10)
              (debit 10 (update_campaign 1 (with_withdrawn true) funded)))
           t') ∧
  withdrawFunds rejecting_account (mkEnv 2592100 1 0) 1 funded
  = Err (Revert "Transfer failed").
Proof.
  split.
  - apply (proj1 (flip_then_pay_then_nothing plain_account
                    (mkEnv 2592100 1 0) 1 0 funded)).
    vm_compute. reflexivity.
  - apply (proj1 (proj2 (proj2 (proj2
             (flip_then_pay_then_nothing rejecting_account
                (mkEnv 2592100 1 0) 1 0 funded))))).
    + repeat split; vm_compute; congruence.
    + right. reflexivity.
Defined.

(** A payee that calls [withdrawFunds] again from inside the payment finds
    the flag set: its inner call reverts and the outer one pays once. *)
Example reentrant_withdraw_pays_once :
  exec 2592100 (call_withdrawFunds 1 1 true [call_withdrawFunds 1 1 true []])
    funded
  = exec 2592100 (call_withdrawFunds 1 1 true []) funded ∧
  exec 2592100 (call_withdrawFunds 1 1 true [])
    (debit 10 (update_campaign 1 (with_withdrawn true) funded))
  = Err (Revert "Funds already withdrawn").
Proof. split; vm_compute; reflexivity. Qed.

(** * Lump withdrawal *)

Lemma withdrawable_guards e id s :
  Inv s → withdrawable e id s ↔ withdrawFunds_guards e id s.
Proof.
  intros HI. unfold withdrawable, withdrawFunds_guards. split.
  - intros (? & Hex & ? & ? & ? & ?).
    pose proof (inv_goal s HI id Hex). split_and!; try done. lia.
  - intros (? & ? & ? & ? & ? & ? & ?). done.
Qed.

Lemma withdrawFunds_already_withdrawn recv e id s :
  withdrawn (campaign_at s id) = true →
  (∃ err, withdrawFunds recv e id s = Err err) ∧
  (exists_ (campaign_at s id) = true →
   msg_sender e = creator (campaign_at s id) →
   deadline (campaign_at s id) ≤ block_timestamp e →
   withdrawFunds recv e id s = Err (Revert "Funds already withdrawn")).
Proof.
  intros Hw. split.
  - destruct (withdrawFunds recv e id s) as [[[] s']|err] eqn:E; [|eauto].
    apply withdrawFunds_ok in E as ((_ & _ & _ & Hw' & _) & _). congruence.
  - intros Hex Hcr Hdl. unfold withdrawFunds. unfold_body. repeat pass.
    rewrite Hw. done.
Qed.

(** A successful [withdrawFunds], re-entered or not, leaves the flag set. *)
Lemma exec_withdrawFunds_sets_flag now from id accepts reenters s s1 :
  Inv s →
  exec now (call_withdrawFunds from id accepts reenters) s = Ok s1 →
  Inv s1 ∧ exists_ (campaign_at s1 id) = true ∧
  withdrawn (campaign_at s1 id) = true ∧
  last (events s1)
  = Some (FundsWithdrawn id (creator (campaign_at s id))
            (amountRaised (campaign_at s id))).
Proof.
  intros HI E.
  destruct (exec_Keeps _ _ _ _ E HI) as (HI1 & _ & _).
  split; [done|]. simpl in E. unfold state_of in E.
  destruct (withdrawFunds _ _ _ _) as [[[] s']|] eqn:E'; [|done].
  injection E as ->.
  apply withdrawFunds_ok in E' as (Hg & _ & t' & Ht' & ->).
  pose proof (Keeps_mark_withdrawn now _ _ _ Hg HI) as (HIt & _ & _).
  apply payee_Keeps in Ht'. destruct (Ht' HIt) as (_ & [Hc _ _ _ _] & _).
  destruct Hg as (Hex & _).
  destruct (Hc id) as (Hex' & Hcr' & _ & _ & _ & _ & Hw').
  { unfold debit. storage. by rewrite decide_True. }
  unfold debit in *. storage. rewrite decide_True in * by done. storage.
  split_and!; [done|by apply Hw'|]. by rewrite last_snoc, Hcr'.
Qed.

(** With a payee that only takes the value, the balance drops by exactly
    what each function pays. *)
Lemma exec_plain_payment now c s s1 :
  exec now c s = Ok s1 →
  match c with
  | call_withdrawFunds _ id true [] =>
      balance s1 = balance s - amountRaised (campaign_at s id)
  | call_refund from id true [] =>
      balance s1 = balance s - contribution_at s id from
  | call_releaseMilestone _ id mid true [] =>
      balance s1 = balance s - amount (milestone_at s id mid)
  | _ => True
  end.
Proof.
  destruct c as [| | | |from id mid [] []|from id [] []|from id [] []];
    try done; simpl; unfold state_of; intros E.
  - destruct (releaseMilestone _ _ _ _ _) as [[[] s']|] eqn:E'; [|done].
    injection E as <-.
    apply releaseMilestone_ok in E' as (_ & _ & t' & Ht' & ->).
    by injection Ht' as <-.
  - destruct (withdrawFunds _ _ _ _) as [[[] s']|] eqn:E'; [|done].
    injection E as <-.
    apply withdrawFunds_ok in E' as (_ & _ & t' & Ht' & ->).
    by injection Ht' as <-.
  - destruct (refund _ _ _ _) as [[[] s']|] eqn:E'; [|done].
    injection E as <-.
    apply refund_ok in E' as (_ & _ & t' & Ht' & ->).
    by injection Ht' as <-.
Qed.

(** C3, as the code has it.  In a reachable state [withdrawFunds], called
    without value (it is not payable: a call that carries value is turned
    away before the body runs), returns normally exactly when the six
    conditions hold and the value is delivered (the balance covers it and
    the creator's account accepts it); with the six conditions and no
    delivery it reverts with "Transfer failed".  On success it has set
    [withdrawn], paid [amountRaised] to the creator and logged it; the
    contract's balance has dropped by exactly that amount when the
    creator's account does nothing but take it.
    After one success the flag stays set through any later history, and
    every later call reverts, leaving the state: with "Funds already
    withdrawn" when the creator calls after the deadline. *)
Theorem withdrawFunds_once (s : State) (Hs : reachable s) (recv : Receiver)
    (e : Env) (id : N) (Hv : msg_value e = 0) :
  ((∃ s', withdrawFunds recv e id s = Ok (tt, s')) ↔
   withdrawable e id s ∧
   delivered recv (creator (campaign_at s id))
     (amountRaised (campaign_at s id))
     (update_campaign id (with_withdrawn true) s)) ∧
  (withdrawable e id s →
   undelivered recv (creator (campaign_at s id))
     (amountRaised (campaign_at s id))
     (update_campaign id (with_withdrawn true) s) →
   withdrawFunds recv e id s = Err (Revert "Transfer failed")) ∧
  (∀ s', withdrawFunds recv e id s = Ok (tt, s') →
     withdrawn
       (campaign_at (update_campaign id (with_withdrawn true) s) id) = true ∧
     ∃ t', pays recv (creator (campaign_at s id))
             (amountRaised (campaign_at s id))
             (update_campaign id (with_withdrawn true) s) t' ∧
           s' = log_event
                  (FundsWithdrawn id (creator (campaign_at t' id))
                     (amountRaised (campaign_at s id))) t') ∧
  (∀ now from accepts reenters s1,
     exec now (call_withdrawFunds from id accepts reenters) s = Ok s1 →
     last (events s1)
     = Some (FundsWithdrawn id (creator (campaign_at s id))
               (amountRaised (campaign_at s id))) ∧
     (accepts = true → reenters = [] →
      balance s1 = balance s - amountRaised (campaign_at s id)) ∧
     ∀ txs now' from' accepts' reenters',
       withdrawn (campaign_at (run_trace txs s1) id) = true ∧
       (from' = creator (campaign_at (run_trace txs s1) id) →
        deadline (campaign_at (run_trace txs s1) id) ≤ now' →
        exec now' (call_withdrawFunds from' id accepts' reenters')
          (run_trace txs s1)
        = Err (Revert "Funds already withdrawn")) ∧
       is_ok (exec now' (call_withdrawFunds from' id accepts' reenters')
                (run_trace txs s1)) = false ∧
       step (now', call_withdrawFunds from' id accepts' reenters')
         (run_trace txs s1) = run_trace txs s1).
Proof.
  pose proof (reachable_Inv s Hs) as HI. split_and!.
  - rewrite withdrawable_guards by done. split.
    + intros [s' H]. apply withdrawFunds_ok in H as (Hg & Hb & t' & Ht' & _).
      split; [done|]. split; [storage; done|by exists t'].
    + intros (Hg & Hb & t' & Ht').
      eexists. apply withdrawFunds_ok. split; [done|].
      split; [by storage|]. exists t'. split; [exact Ht'|done].
  - intros Hw. apply withdrawFunds_transfer_failed.
    by apply withdrawable_guards.
  - intros s' H. apply withdrawFunds_ok in H as (_ & _ & t' & Ht' & ->).
    split; [storage; by rewrite decide_True|]. by exists t'.
  - intros now from accepts reenters s1 E.
    destruct (exec_withdrawFunds_sets_flag _ _ _ _ _ _ _ HI E)
      as (HI1 & Hex1 & Hw1 & Hlast).
    split; [done|]. split.
    { intros -> ->. by apply exec_plain_payment in E. }
    intros txs now' from' accepts' reenters'.
    destruct (run_trace_Inv txs s1 HI1) as [HI2 [Hc _ _ _ _]].
    destruct (Hc id Hex1) as (Hex2 & _ & _ & _ & _ & _ & Hw2).
    specialize (Hw2 Hw1).
    set (recv' := payee_code (run_with (exec now')) accepts' reenters').
    destruct (withdrawFunds_already_withdrawn recv' (mkEnv now' from' 0) id
                _ Hw2) as [[err Herr] Hmsg].
    assert (Hexec :
      exec now' (call_withdrawFunds from' id accepts' reenters')
        (run_trace txs s1) = Err err).
    { simpl. fold recv'. by rewrite Herr. }
    split_and!; [done| |by rewrite Hexec|by eapply step_failed].
    intros Hcr Hdl. simpl. fold recv'. by rewrite Hmsg.
Qed.

Lemma withdrawFunds_once_witness :
  ∃ s', withdrawFunds plain_account (mkEnv 2592100 1 0) 1 funded
        = Ok (tt, s').
Proof.
  apply (proj1 (withdrawFunds_once funded reachable_funded plain_account
                  (mkEnv 2592100 1 0) 1 eq_refl)).
  split.
  - repeat split; vm_compute; congruence.
  - split; [vm_compute; congruence|]. eexists. reflexivity.
Defined.

(** All six conditions hold and the call still reverts: the creator's
    account does not accept the payment. *)
Lemma withdrawFunds_not_iff_six_conditions :
  reachable funded ∧
  withdrawable (mkEnv 2592100 1 0) 1 funded ∧
  exec 2592100 (call_withdrawFunds 1 1 false []) funded
  = Err (Revert "Transfer failed") ∧
  withdrawFunds rejecting_account (mkEnv 2592100 1 0) 1 funded
  = Err (Revert "Transfer failed").
Proof.
  split; [exact (reachable_run_trace lump_history)|].
  split; [repeat split; vm_compute; congruence|].
  split; vm_compute; reflexivity.
Qed.

(** * Refunds *)

Lemma refund_nothing_to_refund recv e id s :
  contribution_at s id (msg_sender e) = 0 →
  (∃ err, refund recv e id s = Err err) ∧
  (exists_ (campaign_at s id) = true →
   deadline (campaign_at s id) ≤ block_timestamp e →
   amountRaised (campaign_at s id) < goalAmount (campaign_at s id) →
   refund recv e id s = Err (Revert "No contribution to refund")).
Proof.
  intros Hz. split.
  - destruct (refund recv e id s) as [[[] s']|err] eqn:E; [|eauto].
    apply refund_ok in E as ((_ & _ & _ & Hpos) & _). lia.
  - intros Hex Hdl Hg. unfold refund. unfold_body. repeat pass.
    rewrite Hz. done.
Qed.

(** Once the deadline is behind every transaction of a history, the
    campaign's total and the identity of the campaign are frozen and no
    ledger entry of it grows. *)
Lemma run_trace_Settled txs s id :
  Inv s → exists_ (campaign_at s id) = true →
  Forall (λ tx : N * Call, deadline (campaign_at s id) ≤ tx.1) txs →
  Inv (run_trace txs s) ∧ Mono s (run_trace txs s) ∧
  amountRaised (campaign_at (run_trace txs s) id)
  = amountRaised (campaign_at s id) ∧
  ∀ a, contribution_at (run_trace txs s) id a ≤ contribution_at s id a.
Proof.
  intros HI Hex. induction txs as [|tx txs IH] using rev_ind; intros Hall.
  - split_and!; [done|apply Mono_refl|done|done].
  - apply Forall_app in Hall as [Hall Htx].
    apply Forall_inv in Htx.
    destruct (IH Hall) as (HI' & HM & Hr & Hc). rewrite run_trace_snoc.
    destruct (step_Keeps tx _ HI') as (HI2 & HM2 & HS2).
    destruct (mono_campaign _ _ HM id Hex) as (Hex' & _ & _ & Hdl' & _).
    destruct (HS2 id Hex') as [Hr2 Hc2]; [lia|].
    split_and!; [done|by eapply Mono_trans|congruence|].
    intros a. specialize (Hc a). specialize (Hc2 a). lia.
Qed.

(** A successful [refund], re-entered or not, leaves the entry at zero. *)
Lemma exec_refund_zeroes now from id accepts reenters s s1 :
  Inv s →
  exec now (call_refund from id accepts reenters) s = Ok s1 →
  Inv s1 ∧ exists_ (campaign_at s1 id) = true ∧
  deadline (campaign_at s1 id) ≤ now ∧
  amountRaised (campaign_at s1 id) < goalAmount (campaign_at s1 id) ∧
  contribution_at s1 id from = 0 ∧
  last (events s1) = Some (RefundIssued id from (contribution_at s id from)).
Proof.
  intros HI E.
  destruct (exec_Keeps _ _ _ _ E HI) as (HI1 & [Hc _ _ _ _] & HS).
  simpl in E. unfold state_of in E.
  destruct (refund _ _ _ _) as [[[] s']|] eqn:E'; [|done].
  injection E as ->.
  apply refund_ok in E' as (Hg & _ & t' & Ht' & ->). simpl in *.
  pose proof (Keeps_zero_contribution now _ _ _ Hg HI) as (HIt & _ & _).
  destruct Hg as (Hex & Hdl & Hgoal & Hpos). simpl in *.
  destruct (Hc id Hex) as (Hex1 & _ & Hg1 & Hdl1 & _).
  destruct (HS id Hex Hdl) as [Hr1 _].
  split_and!; [done|done|lia|lia| |by rewrite last_snoc].
  apply payee_Keeps in Ht'. destruct (Ht' HIt) as (_ & _ & HSt).
  destruct (HSt id) as [_ Hle]; [by storage|by storage|].
  specialize (Hle from). unfold debit in Hle. storage.
  rewrite decide_True in Hle by done. lia.
Qed.

(** C4, as the code has it.  In a reachable state [refund], called without
    value (it is not payable: a call that carries value is turned away
    before the body runs), returns normally exactly when the four
    conditions hold and the value is delivered; with the four conditions
    and no delivery it reverts with "Refund transfer failed".  On success
    it has zeroed the caller's entry and paid the caller what the entry
    held; the contract's balance has dropped by exactly that amount when
    the caller's account does nothing but take it.
    With a zero entry the call reverts; and after one success, while
    the clock does not go back, the entry stays zero and every later
    [refund] of that contributor reverts with "No contribution to refund",
    leaving the state. *)
Theorem refund_once (s : State) (Hs : reachable s) (recv : Receiver)
    (e : Env) (id : N) (Hv : msg_value e = 0) :
  ((∃ s', refund recv e id s = Ok (tt, s')) ↔
   refund_guards e id s ∧
   delivered recv (msg_sender e) (contribution_at s id (msg_sender e))
     (set_contribution id (msg_sender e) 0 s)) ∧
  (refund_guards e id s →
   undelivered recv (msg_sender e) (contribution_at s id (msg_sender e))
     (set_contribution id (msg_sender e) 0 s) →
   refund recv e id s = Err (Revert "Refund transfer failed")) ∧
  (∀ s', refund recv e id s = Ok (tt, s') →
     contribution_at (set_contribution id (msg_sender e) 0 s) id
       (msg_sender e) = 0 ∧
     ∃ t', pays recv (msg_sender e) (contribution_at s id (msg_sender e))
             (set_contribution id (msg_sender e) 0 s) t' ∧
           s' = log_event
                  (RefundIssued id (msg_sender e)
                     (contribution_at s id (msg_sender e))) t') ∧
  (contribution_at s id (msg_sender e) = 0 →
   ∃ err, refund recv e id s = Err err) ∧
  (∀ now from accepts reenters s1,
     exec now (call_refund from id accepts reenters) s = Ok s1 →
     last (events s1)
     = Some (RefundIssued id from (contribution_at s id from)) ∧
     (accepts = true → reenters = [] →
      balance s1 = balance s - contribution_at s id from) ∧
     ∀ txs now' accepts' reenters',
       Forall (λ tx : N * Call, now ≤ tx.1) txs → now ≤ now' →
       contribution_at (run_trace txs s1) id from = 0 ∧
       exec now' (call_refund from id accepts' reenters') (run_trace txs s1)
       = Err (Revert "No contribution to refund") ∧
       step (now', call_refund from id accepts' reenters')
         (run_trace txs s1) = run_trace txs s1).
Proof.
  pose proof (reachable_Inv s Hs) as HI. split_and!.
  - split.
    + intros [s' H]. apply refund_ok in H as (Hg & Hb & t' & Ht' & _).
      split; [done|]. split; [storage; done|by exists t'].
    + intros (Hg & Hb & t' & Ht').
      eexists. apply refund_ok. split; [done|].
      split; [by storage|]. exists t'. split; [exact Ht'|done].
  - apply refund_transfer_failed.
  - intros s' H. apply refund_ok in H as (_ & _ & t' & Ht' & ->).
    split; [storage; by rewrite decide_True|]. by exists t'.
  - intros Hz. by apply refund_nothing_to_refund.
  - intros now from accepts reenters s1 E.
    destruct (exec_refund_zeroes _ _ _ _ _ _ _ HI E)
      as (HI1 & Hex1 & Hdl1 & Hg1 & Hz1 & Hlast).
    split; [done|]. split.
    { intros -> ->. by apply exec_plain_payment in E. }
    intros txs now' accepts' reenters' Hall Hnow.
    destruct (run_trace_Settled txs s1 id HI1 Hex1)
      as (HI2 & [Hc _ _ _ _] & Hr2 & Hle2).
    { eapply Forall_impl; [exact Hall|]. simpl. intros tx Htx. lia. }
    destruct (Hc id Hex1) as (Hex2 & _ & Hg2 & Hdl2 & _).
    specialize (Hle2 from).
    assert (Hz2 : contribution_at (run_trace txs s1) id from = 0) by lia.
    set (recv' := payee_code (run_with (exec now')) accepts' reenters').
    destruct (refund_nothing_to_refund recv' (mkEnv now' from 0) id _ Hz2)
      as [_ Hmsg].
    assert (Hexec :
      exec now' (call_refund from id accepts' reenters') (run_trace txs s1)
      = Err (Revert "No contribution to refund")).
    { simpl. fold recv'. rewrite Hmsg; [done|done|simpl; lia|lia]. }
    split_and!; [done|done|by eapply step_failed].
Qed.

Lemma refund_once_witness :
  ∃ s', refund plain_account (mkEnv 2592100 2 0) 1 underfunded
        = Ok (tt, s').
Proof.
  apply (proj1 (refund_once underfunded reachable_underfunded plain_account
                  (mkEnv 2592100 2 0) 1 eq_refl)).
  split.
  - repeat split; vm_compute; congruence.
  - split; [vm_compute; congruence|]. eexists. reflexivity.
Defined.

(** All four conditions hold and the call still reverts: the contributor's
    account does not accept the payment. *)
Lemma refund_not_iff_four_conditions :
  reachable underfunded ∧
  refund_guards (mkEnv 2592100 2 0) 1 underfunded ∧
  exec 2592100 (call_refund 2 1 false []) underfunded
  = Err (Revert "Refund transfer failed") ∧
  refund rejecting_account (mkEnv 2592100 2 0) 1 underfunded
  = Err (Revert "Refund transfer failed").
Proof.
  split; [exact (reachable_run_trace short_history)|].
  split; [repeat split; vm_compute; congruence|].
  split; vm_compute; reflexivity.
Qed.

(** * Milestones are drained in index order *)

Lemma completeMilestone_blocked e id mid s :
  0 < mid → released (milestone_at s id (mid - 1)) = false →
  (∃ err, completeMilestone e id mid s = Err err) ∧
  (exists_ (campaign_at s id) = true →
   msg_sender e = creator (campaign_at s id) →
   mid < milestoneCount (campaign_at s id) →
   goalAmount (campaign_at s id) ≤ amountRaised (campaign_at s id) →
   completed (milestone_at s id mid) = false →
   completeMilestone e id mid s
   = Err (Revert "Previous milestone must be released first")).
Proof.
  intros Hmid Hprev. split.
  - destruct (completeMilestone e id mid s) as [[[] s']|err] eqn:E; [|eauto].
    apply completeMilestone_ok in E as ((_ & _ & _ & _ & _ & Hp) & _).
    rewrite Hp in Hprev by done. done.
  - intros Hex Hcr Hlt Hg Hc. unfold completeMilestone. unfold_body.
    repeat pass. rewrite Hprev. done.
Qed.

Lemma released_below s id mid (n : nat) :
  Inv s → released (milestone_at s id mid) = true → N.of_nat n ≤ mid →
  released (milestone_at s id (mid - N.of_nat n)) = true.
Proof.
  intros HI Hr. induction n as [|n IH]; intros Hle.
  - by replace (mid - N.of_nat 0) with mid by lia.
  - replace (mid - N.of_nat (S n)) with (mid - N.of_nat n - 1) by lia.
    apply (inv_order s HI); [|lia]. apply (inv_released s HI). apply IH. lia.
Qed.

(** C5.  In every reachable state a milestone of index [mid > 0] that is
    completed, or released, has its predecessor released, and with it every
    milestone of smaller index; and while the predecessor is not released
    [completeMilestone] on [mid] reverts and changes nothing. *)
Theorem milestones_in_index_order (s : State) (Hs : reachable s)
    (id mid : N) (Hmid : 0 < mid) :
  (completed (milestone_at s id mid) = true →
   released (milestone_at s id (mid - 1)) = true) ∧
  (released (milestone_at s id mid) = true →
   ∀ j, j < mid → released (milestone_at s id j) = true) ∧
  (released (milestone_at s id (mid - 1)) = false →
   ∀ now from,
     is_ok (exec now (call_completeMilestone from id mid) s) = false ∧
     step (now, call_completeMilestone from id mid) s = s ∧
     (exists_ (campaign_at s id) = true →
      from = creator (campaign_at s id) →
      mid < milestoneCount (campaign_at s id) →
      goalAmount (campaign_at s id) ≤ amountRaised (campaign_at s id) →
      completed (milestone_at s id mid) = false →
      exec now (call_completeMilestone from id mid) s
      = Err (Revert "Previous milestone must be released first"))).
Proof.
  pose proof (reachable_Inv s Hs) as HI. split_and!.
  - intros Hc. by apply (inv_order s HI).
  - intros Hr j Hj.
    replace j with (mid - N.of_nat (N.to_nat (mid - j))) by lia.
    apply released_below; [done|done|lia].
  - intros Hprev now from.
    destruct (completeMilestone_blocked (mkEnv now from 0) id mid s Hmid
                Hprev) as [[err Herr] Hmsg].
    assert (Hexec : exec now (call_completeMilestone from id mid) s = Err err)
      by (simpl; by rewrite Herr).
    split_and!; [by rewrite Hexec|by eapply step_failed|].
    intros. simpl. rewrite Hmsg; done.
Qed.

Lemma milestones_in_index_order_witness :
  is_ok (exec 400 (call_completeMilestone 1 1 1) approved) = false ∧
  step (400, call_completeMilestone 1 1 1) approved = approved ∧
  (exists_ (campaign_at approved 1) = true →
   1 = creator (campaign_at approved 1) →
   1 < milestoneCount (campaign_at approved 1) →
   goalAmount (campaign_at approved 1)
   ≤ amountRaised (campaign_at approved 1) →
   completed (milestone_at approved 1 1) = false →
   exec 400 (call_completeMilestone 1 1 1) approved
   = Err (Revert "Previous milestone must be released first")).
Proof.
  apply (proj2 (proj2 (milestones_in_index_order approved reachable_approved
                         1 1 ltac:(reflexivity)))).
  vm_compute. reflexivity.
Defined.

(** * Releasing a milestone *)

Lemma releaseMilestone_not_approved recv e id mid s :
  votesFor (milestone_at s id mid) ≤ votesAgainst (milestone_at s id mid) →
  (∃ err, releaseMilestone recv e id mid s = Err err) ∧
  (exists_ (campaign_at s id) = true →
   msg_sender e = creator (campaign_at s id) →
   mid < milestoneCount (campaign_at s id) →
   goalAmount (campaign_at s id) ≤ amountRaised (campaign_at s id) →
   completed (milestone_at s id mid) = true →
   released (milestone_at s id mid) = false →
   releaseMilestone recv e id mid s
   = Err (Revert "Milestone not approved by contributors")).
Proof.
  intros Hle. split.
  - destruct (releaseMilestone recv e id mid s) as [[[] s']|err] eqn:E;
      [|eauto].
    apply releaseMilestone_ok in E as ((_ & _ & _ & _ & _ & _ & Hv) & _).
    lia.
  - intros Hex Hcr Hmid Hg Hc Hr.
    unfold releaseMilestone. unfold_body. repeat pass. stop. done.
Qed.

Lemma exec_releaseMilestone_sets_flag now from id mid accepts reenters s s1 :
  Inv s →
  exec now (call_releaseMilestone from id mid accepts reenters) s = Ok s1 →
  released (milestone_at s1 id mid) = true ∧
  last (events s1)
  = Some (MilestoneReleased id mid (amount (milestone_at s id mid))).
Proof.
  intros HI E. simpl in E. unfold state_of in E.
  destruct (releaseMilestone _ _ _ _ _) as [[[] s']|] eqn:E'; [|done].
  injection E as ->.
  apply releaseMilestone_ok in E' as (Hg & _ & t' & Ht' & ->).
  pose proof (Keeps_mark_released now _ _ _ _ Hg HI) as (HIt & _ & _).
  apply payee_Keeps in Ht'. destruct (Ht' HIt) as (_ & [_ _ Hr _ _] & _).
  split.
  - storage. apply Hr. unfold debit. storage. by rewrite decide_True.
  - simpl. by rewrite last_snoc.
Qed.

(** C8.  [releaseMilestone] returns normally only for the creator, on a
    milestone that is completed, not released, and has [votesFor] strictly
    above [votesAgainst]; it has then set [released] before paying the
    creator exactly the milestone's [amount], and logged that amount.  With
    [votesFor ≤ votesAgainst], a tie included, it reverts.  Run as a
    transaction from a reachable state, a success leaves [released] set
    whatever the creator's account did in between, and the contract's
    balance has dropped by exactly [amount] when that account does nothing
    but take the value. *)
Theorem releaseMilestone_strict_majority (recv : Receiver) (e : Env)
    (id mid : N) (s : State) :
  (∀ s', releaseMilestone recv e id mid s = Ok (tt, s') →
     msg_sender e = creator (campaign_at s id) ∧
     completed (milestone_at s id mid) = true ∧
     released (milestone_at s id mid) = false ∧
     votesAgainst (milestone_at s id mid) < votesFor (milestone_at s id mid) ∧
     released
       (milestone_at (update_milestone id mid (with_released true) s) id mid)
     = true ∧
     ∃ t', pays recv (creator (campaign_at s id))
             (amount (milestone_at s id mid))
             (update_milestone id mid (with_released true) s) t' ∧
           s' = log_event
                  (MilestoneReleased id mid (amount (milestone_at s id mid)))
                  t') ∧
  (votesFor (milestone_at s id mid) = votesAgainst (milestone_at s id mid) →
   (∃ err, releaseMilestone recv e id mid s = Err err) ∧
   (exists_ (campaign_at s id) = true →
    msg_sender e = creator (campaign_at s id) →
    mid < milestoneCount (campaign_at s id) →
    goalAmount (campaign_at s id) ≤ amountRaised (campaign_at s id) →
    completed (milestone_at s id mid) = true →
    released (milestone_at s id mid) = false →
    releaseMilestone recv e id mid s
    = Err (Revert "Milestone not approved by contributors"))) ∧
  (votesFor (milestone_at s id mid) ≤ votesAgainst (milestone_at s id mid) →
   ∀ now from accepts reenters,
     is_ok (exec now (call_releaseMilestone from id mid accepts reenters) s)
     = false) ∧
  (reachable s →
   ∀ now from accepts reenters s1,
     exec now (call_releaseMilestone from id mid accepts reenters) s = Ok s1 →
     released (milestone_at s1 id mid) = true ∧
     last (events s1)
     = Some (MilestoneReleased id mid (amount (milestone_at s id mid))) ∧
     (accepts = true → reenters = [] →
      balance s1 = balance s - amount (milestone_at s id mid))).
Proof.
  split_and!.
  - intros s' H.
    apply releaseMilestone_ok in H
      as ((_ & Hcr & _ & _ & Hc & Hr & Hv) & _ & t' & Ht' & ->).
    split_and!; try done; [storage; by rewrite decide_True|by exists t'].
  - intros Heq. apply releaseMilestone_not_approved. lia.
  - intros Hle now from accepts reenters. simpl.
    destruct (releaseMilestone_not_approved
                (payee_code (run_with (exec now)) accepts reenters)
                (mkEnv now from 0) id mid s Hle) as [[err ->] _].
    done.
  - intros Hs now from accepts reenters s1 E.
    destruct (exec_releaseMilestone_sets_flag _ _ _ _ _ _ _ _
                (reachable_Inv s Hs) E) as [Hr Hlast].
    split_and!; [done|done|].
    intros -> ->. by apply exec_plain_payment in E.
Qed.

Lemma releaseMilestone_strict_majority_witness :
  msg_sender (mkEnv 600 1 0) = creator (campaign_at approved 1) ∧
  completed (milestone_at approved 1 0) = true ∧
  released (milestone_at approved 1 0) = false ∧
  votesAgainst (milestone_at approved 1 0)
  < votesFor (milestone_at approved 1 0) ∧
  released
    (milestone_at (update_milestone 1 0 (with_released true) approved) 1 0)
  = true ∧
  ∃ t', pays plain_account (creator (campaign_at approved 1))
          (amount (milestone_at approved 1 0))
          (update_milestone 1 0 (with_released true) approved) t' ∧
        log_event (MilestoneReleased 1 0 4)
          (debit 4 (update_milestone 1 0 (with_released true) approved))
        = log_event
            (MilestoneReleased 1 0 (amount (milestone_at approved 1 0))) t'.
Proof.
  apply (proj1 (releaseMilestone_strict_majority plain_account
                  (mkEnv 600 1 0) 1 0 approved)).
  vm_compute. reflexivity.
Defined.

(** * Payouts and the deadline *)

Lemma exec_withdrawFunds_inv now from id accepts reenters s s1 :
  exec now (call_withdrawFunds from id accepts reenters) s = Ok s1 →
  withdrawFunds_guards (mkEnv now from 0) id s.
Proof.
  simpl. unfold state_of.
  destruct (withdrawFunds _ _ _ _) as [[[] s']|] eqn:E; [|done].
  intros _. by apply withdrawFunds_ok in E as (Hg & _).
Qed.

Lemma exec_refund_inv now from id accepts reenters s s1 :
  exec now (call_refund from id accepts reenters) s = Ok s1 →
  refund_guards (mkEnv now from 0) id s.
Proof.
  simpl. unfold state_of.
  destruct (refund _ _ _ _) as [[[] s']|] eqn:E; [|done].
  intros _. by apply refund_ok in E as (Hg & _).
Qed.

Lemma exec_releaseMilestone_inv now from id mid accepts reenters s s1 :
  exec now (call_releaseMilestone from id mid accepts reenters) s = Ok s1 →
  releaseMilestone_guards (mkEnv now from 0) id mid s.
Proof.
  simpl. unfold state_of.
  destruct (releaseMilestone _ _ _ _ _) as [[[] s']|] eqn:E; [|done].
  intros _. by apply releaseMilestone_ok in E as (Hg & _).
Qed.

(** C9, as the code has it.  A [withdrawFunds] or a [refund] that succeeds
    was called at or after the campaign's deadline.  A [releaseMilestone]
    that succeeds was called on a campaign whose goal is reached and on a
    milestone completed and approved; the time of the call is not
    examined. *)
Theorem lump_payouts_wait_for_deadline (now : N) (from id : N)
    (accepts : bool) (reenters : list Call) (s s1 : State) :
  (exec now (call_withdrawFunds from id accepts reenters) s = Ok s1 →
   deadline (campaign_at s id) ≤ now) ∧
  (exec now (call_refund from id accepts reenters) s = Ok s1 →
   deadline (campaign_at s id) ≤ now) ∧
  (∀ mid,
     exec now (call_releaseMilestone from id mid accepts reenters) s = Ok s1 →
     goalAmount (campaign_at s id) ≤ amountRaised (campaign_at s id) ∧
     completed (milestone_at s id mid) = true ∧
     votesAgainst (milestone_at s id mid) < votesFor (milestone_at s id mid)).
Proof.
  split_and!.
  - intros E. by apply exec_withdrawFunds_inv in E as (_ & Hdl & _).
  - intros E. by apply exec_refund_inv in E as (_ & Hdl & _).
  - intros mid E.
    by apply exec_releaseMilestone_inv in E as (_ & _ & _ & ? & ? & _ & ?).
Qed.

Lemma lump_payouts_wait_for_deadline_witness :
  deadline (campaign_at funded 1) ≤ 2592100.
Proof.
  eapply (proj1 (lump_payouts_wait_for_deadline 2592100 1 1 true [] funded
                   _)).
  vm_compute. reflexivity.
Defined.

(** Milestone 0 of campaign 1 is released, and its 4 units leave the
    contract, at time 600: the deadline is 2592100. *)
Lemma milestone_paid_while_active :
  reachable approved ∧
  600 < deadline (campaign_at approved 1) ∧
  is_ok (exec 600 (call_releaseMilestone 1 1 0 true []) approved) = true ∧
  balance approved = 10 ∧
  balance (step (600, call_releaseMilestone 1 1 0 true []) approved) = 6.
Proof.
  split; [exact (reachable_run_trace plan_history)|].
  split_and!; vm_compute; reflexivity.
Qed.

(** * Reading milestones *)

(** C10.  [getMilestone] never reverts.  In a reachable state it returns
    the all-zero record (empty description, amount 0, not completed, not
    released, no votes) for a campaign that does not exist and for an index
    at or beyond the campaign's [milestoneCount]; for a campaign that does
    not exist [getAllMilestones] and [getCampaign] revert with "Campaign
    does not exist". *)
Theorem getMilestone_unchecked (s : State) (Hs : reachable s) (id mid : N) :
  getMilestone id mid s = Ok (milestone_at s id mid, s) ∧
  (exists_ (campaign_at s id) = false →
   getMilestone id mid s = Ok (mkMilestone "" 0 false false 0 0, s) ∧
   getAllMilestones id s = Err (Revert "Campaign does not exist") ∧
   getCampaign id s = Err (Revert "Campaign does not exist")) ∧
  (milestoneCount (campaign_at s id) ≤ mid →
   getMilestone id mid s = Ok (mkMilestone "" 0 false false 0 0, s)).
Proof.
  pose proof (reachable_Inv s Hs) as HI.
  assert (Hout : milestoneCount (campaign_at s id) ≤ mid →
                 getMilestone id mid s = Ok (Milestone0, s)).
  { intros Hle. unfold getMilestone, gets.
    by rewrite (inv_bounds s HI id mid Hle). }
  split_and!; [done| |exact Hout].
  intros Hex. split_and!.
  - apply Hout. rewrite (inv_absent s HI id Hex). simpl. lia.
  - unfold getAllMilestones. unfold_body. by rewrite Hex.
  - unfold getCampaign. unfold_body. by rewrite Hex.
Qed.

Lemma getMilestone_unchecked_witness :
  (getMilestone 7 0 approved
   = Ok (mkMilestone "" 0 false false 0 0, approved) ∧
   getAllMilestones 7 approved = Err (Revert "Campaign does not exist") ∧
   getCampaign 7 approved = Err (Revert "Campaign does not exist")) ∧
  getMilestone 1 2 approved = Ok (mkMilestone "" 0 false false 0 0, approved).
Proof.
  split.
  - apply (proj1 (proj2 (getMilestone_unchecked approved reachable_approved
                           7 0))).
    vm_compute. reflexivity.
  - apply (proj2 (proj2 (getMilestone_unchecked approved reachable_approved
                           1 2))).
    vm_compute. congruence.
Defined.

(** * Validation of the milestone plan *)

Lemma ValidationError_intro reason :
  reason ∈ validation_reasons → ValidationError (Revert reason).
Proof. intros H. by exists reason. Qed.

Lemma sum_milestone_amounts_positive amts total s r s' :
  sum_milestone_amounts amts total s = Ok (r, s') →
  Forall (λ a, 0 < a) amts ∧ r = total + total_of amts.
Proof. intros H. apply sum_milestone_amounts_ok in H. naive_solver. Qed.

Lemma createCampaign_rejects_plan e ttl desc cat img goal days descs amts s :
  descs ≠ [] → ¬ plan_valid goal descs amts →
  ∃ err,
    createCampaign e ttl desc cat img goal days descs amts s = Err err ∧
    (ValidationError err ∨ err = Panic 17).
Proof.
  intros Hne Hbad. unfold createCampaign. unfold_body.
  destruct (0 <? goal);
    [|eexists; split; [done|left; apply ValidationError_intro; set_solver]].
  destruct (0 <? days);
    [|eexists; split; [done|left; apply ValidationError_intro; set_solver]].
  destruct (days <=? 365);
    [|eexists; split; [done|left; apply ValidationError_intro; set_solver]].
  destruct (0 <? N.of_nat (String.length ttl));
    [|eexists; split; [done|left; apply ValidationError_intro; set_solver]].
  destruct (0 <? N.of_nat (String.length desc));
    [|eexists; split; [done|left; apply ValidationError_intro; set_solver]].
  destruct (0 <? N.of_nat (length descs)) eqn:G6;
    [|destruct descs; [done|simpl in G6; bool_facts; lia]].
  destruct (N.of_nat (length descs) =? N.of_nat (length amts)) eqn:G7;
    [|eexists; split; [done|left; apply ValidationError_intro; set_solver]].
  destruct (sum_milestone_amounts amts 0 s) as [[t s1]|err] eqn:E.
  - apply sum_milestone_amounts_positive in E as [Hall ->].
    destruct (0 + total_of amts =? goal) eqn:G8;
      [|eexists; split; [done|left; apply ValidationError_intro; set_solver]].
    bool_facts. destruct Hbad. split_and!; [lia|done|lia].
  - exists err. split; [done|].
    apply sum_milestone_amounts_err in E as [->| ->]; [left|by right].
    apply ValidationError_intro. set_solver.
Qed.

(** C7, as the code has it.  When the description list is not empty and
    the two lists differ in length, or some amount is 0, or the amounts do
    not add up to the goal, [createCampaign] reverts: with one of its
    validation messages, or with the overflow panic when the running total
    of the amounts passes 2^256 - 1; as a transaction it leaves the state
    as it was, so no campaign and no milestone is recorded.  When the
    description list is empty the amounts are not looked at. *)
Theorem createCampaign_checks_plan (now : N) (from : address)
    (ttl desc cat img : string) (goal days : N) (descs : list string)
    (amts : list N) (s : State) :
  (descs ≠ [] →
   length descs ≠ length amts ∨ Exists (λ a, a = 0) amts ∨
   total_of amts ≠ goal →
   (∃ err,
      createCampaign (mkEnv now from 0) ttl desc cat img goal days descs amts
        s = Err err ∧
      (ValidationError err ∨ err = Panic 17)) ∧
   step (now, call_createCampaign from ttl desc cat img goal days descs amts)
     s = s) ∧
  createCampaign (mkEnv now from 0) ttl desc cat img goal days [] amts s
  = createCampaign (mkEnv now from 0) ttl desc cat img goal days [] [] s.
Proof.
  split; [|reflexivity].
  intros Hne Hbad.
  destruct (createCampaign_rejects_plan (mkEnv now from 0) ttl desc cat img
              goal days descs amts s Hne) as (err & Herr & Hkind).
  { intros (Hlen & Hall & Hsum). destruct Hbad as [?|[Hex|?]]; [done| |done].
    apply Exists_exists in Hex as (a & Hin & ->).
    rewrite Forall_forall in Hall. specialize (Hall 0 Hin). lia. }
  split; [by exists err|].
  apply (step_failed _ _ _ err). simpl. by rewrite Herr.
Qed.

Lemma createCampaign_checks_plan_witness :
  (∃ err,
     createCampaign (mkEnv 100 1 0) "Well" "Dig a well" "Community" "" 10 30
       ["survey"] [4; 6] init = Err err ∧
     (ValidationError err ∨ err = Panic 17)) ∧
  step (100, call_createCampaign 1 "Well" "Dig a well" "Community" "" 10 30
               ["survey"] [4; 6]) init = init.
Proof.
  apply (proj1 (createCampaign_checks_plan 100 1 "Well" "Dig a well"
                  "Community" "" 10 30 ["survey"] [4; 6] init)).
  - discriminate.
  - left. simpl. lia.
Defined.

(** With no descriptions, a lone amount of 5 against a goal of 10 is
    accepted: the campaign is created, with no milestone. *)
Lemma createCampaign_accepts_unmatched_amounts :
  is_ok (createCampaign (mkEnv 100 1 0) "Well" "Dig a well" "Community" ""
           10 30 [] [5] init) = true ∧
  length ([] : list string) ≠ length [5] ∧ total_of [5] ≠ 10 ∧
  exists_
    (campaign_at
       (step (100, call_createCampaign 1 "Well" "Dig a well" "Community" ""
                     10 30 [] [5]) init) 1) = true ∧
  milestoneCount
    (campaign_at
       (step (100, call_createCampaign 1 "Well" "Dig a well" "Community" ""
                     10 30 [] [5]) init) 1) = 0.
Proof. split_and!; vm_compute; congruence. Qed.

(** * Votes *)

Lemma votes_recorded_app evs ev id mid a :
  votes_recorded (evs ++ [ev]) id mid a
  = (votes_recorded evs id mid a + vote_count id mid a ev)%nat.
Proof.
  unfold votes_recorded. induction evs as [|e evs IH]; simpl; [lia|].
  rewrite IH. lia.
Qed.

Lemma KeepsVoteLog_silent ev s s' :
  events s' = events s ++ [ev] →
  (∀ id mid a, vote_count id mid a ev = 0%nat) →
  (∀ id mid a, vote_at s' id mid a = vote_at s id mid a) →
  KeepsVoteLog s s'.
Proof.
  intros He Hc Hv HL id mid a.
  rewrite He, votes_recorded_app, Hc, Hv, HL. lia.
Qed.

Lemma KeepsVoteLog_flip s s' :
  (∀ id mid a, vote_at s' id mid a = vote_at s id mid a) →
  events s' = events s → KeepsVoteLog s s'.
Proof. intros Hv He HL id mid a. by rewrite He, Hv, HL. Qed.

Lemma KeepsVoteLog_trans s t u :
  KeepsVoteLog s t → KeepsVoteLog t u → KeepsVoteLog s u.
Proof. unfold KeepsVoteLog. eauto. Qed.

Lemma KeepsVoteLog_voteOnMilestone now from id mid approve s s' :
  voteOnMilestone (mkEnv now from 0) id mid approve s = Ok (tt, s') →
  KeepsVoteLog s s'.
Proof.
  intros H. apply voteOnMilestone_ok in H as ((_ & _ & _ & _ & _ & Hv) & ->).
  simpl in *. intros HL id0 mid0 a0. storage.
  rewrite votes_recorded_app, HL. simpl.
  destruct (decide (id = id0 ∧ mid = mid0 ∧ from = a0))
    as [(-> & -> & ->)|].
  - rewrite Hv. done.
  - destruct (vote_at s id0 mid0 a0); lia.
Qed.

Lemma exec_KeepsVoteLog now c s s' :
  exec now c s = Ok s' → KeepsVoteLog s s'.
Proof.
  apply exec_within.
  - intros t Ht. exact Ht.
  - apply KeepsVoteLog_trans.
  - intros * H. apply createCampaign_ok in H as (_ & _ & _ & _ & _ & _ & ->).
    eapply KeepsVoteLog_silent;
      [simpl; by rewrite events_stored|done|intros; by storage].
  - intros * H. apply contribute_ok in H as (_ & _ & _ & ->).
    eapply KeepsVoteLog_silent; [done|done|intros; by storage].
  - intros * H. apply completeMilestone_ok in H as (_ & ->).
    eapply KeepsVoteLog_silent; [done|done|intros; by storage].
  - apply KeepsVoteLog_voteOnMilestone.
  - intros recv from id mid t s1 Hrecv H.
    apply releaseMilestone_ok in H as (_ & _ & t' & Ht' & ->).
    apply Hrecv in Ht'.
    eapply KeepsVoteLog_trans; [|eapply KeepsVoteLog_silent; done].
    eapply KeepsVoteLog_trans; [|exact Ht']. by apply KeepsVoteLog_flip.
  - intros recv from id t s1 Hrecv H.
    apply withdrawFunds_ok in H as (_ & _ & t' & Ht' & ->).
    apply Hrecv in Ht'.
    eapply KeepsVoteLog_trans; [|eapply KeepsVoteLog_silent; done].
    eapply KeepsVoteLog_trans; [|exact Ht']. by apply KeepsVoteLog_flip.
  - intros recv from id t s1 Hrecv H.
    apply refund_ok in H as (_ & _ & t' & Ht' & ->).
    apply Hrecv in Ht'.
    eapply KeepsVoteLog_trans; [|eapply KeepsVoteLog_silent; done].
    eapply KeepsVoteLog_trans; [|exact Ht']. by apply KeepsVoteLog_flip.
Qed.

Lemma reachable_VoteLog s : reachable s → VoteLog s.
Proof.
  intros [txs <-]. induction txs as [|tx txs IH] using rev_ind.
  { intros id mid a. reflexivity. }
  rewrite run_trace_snoc. unfold step.
  destruct (exec _ _ _) eqn:E; [|done].
  apply exec_KeepsVoteLog in E. by apply E.
Qed.

Lemma voteOnMilestone_repeat e id mid approve s :
  exists_ (campaign_at s id) = true →
  0 < contribution_at s id (msg_sender e) →
  mid < milestoneCount (campaign_at s id) →
  completed (milestone_at s id mid) = true →
  vote_at s id mid (msg_sender e) = true →
  voteOnMilestone e id mid approve s
  = Err (Revert (if released (milestone_at s id mid)
                 then "Milestone already released" else "Already voted")).
Proof.
  intros Hex Hc Hmid Hd Hv. unfold voteOnMilestone. unfold_body.
  repeat pass. destruct (released (milestone_at s id mid)); simpl; [done|].
  rewrite Hv. done.
Qed.

Lemma completed_in_plan s id mid :
  Inv s → completed (milestone_at s id mid) = true →
  exists_ (campaign_at s id) = true ∧ mid < milestoneCount (campaign_at s id).
Proof.
  intros HI Hc.
  assert (Hlt : mid < milestoneCount (campaign_at s id)).
  { destruct (N.lt_ge_cases mid (milestoneCount (campaign_at s id)))
      as [?|Hge]; [done|].
    rewrite (inv_bounds s HI id mid Hge) in Hc. done. }
  split; [|done].
  destruct (exists_ (campaign_at s id)) eqn:Hex; [done|].
  rewrite (inv_absent s HI id Hex) in Hlt. simpl in Hlt. lia.
Qed.

(** What a successful vote has done, read on the state after it. *)
Lemma exec_voteOnMilestone_cast now a id mid approve s s1 :
  exec now (call_voteOnMilestone a id mid approve) s = Ok s1 →
  voteOnMilestone_guards (mkEnv now a 0) id mid s ∧
  vote_at s1 id mid a = true ∧
  contribution_at s1 id a = contribution_at s id a ∧
  milestone_at s1 id mid
  = add_vote approve (contribution_at s id a) (milestone_at s id mid) ∧
  last (events s1)
  = Some (MilestoneVoted id mid a approve (contribution_at s id a)).
Proof.
  simpl. unfold state_of.
  destruct (voteOnMilestone _ _ _ _ _) as [[[] s']|] eqn:E; [|done].
  intros [= <-]. apply voteOnMilestone_ok in E as (Hg & ->). simpl.
  split; [done|]. storage. rewrite !decide_True by done.
  split_and!; try done. by rewrite last_snoc.
Qed.

(** C6, as the code has it.  In every reachable state the log holds at
    most one vote per (campaign, milestone, voter): one if the flag of the
    triple is set, none otherwise.  A vote is cast only by an account with
    a positive ledger entry, on a milestone completed and not released, by
    a voter whose flag is not set; it sets the flag and adds the entry, as
    it stands then, to [votesFor] or [votesAgainst].  Contributions and
    refunds leave the milestone records alone.  Once cast, the flag stays
    set through any later history and every further attempt of the voter
    on the milestone reverts, leaving the state: with "Already voted"
    while the milestone is not released, with "Milestone already released"
    once it is. *)
Theorem one_vote_per_voter (s : State) (Hs : reachable s) (id mid : N)
    (a : address) :
  votes_recorded (events s) id mid a
  = (if vote_at s id mid a then 1%nat else 0%nat) ∧
  (∀ now from value id' s1,
     exec now (call_contribute from value id') s = Ok s1 →
     milestone_at s1 id mid = milestone_at s id mid) ∧
  (∀ now from id' accepts s1,
     exec now (call_refund from id' accepts []) s = Ok s1 →
     milestone_at s1 id mid = milestone_at s id mid) ∧
  (∀ now approve s1,
     exec now (call_voteOnMilestone a id mid approve) s = Ok s1 →
     (0 < contribution_at s id a ∧
      completed (milestone_at s id mid) = true ∧
      released (milestone_at s id mid) = false ∧
      vote_at s id mid a = false) ∧
     (vote_at s1 id mid a = true ∧
      milestone_at s1 id mid
      = add_vote approve (contribution_at s id a) (milestone_at s id mid) ∧
      last (events s1)
      = Some (MilestoneVoted id mid a approve (contribution_at s id a))) ∧
     ∀ txs now' approve',
       vote_at (run_trace txs s1) id mid a = true ∧
       exec now' (call_voteOnMilestone a id mid approve') (run_trace txs s1)
       = Err (Revert
                (if released (milestone_at (run_trace txs s1) id mid)
                 then "Milestone already released" else "Already voted")) ∧
       step (now', call_voteOnMilestone a id mid approve') (run_trace txs s1)
       = run_trace txs s1).
Proof.
  pose proof (reachable_Inv s Hs) as HI. split_and!.
  - by apply reachable_VoteLog.
  - intros now from value id' s1 E. simpl in E. unfold state_of in E.
    destruct (contribute _ _ _) as [[[] s']|] eqn:E'; [|done].
    injection E as <-. apply contribute_ok in E' as (_ & _ & _ & ->).
    by storage.
  - intros now from id' accepts s1 E. simpl in E. unfold state_of in E.
    destruct (refund _ _ _ _) as [[[] s']|] eqn:E'; [|done].
    injection E as <-. apply refund_ok in E' as (_ & _ & t' & Ht' & ->).
    unfold payee_code in Ht'. destruct accepts; [|done].
    injection Ht' as <-. unfold debit. by storage.
  - intros now approve s1 E.
    destruct (exec_Keeps _ _ _ _ E HI) as (HI1 & _ & _).
    apply exec_voteOnMilestone_cast in E
      as ((Hex & Hpos & Hmid & Hd & Hr & Hv) & Hv1 & Hc1 & Hm1 & Hlast).
    simpl in *. split_and!; try done.
    intros txs now' approve'.
    assert (Hd1 : completed (milestone_at s1 id mid) = true)
      by (rewrite Hm1; unfold add_vote; by destruct approve).
    destruct (completed_in_plan s1 id mid HI1 Hd1) as [Hex1 Hmid1].
    destruct (run_trace_Inv txs s1 HI1) as [HI2 [Hcm Hdm _ Hvm Hkm]].
    destruct (Hcm id Hex1) as (Hex2 & _ & _ & _ & Hcnt2 & _).
    pose proof (Hkm id a Hex1 (inv_funded s1 HI1 id mid Hd1)) as Hk2.
    assert (Herr :
      exec now' (call_voteOnMilestone a id mid approve') (run_trace txs s1)
      = Err (Revert
               (if released (milestone_at (run_trace txs s1) id mid)
                then "Milestone already released" else "Already voted"))).
    { simpl. rewrite voteOnMilestone_repeat; simpl; eauto; lia. }
    split_and!; [by apply Hvm|done|by eapply step_failed].
Qed.

Lemma one_vote_per_voter_witness :
  (0 < contribution_at survey_done 1 3 ∧
   completed (milestone_at survey_done 1 0) = true ∧
   released (milestone_at survey_done 1 0) = false ∧
   vote_at survey_done 1 0 3 = false) ∧
  exec 700 (call_voteOnMilestone 3 1 0 false) (run_trace [] first_vote)
  = Err (Revert
           (if released (milestone_at (run_trace [] first_vote) 1 0)
            then "Milestone already released" else "Already voted")).
Proof.
  destruct (proj2 (proj2 (proj2
              (one_vote_per_voter survey_done reachable_survey_done 1 0 3)))
              500 true first_vote)
    as (Hguards & _ & Hlater).
  - vm_compute. reflexivity.
  - exact (conj Hguards (proj1 (proj2 (Hlater [] 700 false)))).
Defined.

(** Account 3 has voted on milestone 0; the milestone is then released;
    its second attempt is turned away by the release check, which comes
    before the duplicate check. *)
Lemma second_vote_after_release :
  reachable (step (600, call_releaseMilestone 1 1 0 true []) approved) ∧
  vote_at (step (600, call_releaseMilestone 1 1 0 true []) approved) 1 0 3
  = true ∧
  exec 700 (call_voteOnMilestone 3 1 0 true)
    (step (600, call_releaseMilestone 1 1 0 true []) approved)
  = Err (Revert "Milestone already released").
Proof.
  split; [exact (reachable_step _ _ reachable_approved)|].
  split; vm_compute; reflexivity.
Qed.

(** * State invariants carried by every call *)

Lemma Carries_refl now P s : Carries now P s s.
Proof. split; [apply Keeps_refl|done]. Qed.

Lemma Carries_trans now P s t u :
  Carries now P s t → Carries now P t u → Carries now P s u.
Proof.
  intros [K1 C1] [K2 C2]. split; [by eapply Keeps_trans|].
  intros HI HP. destruct (K1 HI) as (HIt & _). eauto.
Qed.

Lemma within_Carries_Keeps now P recv :
  within (Carries now P) recv → within (Keeps now) recv.
Proof. intros H to amt t t' Hr. by destruct (H to amt t t' Hr). Qed.

Lemma exec_Carries now P c s s' :
  Stable now anything P → exec now c s = Ok s' → Carries now P s s'.
Proof.
  intros [Plog Pcreate Pcontribute Pcomplete Pvote Prelease Pwithdraw Prefund].
  revert s s'. apply exec_within.
  - apply Carries_refl.
  - apply Carries_trans.
  - intros * H. split; [by eapply Keeps_createCampaign|].
    intros HI HP. by eapply Pcreate.
  - intros * H. split; [by eapply Keeps_contribute|].
    intros HI HP. by eapply Pcontribute.
  - intros * H. split; [by eapply Keeps_completeMilestone|].
    intros HI HP. by eapply Pcomplete.
  - intros * H. split; [by eapply Keeps_voteOnMilestone|].
    intros HI HP. by eapply Pvote.
  - intros recv from id mid s0 s1 Hrecv H.
    split; [eapply Keeps_releaseMilestone;
            [by eapply within_Carries_Keeps|done]|].
    apply releaseMilestone_ok in H as (Hg & Hbal & t' & Ht' & ->).
    intros HI HP. apply Plog; [done|].
    destruct (Hrecv _ _ _ _ Ht') as [_ Hcar]. apply Hcar.
    + by destruct (Keeps_mark_released now _ _ _ _ Hg HI).
    + by eapply Prelease.
  - intros recv from id s0 s1 Hrecv H.
    split; [eapply Keeps_withdrawFunds;
            [by eapply within_Carries_Keeps|done]|].
    apply withdrawFunds_ok in H as (Hg & Hbal & t' & Ht' & ->).
    intros HI HP. apply Plog; [done|].
    destruct (Hrecv _ _ _ _ Ht') as [_ Hcar]. apply Hcar.
    + by destruct (Keeps_mark_withdrawn now _ _ _ Hg HI).
    + by eapply Pwithdraw.
  - intros recv from id s0 s1 Hrecv H.
    split; [eapply Keeps_refund; [by eapply within_Carries_Keeps|done]|].
    apply refund_ok in H as (Hg & Hbal & t' & Ht' & ->).
    intros HI HP. apply Plog; [done|].
    destruct (Hrecv _ _ _ _ Ht') as [_ Hcar]. apply Hcar.
    + by destruct (Keeps_zero_contribution now _ _ _ Hg HI).
    + by eapply Prefund.
Qed.

(** An invariant proved with the help of one already known. *)
Lemma Stable_and now J P :
  Stable now anything J → Stable now J P →
  Stable now anything (λ s, J s ∧ P s).
Proof.
  intros [Jlog Jcreate Jcontribute Jcomplete Jvote Jrelease Jwithdraw Jrefund]
         [Plog Pcreate Pcontribute Pcomplete Pvote Prelease Pwithdraw Prefund].
  split.
  - intros ev s _ [HJ HP]. split; [by apply Jlog|by apply Plog].
  - intros * HI _ [HJ HP] H. split; [by eapply Jcreate|by eapply Pcreate].
  - intros * HI _ [HJ HP] H.
    split; [by eapply Jcontribute|by eapply Pcontribute].
  - intros * HI _ [HJ HP] H.
    split; [by eapply Jcomplete|by eapply Pcomplete].
  - intros * HI _ [HJ HP] H. split; [by eapply Jvote|by eapply Pvote].
  - intros * HI _ [HJ HP] Hg Hb.
    split; [by eapply Jrelease|by eapply Prelease].
  - intros * HI _ [HJ HP] Hg Hb.
    split; [by eapply Jwithdraw|by eapply Pwithdraw].
  - intros * HI _ [HJ HP] Hg Hb.
    split; [by eapply Jrefund|by eapply Prefund].
Qed.

Lemma step_Carries now P c s :
  Stable now anything P → Inv s → P s → P (step (now, c) s).
Proof.
  intros HS HI HP. unfold step; simpl.
  destruct (exec now c s) eqn:E; [|done].
  by eapply exec_Carries in E as [_ H]; [apply H|].
Qed.

Lemma Stable_Invariant P : (∀ now, Stable now anything P) → Invariant P.
Proof. intros H now c s. by apply step_Carries. Qed.

Lemma run_trace_Invariant P txs s :
  Invariant P → Inv s → P s → P (run_trace txs s).
Proof.
  intros HP HI Hs. induction txs as [|[now c] txs IH] using rev_ind; [done|].
  rewrite run_trace_snoc. apply HP; [|done]. by apply run_trace_Inv.
Qed.

(** * The registry of campaigns *)

Lemma ids_upto_succ n : ids_upto (n + 1) = ids_upto n ++ [n + 1].
Proof.
  unfold ids_upto. replace (N.to_nat (n + 1)) with (S (N.to_nat n)) by lia.
  rewrite seq_S, fmap_app. simpl. do 3 f_equal. lia.
Qed.

Lemma Registry_stable now : Stable now anything Registry.
Proof.
  split.
  - intros ev s _ [Hl Hex]. split; [exact Hl|]. intros id. storage. apply Hex.
  - intros * HI _ [Hl Hex] H.
    apply createCampaign_ok in H as (_ & _ & _ & _ & _ & _ & ->).
    split.
    + simpl. destruct (stored_frame (campaignCounter s + 1) descs amts 0
        (set_campaign (campaignCounter s + 1)
           (new_campaign (mkEnv now from 0) ttl desc cat img goal days descs)
           (set_campaignCounter (campaignCounter s + 1) s)))
        as (Hc & _ & _ & _ & Hi & _).
      rewrite Hi, Hc. simpl. by rewrite Hl, ids_upto_succ.
    + intros id. storage.
      destruct (decide (campaignCounter s + 1 = id)) as [<-|Hne].
      * simpl. split; [lia|done].
      * rewrite Hex. lia.
  - intros * HI _ [Hl Hex] H. apply contribute_ok in H as (He & _ & _ & ->).
    split; [exact Hl|]. intros id0. storage.
    destruct (decide (id = id0)) as [->|]; [|apply Hex].
    simpl. rewrite <- Hex. by rewrite He.
  - intros * HI _ [Hl Hex] H. apply completeMilestone_ok in H as (_ & ->).
    split; [exact Hl|]. intros id0. storage. apply Hex.
  - intros * HI _ [Hl Hex] H. apply voteOnMilestone_ok in H as (_ & ->).
    split; [exact Hl|]. intros id0. storage. apply Hex.
  - intros * HI _ [Hl Hex] _ _. split; [exact Hl|].
    intros id0. unfold debit. storage. apply Hex.
  - intros * HI _ [Hl Hex] (He & _) _. split; [exact Hl|].
    intros id0. unfold debit. storage.
    destruct (decide (id = id0)) as [->|]; [|apply Hex].
    simpl. rewrite <- Hex. by rewrite He.
  - intros * HI _ [Hl Hex] _ _. split; [exact Hl|].
    intros id0. unfold debit. storage. apply Hex.
Qed.

Lemma Registry_init : Registry init.
Proof. split; [done|]. intros id. simpl. split; [done|lia]. Qed.

Lemma reachable_Registry s : reachable s → Registry s.
Proof.
  intros [txs <-].
  apply run_trace_Invariant;
    [apply Stable_Invariant, Registry_stable|apply Inv_init|].
  apply Registry_init.
Qed.

(** X1: campaigns are numbered 1, 2, ... in the order they are created:
    [getTotalCampaigns] returns how many there are, [getAllCampaignIds]
    lists 1 up to that number, and [getCampaign] returns for exactly these
    identifiers and reverts for every other. *)
Theorem campaigns_are_numbered (s : State) (Hs : reachable s) :
  getTotalCampaigns s = Ok (campaignCounter s, s) ∧
  getAllCampaignIds s = Ok (ids_upto (campaignCounter s), s) ∧
  ∀ id,
    (1 ≤ id ≤ campaignCounter s →
     getCampaign id s = Ok (campaign_at s id, s) ∧
     exists_ (campaign_at s id) = true) ∧
    (¬ 1 ≤ id ≤ campaignCounter s →
     getCampaign id s = Err (Revert "Campaign does not exist")).
Proof.
  destruct (reachable_Registry s Hs) as [Hl Hex]. split_and!.
  - unfold getTotalCampaigns, gets. rewrite Hl. unfold ids_upto.
    rewrite length_fmap, length_seq. do 2 f_equal. lia.
  - unfold getAllCampaignIds, gets. by rewrite Hl.
  - intros id. split.
    + intros Hid. apply Hex in Hid. split; [|done].
      unfold getCampaign. unfold_body. by rewrite Hid.
    + intros Hid. unfold getCampaign. unfold_body.
      destruct (exists_ (campaign_at s id)) eqn:He; [|done].
      by apply Hex in He.
Qed.

Lemma campaigns_are_numbered_witness :
  getTotalCampaigns approved = Ok (campaignCounter approved, approved) ∧
  getAllCampaignIds approved
  = Ok (ids_upto (campaignCounter approved), approved) ∧
  ∀ id,
    (1 ≤ id ≤ campaignCounter approved →
     getCampaign id approved = Ok (campaign_at approved id, approved) ∧
     exists_ (campaign_at approved id) = true) ∧
    (¬ 1 ≤ id ≤ campaignCounter approved →
     getCampaign id approved = Err (Revert "Campaign does not exist")).
Proof. exact (campaigns_are_numbered approved reachable_approved). Defined.

(** * [createCampaign]: when it succeeds and what can be read back *)

Lemma sum_milestone_amounts_run amts total s :
  Forall (λ a, 0 < a) amts → total + total_of amts ≤ UINT256_MAX →
  sum_milestone_amounts amts total s = Ok (total + total_of amts, s).
Proof.
  revert total. induction amts as [|a rest IH]; intros total Hall Hle;
    simpl in *.
  - unfold ret. do 2 f_equal. lia.
  - apply Forall_cons in Hall as [Ha Hall]. unfold_body. repeat pass.
    rewrite IH by (done || lia). do 2 f_equal. lia.
Qed.

Lemma sum_milestone_amounts_bounded amts total s r s' :
  sum_milestone_amounts amts total s = Ok (r, s') → amts ≠ [] →
  r ≤ UINT256_MAX.
Proof.
  revert total. induction amts as [|a rest IH]; intros total H Hne;
    [done|]. simpl in H. guards H. bool_facts.
  destruct rest as [|b rest]; [|by eapply IH].
  simpl in H. injection H as <- <-. done.
Qed.

Lemma store_milestones_run id descs amts i s :
  (N.to_nat i + length descs ≤ length amts)%nat →
  store_milestones id descs amts i s = Ok (tt, stored id descs amts i s).
Proof.
  revert i s. induction descs as [|d rest IH]; intros i s Hlen; simpl in *;
    [done|].
  unfold_body. destruct (amts !! N.to_nat i) as [a|] eqn:E.
  - simpl. rewrite IH by lia. done.
  - apply lookup_ge_None in E. lia.
Qed.

Lemma string_nonempty (x : string) :
  (0 <? N.of_nat (String.length x)) = true ↔ x ≠ "".
Proof.
  destruct x; simpl; [split; [done|congruence]|].
  split; [done|]. intros _. apply N.ltb_lt. lia.
Qed.

Lemma createCampaign_overflow e ttl desc cat img goal days descs amts s r s' :
  createCampaign e ttl desc cat img goal days descs amts s = Ok (r, s') →
  block_timestamp e + days * 86400 ≤ UINT256_MAX ∧
  campaignCounter s + 1 ≤ UINT256_MAX ∧
  (descs ≠ [] → goal ≤ UINT256_MAX).
Proof.
  intros H. unfold createCampaign in H. unfold_body_in H.
  destruct (0 <? goal) eqn:G1; [|discriminate].
  destruct (0 <? days) eqn:G2; [|discriminate].
  destruct (days <=? 365) eqn:G3; [|discriminate].
  destruct (0 <? N.of_nat (String.length ttl)) eqn:G4; [|discriminate].
  destruct (0 <? N.of_nat (String.length desc)) eqn:G5; [|discriminate].
  destruct (0 <? N.of_nat (length descs)) eqn:G6.
  - destruct (_ =? _) eqn:G7 in H; [|discriminate].
    destruct (sum_milestone_amounts amts 0 s) as [[t s1]|] eqn:E;
      [|discriminate].
    pose proof E as E'.
    apply sum_milestone_amounts_ok in E as (-> & -> & Hall).
    destruct (_ =? _) eqn:G8 in H; [|discriminate].
    destruct (days * 86400 <=? UINT256_MAX) eqn:G9; [|discriminate].
    destruct (_ + _ <=? UINT256_MAX) eqn:G10 in H; [|discriminate].
    destruct (_ + 1 <=? UINT256_MAX) eqn:G11 in H; [|discriminate].
    bool_facts. split_and!; [done..|]. intros _.
    apply sum_milestone_amounts_bounded in E'; [lia|].
    destruct descs, amts; simpl in *; done || lia.
  - destruct (days * 86400 <=? UINT256_MAX) eqn:G9; [|discriminate].
    destruct (_ + _ <=? UINT256_MAX) eqn:G10 in H; [|discriminate].
    destruct (_ + 1 <=? UINT256_MAX) eqn:G11 in H; [|discriminate].
    bool_facts. split_and!; [done..|].
    destruct descs; [done|]. simpl in G6. lia.
Qed.

Lemma createCampaign_run e ttl desc cat img goal days descs amts s :
  createCampaign_guards e ttl desc goal days descs amts s →
  createCampaign e ttl desc cat img goal days descs amts s
  = Ok (campaignCounter s + 1,
        created e ttl desc cat img goal days descs amts s).
Proof.
  intros (Hg & Hd & Ht & Hde & Hplan & Ho1 & Ho2).
  apply string_nonempty in Ht, Hde.
  unfold createCampaign. unfold_body. do 3 pass. rewrite Ht, Hde.
  destruct (0 <? N.of_nat (length descs)) eqn:G6.
  - assert (Hne : descs ≠ []) by (intros ->; simpl in G6; done).
    destruct (Hplan Hne) as [(Hl & Hall & Hsum) Hmax].
    pass. rewrite sum_milestone_amounts_run by (done || lia).
    do 4 pass. rewrite store_milestones_run by (simpl; lia).
    unfold created, new_campaign. done.
  - assert (descs = []) as ->.
    { destruct descs; [done|]. simpl in G6. bool_facts. lia. }
    do 3 pass. simpl. done.
Qed.

(** X2: called without value ([createCampaign] is not payable: a call
    that carries value is turned away before the body runs),
    [createCampaign] returns exactly when its guards hold, and then with
    the next identifier and the storage [created]. *)
Theorem createCampaign_succeeds_iff (e : Env) (ttl desc cat img : string)
    (goal days : N) (descs : list string) (amts : list N) (s : State)
    (r : N) (s' : State) (Hv : msg_value e = 0) :
  createCampaign e ttl desc cat img goal days descs amts s = Ok (r, s') ↔
  createCampaign_guards e ttl desc goal days descs amts s ∧
  r = campaignCounter s + 1 ∧
  s' = created e ttl desc cat img goal days descs amts s.
Proof.
  split.
  - intros H. pose proof (createCampaign_overflow _ _ _ _ _ _ _ _ _ _ _ _ H)
      as (Ho1 & Ho2 & Ho3).
    apply createCampaign_ok in H as (Hg & Hd & Ht & Hde & Hplan & -> & ->).
    split; [|done]. unfold createCampaign_guards.
    split_and!; try done; try lia. intros Hne. split; auto.
  - intros (Hg & -> & ->). by apply createCampaign_run.
Qed.

Lemma createCampaign_succeeds_iff_witness :
  createCampaign (mkEnv 700 1 0) "Pump" "Buy a pump" "Community" "" 6 10
    ["order"; "install"] [2; 4] funded
  = Ok (2, pump_created) ↔
  createCampaign_guards (mkEnv 700 1 0) "Pump" "Buy a pump" 6 10
    ["order"; "install"] [2; 4] funded ∧
  2 = campaignCounter funded + 1 ∧
  pump_created
  = created (mkEnv 700 1 0) "Pump" "Buy a pump" "Community" "" 6 10
      ["order"; "install"] [2; 4] funded.
Proof.
  apply (createCampaign_succeeds_iff (mkEnv 700 1 0) "Pump" "Buy a pump"
           "Community" "" 6 10 ["order"; "install"] [2; 4] funded 2
           pump_created).
  reflexivity.
Defined.

(** ** A new campaign starts clean *)

Lemma Unused_stable now : Stable now anything Unused.
Proof.
  split.
  - intros ev s _ H id Hex. storage. destruct (H id Hex) as [Hc Hv].
    split; intros; storage; auto.
  - intros * HI _ H Hc.
    apply createCampaign_ok in Hc as (_ & _ & _ & _ & _ & _ & ->).
    intros id Hex. storage.
    destruct (decide (campaignCounter s + 1 = id)) as [<-|Hne]; [done|].
    destruct (H id Hex) as [Hc Hv]. split; intros; storage; auto.
  - intros * HI _ H Hc. apply contribute_ok in Hc as (He & _ & _ & ->).
    intros id0 Hex. storage.
    destruct (decide (id = id0)) as [->|Hne]; [simpl in Hex; congruence|].
    destruct (H id0 Hex) as [Hc Hv]. split; intros; storage; auto.
    rewrite decide_False by naive_solver. apply Hc.
  - intros * HI _ H Hc. apply completeMilestone_ok in Hc as (_ & ->).
    intros id0 Hex. storage. destruct (H id0 Hex) as [Hc Hv].
    split; intros; storage; auto.
  - intros * HI _ H Hc.
    apply voteOnMilestone_ok in Hc as ((He & _) & ->).
    intros id0 Hex. storage. destruct (H id0 Hex) as [Hc Hv].
    split; intros; storage; auto.
    rewrite decide_False; [apply Hv|]. intros (-> & _). congruence.
  - intros * HI _ H _ _ id0 Hex. storage. destruct (H id0 Hex) as [Hc Hv].
    split; intros; storage; auto.
  - intros * HI _ H (He & _) _ id0 Hex. storage.
    assert (Hex' : exists_ (campaign_at s id0) = false).
    { destruct (decide (id = id0)) as [->|Hne]; [simpl in Hex|]; done. }
    destruct (H id0 Hex') as [Hc Hv]. split; intros; storage; auto.
  - intros * HI _ H (He & _) _ id0 Hex. storage.
    destruct (H id0 Hex) as [Hc Hv]. split; intros; storage; auto.
    destruct (decide (id = id0 ∧ from = a)); [done|apply Hc].
Qed.

Lemma reachable_Unused s : reachable s → Unused s.
Proof.
  intros [txs <-].
  apply run_trace_Invariant;
    [apply Stable_Invariant, Unused_stable|apply Inv_init|].
  intros id _. done.
Qed.

Lemma fresh_plan_read id descs amts s :
  length descs = length amts →
  (λ i, milestone_at (stored id descs amts 0 s) id (N.of_nat i))
    <$> seq 0 (length descs)
  = fresh_plan descs amts.
Proof.
  intros Hlen. apply list_eq. intros i. unfold fresh_plan.
  rewrite list_lookup_fmap, lookup_zip_with.
  destruct (decide (i < length descs)%nat) as [Hi|Hi].
  - rewrite lookup_seq_lt by done. simpl.
    rewrite milestone_at_stored, decide_True by lia.
    replace (N.to_nat (N.of_nat i - 0)) with i by lia.
    rewrite Nat2N.id.
    destruct (lookup_lt_is_Some_2 descs i Hi) as [d ->].
    destruct (lookup_lt_is_Some_2 amts i ltac:(lia)) as [a ->]. done.
  - rewrite lookup_seq_ge by lia.
    rewrite (lookup_ge_None_2 descs) by lia. done.
Qed.

(** X3: what the views return right after a campaign is created. *)
Theorem createCampaign_then_read (e : Env) (ttl desc cat img : string)
    (goal days : N) (descs : list string) (amts : list N) (s : State)
    (r : N) (s' : State)
    (Hs : reachable s)
    (H : createCampaign e ttl desc cat img goal days descs amts s
         = Ok (r, s')) :
  getTotalCampaigns s' = Ok (r, s') ∧
  getCampaign r s'
  = Ok (new_campaign e ttl desc cat img goal days descs, s') ∧
  getAllMilestones r s' = Ok (fresh_plan descs amts, s') ∧
  isGoalReached r s' = Ok (false, s') ∧
  (∀ a, getContribution r a s' = Ok (0, s')) ∧
  (∀ mid a, hasVoted r mid a s' = Ok (false, s')) ∧
  getContractBalance s' = Ok (balance s, s') ∧
  ∀ id, id ≠ r →
    campaign_at s' id = campaign_at s id ∧
    (∀ mid, milestone_at s' id mid = milestone_at s id mid) ∧
    (∀ a, contribution_at s' id a = contribution_at s id a) ∧
    (∀ mid a, vote_at s' id mid a = vote_at s id mid a).
Proof.
  pose proof (reachable_Inv s Hs) as HI.
  destruct (reachable_Registry s Hs) as [Hl Hex].
  destruct (fresh_slot s HI) as [Hc0 Hm0].
  assert (Hun : exists_ (campaign_at s (campaignCounter s + 1)) = false)
    by (by rewrite Hc0).
  destruct (reachable_Unused s Hs _ Hun) as [Hcz Hvz].
  apply createCampaign_ok in H as (Hg & Hd & Ht & Hde & Hplan & -> & ->).
  set (nid := campaignCounter s + 1) in *.
  set (c := new_campaign e ttl desc cat img goal days descs).
  assert (Hc : ∀ ev,
    campaign_at (log_event ev (push_campaignId nid (stored nid descs amts 0
      (set_campaign nid c (set_campaignCounter nid s))))) nid = c).
  { intros ev. storage. by rewrite decide_True. }
  split_and!.
  - unfold getTotalCampaigns, gets. do 2 f_equal. simpl.
    destruct (stored_frame nid descs amts 0
                (set_campaign nid c (set_campaignCounter nid s)))
      as (_ & _ & _ & _ & -> & _).
    simpl. rewrite Hl, length_app. unfold ids_upto.
    rewrite length_fmap, length_seq. simpl. lia.
  - unfold getCampaign. unfold_body. rewrite Hc.
    change (exists_ c) with true. cbv beta iota. by rewrite Hc.
  - unfold getAllMilestones. unfold_body. rewrite Hc.
    change (exists_ c) with true. cbv beta iota. rewrite Hc.
    change (milestoneCount c) with (N.of_nat (length descs)).
    do 2 f_equal. rewrite Nat2N.id.
    destruct descs as [|d descs']; [done|].
    destruct Hplan as (Hlen & _); [done|].
    rewrite <- (fresh_plan_read nid (d :: descs') amts
                  (set_campaign nid c (set_campaignCounter nid s)) Hlen).
    apply list_fmap_ext. intros i x _. by storage.
  - unfold isGoalReached. unfold_body. rewrite Hc.
    change (exists_ c) with true. cbv beta iota. rewrite Hc.
    change (goalAmount c) with goal. change (amountRaised c) with 0.
    do 2 f_equal. apply N.leb_gt. lia.
  - intros a. unfold getContribution, gets. do 2 f_equal. storage. apply Hcz.
  - intros mid a. unfold hasVoted, gets. do 2 f_equal. storage. apply Hvz.
  - unfold getContractBalance, gets. do 2 f_equal. simpl.
    by destruct (stored_frame nid descs amts 0
                   (set_campaign nid c (set_campaignCounter nid s)))
      as (_ & _ & _ & _ & _ & -> & _).
  - intros id Hne. split_and!; intros; storage.
    + by rewrite decide_False.
    + rewrite milestone_at_stored, decide_False by naive_solver. by storage.
    + done.
    + done.
Qed.

Lemma createCampaign_then_read_witness :
  getTotalCampaigns pump_created = Ok (2, pump_created) ∧
  getCampaign 2 pump_created
  = Ok (new_campaign (mkEnv 700 1 0) "Pump" "Buy a pump" "Community" "" 6 10
          ["order"; "install"], pump_created) ∧
  getAllMilestones 2 pump_created
  = Ok (fresh_plan ["order"; "install"] [2; 4], pump_created) ∧
  isGoalReached 2 pump_created = Ok (false, pump_created) ∧
  (∀ a, getContribution 2 a pump_created = Ok (0, pump_created)) ∧
  (∀ mid a, hasVoted 2 mid a pump_created = Ok (false, pump_created)) ∧
  getContractBalance pump_created = Ok (balance funded, pump_created) ∧
  ∀ id, id ≠ 2 →
    campaign_at pump_created id = campaign_at funded id ∧
    (∀ mid, milestone_at pump_created id mid = milestone_at funded id mid) ∧
    (∀ a, contribution_at pump_created id a = contribution_at funded id a) ∧
    (∀ mid a, vote_at pump_created id mid a = vote_at funded id mid a).
Proof.
  apply (createCampaign_then_read (mkEnv 700 1 0) "Pump" "Buy a pump"
           "Community" "" 6 10 ["order"; "install"] [2; 4] funded 2
           pump_created reachable_funded).
  vm_compute. reflexivity.
Defined.

(** * What is fixed when a campaign is created *)

(** A field that a write leaves as it was. *)
Ltac same_fields :=
  intros; storage; repeat case_decide; destruct_and?; simplify_eq; simpl;
  try done.

Lemma run_trace_Mono txs s :
  Inv s → Inv (run_trace txs s) ∧ Mono s (run_trace txs s).
Proof.
  intros HI. induction txs as [|tx txs IH] using rev_ind.
  - split; [done|apply Mono_refl].
  - destruct IH as [HI' HM]. rewrite run_trace_snoc.
    destruct (step_Keeps tx _ HI') as (HI2 & HM2 & _).
    split; [done|by eapply Mono_trans].
Qed.

Lemma plan_amounts_ext s s' id :
  milestoneCount (campaign_at s' id) = milestoneCount (campaign_at s id) →
  (∀ mid, amount (milestone_at s' id mid) = amount (milestone_at s id mid)) →
  plan_amounts s' id = plan_amounts s id.
Proof.
  intros Hc Ha. unfold plan_amounts. rewrite Hc.
  apply list_fmap_ext. intros i x _. apply Ha.
Qed.

Lemma PlanSound_ext s s' :
  (∀ id, milestoneCount (campaign_at s' id) = milestoneCount (campaign_at s id)
         ∧ goalAmount (campaign_at s' id) = goalAmount (campaign_at s id)) →
  (∀ id mid,
     amount (milestone_at s' id mid) = amount (milestone_at s id mid)) →
  PlanSound s → PlanSound s'.
Proof.
  intros Hc Ha H id. destruct (Hc id) as [Hn Hgoal].
  rewrite (plan_amounts_ext s s' id) by auto. rewrite Hn, Hgoal. apply H.
Qed.

Lemma PlanSound_stable now : Stable now anything PlanSound.
Proof.
  split.
  - intros ev s _. apply PlanSound_ext; intros; by storage.
  - intros * HI _ HP H.
    apply createCampaign_ok in H as (_ & _ & _ & _ & Hplan & _ & ->).
    destruct (fresh_slot s HI) as [Hc0 Hm0].
    set (nid := campaignCounter s + 1) in *. intros id.
    destruct (decide (id = nid)) as [->|Hne].
    + storage. rewrite decide_True by done. simpl. intros Hpos.
      assert (Hne : descs ≠ []) by (intros ->; simpl in Hpos; lia).
      destruct (Hplan Hne) as (Hlen & Hall & Hsum).
      assert (Hp : plan_amounts
        (log_event
           (CampaignCreated nid from ttl cat goal (now + days * 86400)
              (N.of_nat (length descs)))
           (push_campaignId nid
              (stored nid descs amts 0
                 (set_campaign nid
                    (new_campaign (mkEnv now from 0) ttl desc cat img goal
                       days descs)
                    (set_campaignCounter nid s))))) nid = amts).
      { unfold plan_amounts. storage. rewrite decide_True by done.
        cbn [milestoneCount new_campaign]. rewrite Nat2N.id.
        apply list_eq. intros i. rewrite list_lookup_fmap.
        destruct (decide (i < length descs)%nat) as [Hi|Hi].
        - rewrite lookup_seq_lt by done. simpl. storage.
          rewrite milestone_at_stored, decide_True by lia.
          cbn [amount]. rewrite Nat2N.id.
          destruct (lookup_lt_is_Some_2 amts i ltac:(lia)) as [a ->]. done.
        - rewrite lookup_seq_ge by lia.
          rewrite (lookup_ge_None_2 amts) by lia. done. }
      rewrite Hp. done.
    + assert (Hsame : plan_amounts
        (log_event
           (CampaignCreated nid from ttl cat goal (now + days * 86400)
              (N.of_nat (length descs)))
           (push_campaignId nid
              (stored nid descs amts 0
                 (set_campaign nid
                    (new_campaign (mkEnv now from 0) ttl desc cat img goal
                       days descs)
                    (set_campaignCounter nid s))))) id = plan_amounts s id).
      { apply plan_amounts_ext.
        - storage. by rewrite decide_False.
        - intros mid. storage.
          rewrite milestone_at_stored, decide_False by naive_solver.
          by storage. }
      simpl in *. rewrite Hsame. storage. rewrite decide_False by done.
      apply HP.
  - intros * HI _ HP H. apply contribute_ok in H as (_ & _ & _ & ->).
    revert HP. apply PlanSound_ext; same_fields.
  - intros * HI _ HP H. apply completeMilestone_ok in H as (_ & ->).
    revert HP. apply PlanSound_ext; same_fields.
  - intros * HI _ HP H. apply voteOnMilestone_ok in H as (_ & ->).
    revert HP. apply PlanSound_ext; same_fields.
    unfold add_vote. by destruct approve.
  - intros * HI _ HP _ _.
    revert HP. apply PlanSound_ext; same_fields.
  - intros * HI _ HP _ _.
    revert HP. apply PlanSound_ext; same_fields.
  - intros * HI _ HP _ _.
    revert HP. apply PlanSound_ext; same_fields.
Qed.

Lemma reachable_PlanSound s : reachable s → PlanSound s.
Proof.
  intros [txs <-].
  apply run_trace_Invariant;
    [apply Stable_Invariant, PlanSound_stable|apply Inv_init|].
  intros id H. unfold campaign_at in H. simpl in H.
  rewrite lookup_empty in H. simpl in H. lia.
Qed.

Lemma total_of_bounds (amts : list N) a : a ∈ amts → a ≤ total_of amts.
Proof.
  unfold total_of. induction amts as [|b l IH]; intros H.
  - by apply elem_of_nil in H.
  - apply elem_of_cons in H as [->|H]; simpl; [lia|]. apply IH in H. lia.
Qed.

(** X4: the milestones of a campaign, as [getAllMilestones] returns them,
    are the records [getMilestone] reads one by one; their amounts are
    positive and add up to the goal. *)
Theorem plan_adds_up_to_goal (s : State) (id : N)
    (Hs : reachable s) (Hex : exists_ (campaign_at s id) = true) :
  ∃ ms,
    getAllMilestones id s = Ok (ms, s) ∧
    N.of_nat (length ms) = milestoneCount (campaign_at s id) ∧
    (∀ i m, ms !! i = Some m →
            getMilestone id (N.of_nat i) s = Ok (m, s) ∧
            0 < amount m ≤ goalAmount (campaign_at s id)) ∧
    (ms ≠ [] → total_of (amount <$> ms) = goalAmount (campaign_at s id)).
Proof.
  pose proof (reachable_PlanSound s Hs id) as HP.
  set (n := milestoneCount (campaign_at s id)) in *.
  set (ms := (λ i, milestone_at s id (N.of_nat i)) <$> seq 0 (N.to_nat n)).
  assert (Hamts : amount <$> ms = plan_amounts s id).
  { unfold ms, plan_amounts. fold n. by rewrite <- list_fmap_compose. }
  assert (Hlen : N.of_nat (length ms) = n).
  { unfold ms. rewrite length_fmap, length_seq. lia. }
  exists ms. split_and!.
  - unfold getAllMilestones. unfold_body. by rewrite Hex.
  - done.
  - intros i m Hi.
    assert (Hpos : 0 < n).
    { apply lookup_lt_Some in Hi. lia. }
    destruct (HP Hpos) as [Hall Hsum]. split.
    + unfold getMilestone, gets. do 2 f_equal. unfold ms in Hi.
      rewrite list_lookup_fmap in Hi.
      destruct (seq 0 (N.to_nat n) !! i) as [j|] eqn:Hj; [|done].
      apply lookup_seq in Hj as [-> _]. simpl in Hi. by injection Hi.
    + assert (Hin : amount m ∈ plan_amounts s id).
      { rewrite <- Hamts. apply list_elem_of_fmap. exists m. split; [done|].
        by eapply list_elem_of_lookup_2. }
      split.
      * by apply (proj1 (Forall_forall _ _) Hall).
      * rewrite <- Hsum. by apply total_of_bounds.
  - intros Hne. rewrite Hamts. apply HP.
    destruct ms; [done|]. simpl in Hlen. lia.
Qed.

Lemma plan_adds_up_to_goal_witness :
  ∃ ms,
    getAllMilestones 1 approved = Ok (ms, approved) ∧
    N.of_nat (length ms) = milestoneCount (campaign_at approved 1) ∧
    (∀ i m, ms !! i = Some m →
            getMilestone 1 (N.of_nat i) approved = Ok (m, approved) ∧
            0 < amount m ≤ goalAmount (campaign_at approved 1)) ∧
    (ms ≠ [] → total_of (amount <$> ms) = goalAmount (campaign_at approved 1)).
Proof.
  apply (plan_adds_up_to_goal approved 1 reachable_approved).
  vm_compute. reflexivity.
Defined.

(** ** The terms of a campaign never change *)

Lemma same_terms_ext s0 s s' :
  (∀ id, exists_ (campaign_at s id) = true →
         exists_ (campaign_at s' id) = true ∧
         terms (campaign_at s' id) = terms (campaign_at s id) ∧
         ∀ mid, plan_step (milestone_at s' id mid)
                = plan_step (milestone_at s id mid)) →
  same_terms s0 s → same_terms s0 s'.
Proof.
  intros H H0 id Hex. destruct (H0 id Hex) as (Hex1 & Ht1 & Hm1).
  destruct (H id Hex1) as (Hex2 & Ht2 & Hm2).
  split_and!; [done|congruence|]. intros mid. by rewrite Hm2.
Qed.

Lemma same_terms_stable now s0 : Stable now anything (same_terms s0).
Proof.
  split.
  - intros ev s _. apply same_terms_ext. intros id Hex.
    split_and!; same_fields.
  - intros * HI _ HP H.
    apply createCampaign_ok in H as (_ & _ & _ & _ & _ & _ & ->).
    revert HP. apply same_terms_ext. intros id Hex.
    assert (Hne : id ≠ campaignCounter s + 1).
    { intros ->. destruct (fresh_slot s HI) as [Hc0 _].
      by rewrite Hc0 in Hex. }
    split_and!; intros; storage; rewrite ?decide_False by done; try done.
    rewrite milestone_at_stored, decide_False by naive_solver. by storage.
  - intros * HI _ HP H. apply contribute_ok in H as (_ & _ & _ & ->).
    revert HP. apply same_terms_ext. intros id0 Hex.
    split_and!; same_fields.
  - intros * HI _ HP H. apply completeMilestone_ok in H as (_ & ->).
    revert HP. apply same_terms_ext. intros id0 Hex.
    split_and!; same_fields.
  - intros * HI _ HP H. apply voteOnMilestone_ok in H as (_ & ->).
    revert HP. apply same_terms_ext. intros id0 Hex.
    split_and!; same_fields. unfold add_vote. by destruct approve.
  - intros * HI _ HP _ _.
    revert HP. apply same_terms_ext. intros id0 Hex.
    split_and!; same_fields.
  - intros * HI _ HP _ _.
    revert HP. apply same_terms_ext. intros id0 Hex.
    split_and!; same_fields.
  - intros * HI _ HP _ _.
    revert HP. apply same_terms_ext. intros id0 Hex.
    split_and!; same_fields.
Qed.

(** X5: whatever transactions follow, an existing campaign keeps its
    creator, texts, goal, deadline and milestone count, and each of its
    milestones keeps its description and amount. *)
Theorem terms_are_final (s : State) (txs : list (N * Call)) (id : N)
    (Hs : reachable s) (Hex : exists_ (campaign_at s id) = true) :
  exists_ (campaign_at (run_trace txs s) id) = true ∧
  terms (campaign_at (run_trace txs s) id) = terms (campaign_at s id) ∧
  ∀ mid, plan_step (milestone_at (run_trace txs s) id mid)
         = plan_step (milestone_at s id mid).
Proof.
  assert (H0 : same_terms s s) by (by intros id0 Hex0).
  exact (run_trace_Invariant (same_terms s) txs s
           (Stable_Invariant _ (λ now, same_terms_stable now s))
           (reachable_Inv s Hs) H0 id Hex).
Qed.

Lemma terms_are_final_witness :
  exists_
    (campaign_at
       (run_trace [(600, call_releaseMilestone 1 1 0 true [])] approved) 1)
  = true ∧
  terms
    (campaign_at
       (run_trace [(600, call_releaseMilestone 1 1 0 true [])] approved) 1)
  = terms (campaign_at approved 1) ∧
  ∀ mid,
    plan_step
      (milestone_at
         (run_trace [(600, call_releaseMilestone 1 1 0 true [])] approved)
         1 mid)
    = plan_step (milestone_at approved 1 mid).
Proof.
  apply (terms_are_final approved [(600, call_releaseMilestone 1 1 0 true [])]
           1 reachable_approved).
  vm_compute. reflexivity.
Defined.

(** ** A released milestone is closed *)

Lemma closed_since_ext s0 s s' :
  (∀ id mid, released (milestone_at s id mid) = true →
             milestone_at s' id mid = milestone_at s id mid) →
  closed_since s0 s → closed_since s0 s'.
Proof.
  intros H H0 id mid Hr. specialize (H0 id mid Hr).
  rewrite <- H0. apply H. by rewrite H0.
Qed.

Lemma closed_since_stable now s0 : Stable now anything (closed_since s0).
Proof.
  split.
  - intros ev s _. apply closed_since_ext. same_fields.
  - intros * HI _ HP H.
    apply createCampaign_ok in H as (_ & _ & _ & _ & _ & _ & ->).
    revert HP. apply closed_since_ext. intros id mid Hr. storage.
    rewrite milestone_at_stored. storage. case_decide as Hd; [|done].
    destruct Hd as [-> _]. destruct (fresh_slot s HI) as [_ Hm0].
    by rewrite Hm0 in Hr.
  - intros * HI _ HP H. apply contribute_ok in H as (_ & _ & _ & ->).
    revert HP. apply closed_since_ext. same_fields.
  - intros * HI _ HP H.
    apply completeMilestone_ok in H as ((_ & _ & _ & _ & Hc & _) & ->).
    revert HP. apply closed_since_ext. intros id0 mid0 Hr. storage.
    case_decide as Hd; [|done]. destruct Hd as [-> ->].
    apply (inv_released s HI) in Hr. congruence.
  - intros * HI _ HP H.
    apply voteOnMilestone_ok in H as ((_ & _ & _ & _ & Hr0 & _) & ->).
    revert HP. apply closed_since_ext. intros id0 mid0 Hr. storage.
    case_decide as Hd; [|done]. destruct Hd as [-> ->]. congruence.
  - intros * HI _ HP (_ & _ & _ & _ & _ & Hr0 & _) _.
    revert HP. apply closed_since_ext. intros id0 mid0 Hr. storage.
    case_decide as Hd; [|done]. destruct Hd as [-> ->]. congruence.
  - intros * HI _ HP _ _. revert HP. apply closed_since_ext. same_fields.
  - intros * HI _ HP _ _. revert HP. apply closed_since_ext. same_fields.
Qed.

(** X6: once a milestone is released its record is never written again:
    flags, amount and both vote tallies stay as they were at the release. *)
Theorem released_milestone_is_closed (s : State) (txs : list (N * Call))
    (id mid : N)
    (Hs : reachable s) (Hr : released (milestone_at s id mid) = true) :
  getMilestone id mid (run_trace txs s)
  = Ok (milestone_at s id mid, run_trace txs s).
Proof.
  assert (H0 : closed_since s s) by (by intros id0 mid0 _).
  unfold getMilestone, gets. do 2 f_equal.
  exact (run_trace_Invariant (closed_since s) txs s
           (Stable_Invariant _ (λ now, closed_since_stable now s))
           (reachable_Inv s Hs) H0 id mid Hr).
Qed.

Lemma released_milestone_is_closed_witness :
  getMilestone 1 0
    (run_trace [(700, call_completeMilestone 1 1 1)]
       (step (600, call_releaseMilestone 1 1 0 true []) approved))
  = Ok (milestone_at
          (step (600, call_releaseMilestone 1 1 0 true []) approved) 1 0,
        run_trace [(700, call_completeMilestone 1 1 1)]
          (step (600, call_releaseMilestone 1 1 0 true []) approved)).
Proof.
  apply (released_milestone_is_closed
           (step (600, call_releaseMilestone 1 1 0 true []) approved)
           [(700, call_completeMilestone 1 1 1)] 1 0
           (reachable_step _ _ reachable_approved)).
  vm_compute. reflexivity.
Defined.

(** * [contribute] *)

Lemma contribution_le_sum s id a :
  contribution_at s id a ≤ sum_contributions s id.
Proof.
  unfold contribution_at, sum_contributions.
  pose proof (ledger_sum_insert (ledger_of s id) a 0). lia.
Qed.

Lemma reachable_accounted s id : reachable s → accounted s id.
Proof.
  intros [txs <-]. apply run_trace_accounted; [apply Inv_init|].
  intros id0. unfold accounted, sum_contributions, ledger_of, campaign_at.
  simpl. rewrite !lookup_empty. done.
Qed.

Lemma contribution_le_raised s id a :
  reachable s → contribution_at s id a ≤ amountRaised (campaign_at s id).
Proof.
  intros Hs. rewrite (reachable_accounted s id Hs).
  pose proof (contribution_le_sum s id a). lia.
Qed.

Lemma contribute_overflow e id s s' :
  contribute e id s = Ok (tt, s') →
  amountRaised (campaign_at s id) + msg_value e ≤ UINT256_MAX.
Proof.
  intros H. unfold contribute in H. guards H. bool_facts. storage. done.
Qed.

Lemma contribute_run e id s :
  contribute_guards e id s →
  contribution_at s id (msg_sender e) + msg_value e ≤ UINT256_MAX →
  contribute e id s = Ok (tt, credited e id s).
Proof.
  intros (Hex & Hdl & Hv & Hmax) Hentry.
  unfold contribute. unfold_body. storage. rewrite Hex.
  repeat (storage; pass). unfold credited. storage. done.
Qed.

Lemma getCampaign_existing id s :
  exists_ (campaign_at s id) = true →
  getCampaign id s = Ok (campaign_at s id, s).
Proof. intros H. unfold getCampaign. unfold_body. by rewrite H. Qed.

(** X7: in a reachable state [contribute] returns exactly when the
    campaign exists, is before its deadline, the value is not zero and the
    new total fits a word; the sender's own entry cannot overflow before
    the total does.  Nothing depends on the goal: a campaign past its goal
    keeps taking contributions.  On return the views show the credit. *)
Theorem contribute_succeeds_iff (e : Env) (id : N) (s s' : State)
    (Hs : reachable s) :
  (contribute e id s = Ok (tt, s') ↔
   contribute_guards e id s ∧ s' = credited e id s) ∧
  (contribute e id s = Ok (tt, s') →
   getContribution id (msg_sender e) s'
   = Ok (contribution_at s id (msg_sender e) + msg_value e, s') ∧
   getCampaign id s'
   = Ok (with_amountRaised
           (amountRaised (campaign_at s id) + msg_value e)
           (campaign_at s id), s') ∧
   getContractBalance s' = Ok (balance s + msg_value e, s') ∧
   (∀ id' a, ¬ (id' = id ∧ a = msg_sender e) →
             contribution_at s' id' a = contribution_at s id' a) ∧
   (∀ id', id' ≠ id → campaign_at s' id' = campaign_at s id') ∧
   (∀ id' mid, milestone_at s' id' mid = milestone_at s id' mid) ∧
   (∀ id' mid a, vote_at s' id' mid a = vote_at s id' mid a)).
Proof.
  split.
  - split.
    + intros H. pose proof (contribute_overflow _ _ _ _ H) as Hmax.
      apply contribute_ok in H as (Hex & Hdl & Hv & ->). done.
    + intros [Hg ->]. apply contribute_run; [done|].
      destruct Hg as (_ & _ & _ & Hmax).
      pose proof (contribution_le_raised s id (msg_sender e) Hs). lia.
  - intros H. apply contribute_ok in H as (Hex & Hdl & Hv & ->).
    split_and!.
    + unfold getContribution, gets. do 2 f_equal. storage.
      by rewrite decide_True.
    + rewrite getCampaign_existing; storage; rewrite ?decide_True by done;
        done.
    + done.
    + intros id' a Hne. storage. rewrite decide_False; [done|].
      intros [<- <-]. by apply Hne.
    + intros id' Hne. storage. by rewrite decide_False.
    + intros id' mid. by storage.
    + intros id' mid a. by storage.
Qed.

Lemma contribute_succeeds_iff_witness :
  (contribute (mkEnv 400 2 5) 1 funded
   = Ok (tt, credited (mkEnv 400 2 5) 1 funded) ↔
   contribute_guards (mkEnv 400 2 5) 1 funded ∧
   credited (mkEnv 400 2 5) 1 funded = credited (mkEnv 400 2 5) 1 funded) ∧
  (contribute (mkEnv 400 2 5) 1 funded
   = Ok (tt, credited (mkEnv 400 2 5) 1 funded) →
   getContribution 1 (msg_sender (mkEnv 400 2 5))
     (credited (mkEnv 400 2 5) 1 funded)
   = Ok (contribution_at funded 1 (msg_sender (mkEnv 400 2 5))
         + msg_value (mkEnv 400 2 5), credited (mkEnv 400 2 5) 1 funded) ∧
   getCampaign 1 (credited (mkEnv 400 2 5) 1 funded)
   = Ok (with_amountRaised
           (amountRaised (campaign_at funded 1) + msg_value (mkEnv 400 2 5))
           (campaign_at funded 1), credited (mkEnv 400 2 5) 1 funded) ∧
   getContractBalance (credited (mkEnv 400 2 5) 1 funded)
   = Ok (balance funded + msg_value (mkEnv 400 2 5),
         credited (mkEnv 400 2 5) 1 funded) ∧
   (∀ id' a, ¬ (id' = 1 ∧ a = msg_sender (mkEnv 400 2 5)) →
             contribution_at (credited (mkEnv 400 2 5) 1 funded) id' a
             = contribution_at funded id' a) ∧
   (∀ id', id' ≠ 1 →
           campaign_at (credited (mkEnv 400 2 5) 1 funded) id'
           = campaign_at funded id') ∧
   (∀ id' mid,
      milestone_at (credited (mkEnv 400 2 5) 1 funded) id' mid
      = milestone_at funded id' mid) ∧
   (∀ id' mid a,
      vote_at (credited (mkEnv 400 2 5) 1 funded) id' mid a
      = vote_at funded id' mid a)).
Proof.
  exact (contribute_succeeds_iff (mkEnv 400 2 5) 1 funded
           (credited (mkEnv 400 2 5) 1 funded) reachable_funded).
Defined.

(** * [withdrawFunds]: a guard that never fires *)

Ltac all_guards H :=
  repeat match type of H with
    | context [if ?b then _ else _] =>
        let G := fresh "G" in destruct b eqn:G; try discriminate H
    | context [match ?r with Some _ => _ | None => _ end] =>
        let G := fresh "G" in destruct r eqn:G; try discriminate H
    end.

(** X8: [withdrawFunds] never reverts with "No funds to withdraw": the
    check before it has already required the goal, and a goal is never
    zero. *)
Theorem withdrawFunds_never_without_funds (recv : Receiver) (e : Env)
    (id : N) (s : State) (Hs : reachable s) :
  withdrawFunds recv e id s ≠ Err (Revert "No funds to withdraw").
Proof.
  intros H. pose proof (reachable_Inv s Hs) as HI.
  unfold withdrawFunds in H. unfold_body_in H. all_guards H.
  bool_facts. pose proof (inv_goal s HI id G). lia.
Qed.

Lemma withdrawFunds_never_without_funds_witness :
  withdrawFunds plain_account (mkEnv 2592100 1 0) 1 underfunded
  ≠ Err (Revert "No funds to withdraw").
Proof.
  exact (withdrawFunds_never_without_funds plain_account
           (mkEnv 2592100 1 0) 1 underfunded reachable_underfunded).
Defined.

(** * A campaign that reached its goal *)

(** X9: once the goal is reached it stays reached: [isGoalReached] answers
    [true] from then on, no ledger entry of the campaign drops, and
    [refund] reverts whoever calls it and whatever the time. *)
Theorem goal_reached_for_good (s : State) (txs : list (N * Call)) (id : N)
    (Hs : reachable s) (Hex : exists_ (campaign_at s id) = true)
    (Hgoal : goalAmount (campaign_at s id) ≤ amountRaised (campaign_at s id)) :
  isGoalReached id (run_trace txs s) = Ok (true, run_trace txs s) ∧
  (∀ a, contribution_at s id a ≤ contribution_at (run_trace txs s) id a) ∧
  ∀ recv e,
    refund recv e id (run_trace txs s) = Err (Revert "Campaign still active")
    ∨ refund recv e id (run_trace txs s)
      = Err (Revert "Campaign was successful, no refunds").
Proof.
  destruct (run_trace_Mono txs s (reachable_Inv s Hs)) as [HI HM].
  destruct (mono_campaign _ _ HM id Hex)
    as (Hex' & _ & Hg' & _ & _ & Hr' & _).
  split_and!.
  - unfold isGoalReached. unfold_body. rewrite Hex'. do 2 f_equal.
    apply N.leb_le. lia.
  - intros a. by apply (mono_contribution _ _ HM).
  - intros recv e. unfold refund. unfold_body. rewrite Hex'.
    destruct (_ <=? _); [|by left]. right. stop. done.
Qed.

Lemma goal_reached_for_good_witness :
  isGoalReached 1
    (run_trace [(2592100, call_withdrawFunds 1 1 true [])] funded)
  = Ok (true, run_trace [(2592100, call_withdrawFunds 1 1 true [])] funded) ∧
  (∀ a,
     contribution_at funded 1 a
     ≤ contribution_at
         (run_trace [(2592100, call_withdrawFunds 1 1 true [])] funded) 1 a) ∧
  ∀ recv e,
    refund recv e 1
      (run_trace [(2592100, call_withdrawFunds 1 1 true [])] funded)
    = Err (Revert "Campaign still active")
    ∨ refund recv e 1
        (run_trace [(2592100, call_withdrawFunds 1 1 true [])] funded)
      = Err (Revert "Campaign was successful, no refunds").
Proof.
  apply (goal_reached_for_good funded
           [(2592100, call_withdrawFunds 1 1 true [])] 1 reachable_funded).
  - vm_compute. reflexivity.
  - vm_compute. discriminate.
Defined.

(** * One way out for the funds of a campaign *)

Lemma LumpOnly_ext s s' :
  (∀ id, withdrawn (campaign_at s' id) = true →
         withdrawn (campaign_at s id) = true ∧
         milestoneCount (campaign_at s' id)
         = milestoneCount (campaign_at s id)) →
  LumpOnly s → LumpOnly s'.
Proof. intros H H0 id Hw. destruct (H id Hw) as [Hw' ->]. by apply H0. Qed.

Lemma LumpOnly_stable now : Stable now anything LumpOnly.
Proof.
  split.
  - intros ev s _. apply LumpOnly_ext. same_fields.
  - intros * HI _ HP H.
    apply createCampaign_ok in H as (_ & _ & _ & _ & _ & _ & ->).
    intros id. storage. case_decide; [done|]. apply HP.
  - intros * HI _ HP H. apply contribute_ok in H as (_ & _ & _ & ->).
    revert HP. apply LumpOnly_ext. same_fields.
  - intros * HI _ HP H. apply completeMilestone_ok in H as (_ & ->).
    revert HP. apply LumpOnly_ext. same_fields.
  - intros * HI _ HP H. apply voteOnMilestone_ok in H as (_ & ->).
    revert HP. apply LumpOnly_ext. same_fields.
  - intros * HI _ HP _ _. revert HP. apply LumpOnly_ext. same_fields.
  - intros * HI _ HP (_ & _ & _ & _ & _ & _ & Hn) _ id0. storage.
    case_decide; [by subst|]. apply HP.
  - intros * HI _ HP _ _. revert HP. apply LumpOnly_ext. same_fields.
Qed.

Lemma reachable_LumpOnly s : reachable s → LumpOnly s.
Proof.
  intros [txs <-].
  apply run_trace_Invariant;
    [apply Stable_Invariant, LumpOnly_stable|apply Inv_init|].
  intros id H. unfold campaign_at in H. simpl in H.
  by rewrite lookup_empty in H.
Qed.

(** X10: how a campaign pays out is settled when it is created.  With a
    plan, [withdrawFunds] reverts for ever and the campaign is never marked
    withdrawn; without one, the three milestone functions revert for ever
    and no milestone record is ever written. *)
Theorem payout_path_is_fixed (s : State) (txs : list (N * Call)) (id : N)
    (Hs : reachable s) (Hex : exists_ (campaign_at s id) = true) :
  let s' := run_trace txs s in
  (0 < milestoneCount (campaign_at s id) →
   withdrawn (campaign_at s' id) = false ∧
   ∀ recv e, is_ok (withdrawFunds recv e id s') = false) ∧
  (milestoneCount (campaign_at s id) = 0 →
   (∀ mid, milestone_at s' id mid = Milestone0) ∧
   ∀ recv e mid approve,
     is_ok (completeMilestone e id mid s') = false ∧
     is_ok (voteOnMilestone e id mid approve s') = false ∧
     is_ok (releaseMilestone recv e id mid s') = false).
Proof.
  intros s'.
  assert (Hs' : reachable s').
  { destruct Hs as [txs0 <-]. exists (txs0 ++ txs).
    unfold s', run_trace. by rewrite foldl_app. }
  destruct (run_trace_Mono txs s (reachable_Inv s Hs)) as [HI HM].
  fold s' in HI, HM.
  destruct (mono_campaign _ _ HM id Hex)
    as (Hex' & _ & _ & _ & Hn' & _ & _).
  split.
  - intros Hpos.
    assert (Hw : withdrawn (campaign_at s' id) = false).
    { destruct (withdrawn (campaign_at s' id)) eqn:Hw; [|done].
      apply (reachable_LumpOnly s' Hs') in Hw. lia. }
    split; [done|]. intros recv e.
    destruct (withdrawFunds recv e id s') as [[[] t]|] eqn:E; [|done].
    apply withdrawFunds_ok in E as ((_ & _ & _ & _ & _ & _ & Hn) & _). lia.
  - intros Hzero. split.
    + intros mid. apply (inv_bounds s' HI). lia.
    + intros recv e mid approve. split_and!.
      * destruct (completeMilestone e id mid s') as [[[] t]|] eqn:E; [|done].
        apply completeMilestone_ok in E as ((_ & _ & Hm & _) & _). lia.
      * destruct (voteOnMilestone e id mid approve s') as [[[] t]|] eqn:E;
          [|done].
        apply voteOnMilestone_ok in E as ((_ & _ & Hm & _) & _). lia.
      * destruct (releaseMilestone recv e id mid s') as [[[] t]|] eqn:E;
          [|done].
        apply releaseMilestone_ok in E as ((_ & _ & Hm & _) & _). lia.
Qed.

Lemma payout_path_is_fixed_witness :
  let s' := run_trace [(2592100, call_withdrawFunds 1 1 true [])] approved in
  (0 < milestoneCount (campaign_at approved 1) →
   withdrawn (campaign_at s' 1) = false ∧
   ∀ recv e, is_ok (withdrawFunds recv e 1 s') = false) ∧
  (milestoneCount (campaign_at approved 1) = 0 →
   (∀ mid, milestone_at s' 1 mid = Milestone0) ∧
   ∀ recv e mid approve,
     is_ok (completeMilestone e 1 mid s') = false ∧
     is_ok (voteOnMilestone e 1 mid approve s') = false ∧
     is_ok (releaseMilestone recv e 1 mid s') = false).
Proof.
  apply (payout_path_is_fixed approved
           [(2592100, call_withdrawFunds 1 1 true [])] 1 reachable_approved).
  vm_compute. reflexivity.
Defined.

(** * Conservation of value *)

Lemma received_app evs ev :
  received (evs ++ [ev]) = received evs + value_in ev.
Proof.
  unfold received. induction evs as [|e evs IH]; simpl; [lia|].
  rewrite IH. lia.
Qed.

Lemma paid_out_app evs ev :
  paid_out (evs ++ [ev]) = paid_out evs + value_out ev.
Proof.
  unfold paid_out. induction evs as [|e evs IH]; simpl; [lia|].
  rewrite IH. lia.
Qed.

Lemma unlogged_log_event ev s :
  unlogged (log_event ev s)
  = (unlogged s + Z.of_N (value_out ev) - Z.of_N (value_in ev))%Z.
Proof.
  unfold unlogged. simpl. rewrite received_app, paid_out_app. lia.
Qed.

Lemma unlogged_frame s s' :
  balance s' = balance s → events s' = events s → unlogged s' = unlogged s.
Proof. unfold unlogged. by intros -> ->. Qed.

Lemma unlogged_debit amt s :
  amt ≤ balance s → unlogged (debit amt s) = (unlogged s - Z.of_N amt)%Z.
Proof. intros H. unfold unlogged, debit. simpl. lia. Qed.

Lemma exec_Conserves now c s s' : exec now c s = Ok s' → Conserves s s'.
Proof.
  revert s s'. apply exec_within; unfold Conserves.
  - done.
  - intros s t u H1 H2. congruence.
  - intros * H.
    apply createCampaign_ok in H as (_ & _ & _ & _ & _ & _ & ->).
    rewrite unlogged_log_event. simpl.
    rewrite (unlogged_frame s); [lia| |].
    + simpl. by destruct (stored_frame (campaignCounter s + 1) descs amts 0
        (set_campaign (campaignCounter s + 1)
           (new_campaign (mkEnv now from 0) ttl desc cat img goal days descs)
           (set_campaignCounter (campaignCounter s + 1) s)))
        as (_ & _ & _ & _ & _ & -> & _).
    + simpl. by rewrite events_stored.
  - intros * H. apply contribute_ok in H as (_ & _ & _ & ->).
    rewrite unlogged_log_event. unfold unlogged. simpl. lia.
  - intros * H. apply completeMilestone_ok in H as (_ & ->).
    rewrite unlogged_log_event. simpl. unfold unlogged. simpl. lia.
  - intros * H. apply voteOnMilestone_ok in H as (_ & ->).
    rewrite unlogged_log_event. simpl. unfold unlogged. simpl. lia.
  - intros recv from id mid s s' Hrecv H.
    apply releaseMilestone_ok in H as (_ & Hbal & t' & Ht' & ->).
    rewrite unlogged_log_event, (Hrecv _ _ _ _ Ht'), unlogged_debit by done.
    simpl. unfold unlogged. simpl. lia.
  - intros recv from id s s' Hrecv H.
    apply withdrawFunds_ok in H as (_ & Hbal & t' & Ht' & ->).
    rewrite unlogged_log_event, (Hrecv _ _ _ _ Ht'), unlogged_debit by done.
    simpl. unfold unlogged. simpl. lia.
  - intros recv from id s s' Hrecv H.
    apply refund_ok in H as (_ & Hbal & t' & Ht' & ->).
    rewrite unlogged_log_event, (Hrecv _ _ _ _ Ht'), unlogged_debit by done.
    simpl. unfold unlogged. simpl. lia.
Qed.

Lemma reachable_open_closed s : reachable s → reachable_open 0 s.
Proof.
  intros [txs <-]. induction txs as [|tx txs IH] using rev_ind.
  - exact (open_init 0).
  - rewrite run_trace_snoc. by apply open_step.
Qed.

Lemma unlogged_open forced s :
  reachable_open forced s → unlogged s = Z.of_N forced.
Proof.
  induction 1 as [b|forced [now c] s _ IH|forced x s _ IH].
  - unfold unlogged. simpl. lia.
  - unfold step. simpl. destruct (exec now c s) as [s'|] eqn:E; [|done].
    apply exec_Conserves in E. unfold Conserves in E. lia.
  - unfold unlogged, credit in *. simpl in *. lia.
Qed.

(** X11: the balance is what the log says was contributed, less what the
    log says was released, withdrawn and refunded, plus what reached the
    address without a call: value comes in through [contribute] only,
    apart from what is forced in, and every payment out is logged with
    its amount, also when the payee calls back into the contract.  So
    the balance is never less than contributions less payments. *)
Theorem balance_is_in_minus_out (forced : N) (s : State)
    (Hs : reachable_open forced s) :
  getContractBalance s = Ok (balance s, s) ∧
  balance s + paid_out (events s) = received (events s) + forced ∧
  received (events s) ≤ balance s + paid_out (events s).
Proof.
  split; [done|]. pose proof (unlogged_open forced s Hs) as H.
  unfold unlogged in H. lia.
Qed.

Lemma balance_is_in_minus_out_witness :
  getContractBalance survey_paid_credited
  = Ok (balance survey_paid_credited, survey_paid_credited) ∧
  balance survey_paid_credited + paid_out (events survey_paid_credited)
  = received (events survey_paid_credited) + (0 + 3) ∧
  received (events survey_paid_credited)
  ≤ balance survey_paid_credited + paid_out (events survey_paid_credited).
Proof.
  apply (balance_is_in_minus_out (0 + 3) survey_paid_credited).
  apply open_credit, reachable_open_closed.
  exact (reachable_step _ _ reachable_approved).
Defined.

(** * Who can move the flags of a campaign *)

Lemma Spared_intro now id cr s s' :
  Keeps now s s' →
  (Inv s → exists_ (campaign_at s id) = true →
   creator (campaign_at s id) = cr → same_flags id s s') →
  Spared id cr s s'.
Proof.
  intros HK Hf HI Hex Hcr. destruct (HK HI) as (HI' & HM & _).
  destruct (mono_campaign _ _ HM id Hex) as (Hex' & Hc' & _).
  split_and!; [done|done|congruence|by apply Hf].
Qed.

Lemma Spared_refl id cr s : Spared id cr s s.
Proof. intros HI Hex Hcr. by split_and!. Qed.

Lemma Spared_trans id cr s t u :
  Spared id cr s t → Spared id cr t u → Spared id cr s u.
Proof.
  intros H1 H2 HI Hex Hcr.
  destruct (H1 HI Hex Hcr) as (HIt & Hext & Hcrt & Hw1 & Hm1).
  destruct (H2 HIt Hext Hcrt) as (HIu & Hexu & Hcru & Hw2 & Hm2).
  split_and!; [done|done|done|].
  split; [congruence|].
  intros mid. destruct (Hm1 mid), (Hm2 mid). split; congruence.
Qed.

Lemma run_with_Spared now id cr cs :
  Forall (λ c, cr ∉ callers c →
               ∀ s s', exec now c s = Ok s' → Spared id cr s s') cs →
  cr ∉ callers_of cs →
  ∀ s, Spared id cr s (run_with (exec now) cs s).
Proof.
  induction 1 as [|c rest Hc _ IH]; intros Hnot s; simpl;
    [apply Spared_refl|].
  unfold callers_of in Hnot. simpl in Hnot.
  apply not_elem_of_app in Hnot as [Hn1 Hn2].
  destruct (exec now c s) as [s1|e] eqn:E; [|by apply IH].
  eapply Spared_trans; [by eapply Hc|by apply IH].
Qed.

Lemma exec_Spared now id cr c :
  cr ∉ callers c → ∀ s s', exec now c s = Ok s' → Spared id cr s s'.
Proof.
  induction c as
    [from ttl desc cat img goal days descs amts
    |from value id0|from id0 mid0|from id0 mid0 approve
    |from id0 mid0 accepts reenters IH
    |from id0 accepts reenters IH
    |from id0 accepts reenters IH] using Call_nested_ind;
    intros Hnot s s' E; simpl in E; unfold state_of in E.
  - destruct (createCampaign _ _ _ _ _ _ _ _ _ _) as [[r t]|] eqn:E';
      [|discriminate]. injection E as <-.
    apply (Spared_intro now); [by eapply Keeps_createCampaign|].
    intros HI Hex Hcr.
    apply createCampaign_ok in E' as (_ & _ & _ & _ & _ & _ & ->).
    assert (Hne : id ≠ campaignCounter s + 1).
    { intros ->. destruct (fresh_slot s HI) as [Hc0 _].
      by rewrite Hc0 in Hex. }
    split; intros; storage; rewrite ?decide_False by done; try done.
    rewrite milestone_at_stored, decide_False by naive_solver. by storage.
  - destruct (contribute _ _ _) as [[[] t]|] eqn:E'; [|discriminate].
    injection E as <-.
    apply (Spared_intro now); [by eapply Keeps_contribute|]. intros _ _ _.
    apply contribute_ok in E' as (_ & _ & _ & ->).
    split; same_fields.
  - destruct (completeMilestone _ _ _ _) as [[[] t]|] eqn:E';
      [|discriminate]. injection E as <-.
    apply (Spared_intro now); [by eapply Keeps_completeMilestone|].
    intros HI Hex Hcr.
    apply completeMilestone_ok in E' as ((_ & Hfrom & _) & ->).
    simpl in Hfrom, Hnot.
    assert (Hne : id0 ≠ id).
    { intros ->. apply Hnot. rewrite Hfrom, Hcr.
      by apply list_elem_of_singleton. }
    split; intros; storage; rewrite ?decide_False by naive_solver; done.
  - destruct (voteOnMilestone _ _ _ _ _) as [[[] t]|] eqn:E';
      [|discriminate]. injection E as <-.
    apply (Spared_intro now); [by eapply Keeps_voteOnMilestone|]. intros _ _ _.
    apply voteOnMilestone_ok in E' as (_ & ->).
    split; same_fields; unfold add_vote; by destruct approve.
  - destruct (releaseMilestone _ _ _ _ _) as [[[] t]|] eqn:E';
      [|discriminate]. injection E as <-.
    apply releaseMilestone_ok in E' as (Hg & Hbal & t' & Ht' & ->).
    simpl in Hnot. apply not_elem_of_cons in Hnot as [Hfrom Hnot].
    unfold payee_code in Ht'. destruct accepts; [|discriminate].
    injection Ht' as <-.
    eapply Spared_trans; [|eapply Spared_trans].
    + apply (Spared_intro now); [by eapply Keeps_mark_released|].
      intros HI Hex Hcr. destruct Hg as (_ & Hf & _). simpl in Hf.
      assert (Hne : id0 ≠ id) by (intros ->; congruence).
      unfold debit.
      split; intros; storage; rewrite ?decide_False by naive_solver; done.
    + by apply run_with_Spared.
    + apply (Spared_intro now); [apply Keeps_log_event|]. intros _ _ _.
      split; same_fields.
  - destruct (withdrawFunds _ _ _ _) as [[[] t]|] eqn:E'; [|discriminate].
    injection E as <-.
    apply withdrawFunds_ok in E' as (Hg & Hbal & t' & Ht' & ->).
    simpl in Hnot. apply not_elem_of_cons in Hnot as [Hfrom Hnot].
    unfold payee_code in Ht'. destruct accepts; [|discriminate].
    injection Ht' as <-.
    eapply Spared_trans; [|eapply Spared_trans].
    + apply (Spared_intro now); [by eapply Keeps_mark_withdrawn|].
      intros HI Hex Hcr. destruct Hg as (_ & _ & Hf & _). simpl in Hf.
      assert (Hne : id0 ≠ id) by (intros ->; congruence).
      unfold debit.
      split; intros; storage; rewrite ?decide_False by naive_solver; done.
    + by apply run_with_Spared.
    + apply (Spared_intro now); [apply Keeps_log_event|]. intros _ _ _.
      split; same_fields.
  - destruct (refund _ _ _ _) as [[[] t]|] eqn:E'; [|discriminate].
    injection E as <-.
    apply refund_ok in E' as (Hg & Hbal & t' & Ht' & ->).
    simpl in Hnot. apply not_elem_of_cons in Hnot as [Hfrom Hnot].
    unfold payee_code in Ht'. destruct accepts; [|discriminate].
    injection Ht' as <-.
    eapply Spared_trans; [|eapply Spared_trans].
    + apply (Spared_intro now); [by eapply Keeps_zero_contribution|].
      intros _ _ _. unfold debit. split; same_fields.
    + by apply run_with_Spared.
    + apply (Spared_intro now); [apply Keeps_log_event|]. intros _ _ _.
      split; same_fields.
Qed.

(** X12: a call made by anyone but the creator of a campaign, whatever
    calls are made from inside it by others than the creator, leaves the
    campaign's [withdrawn] flag and the [completed] and [released] flags of
    its milestones as they were. *)
Theorem only_the_creator_moves_the_flags (now : N) (c : Call)
    (s s' : State) (id : N)
    (Hs : reachable s) (Hex : exists_ (campaign_at s id) = true)
    (Hnot : creator (campaign_at s id) ∉ callers c)
    (E : exec now c s = Ok s') :
  creator (campaign_at s' id) = creator (campaign_at s id) ∧
  withdrawn (campaign_at s' id) = withdrawn (campaign_at s id) ∧
  ∀ mid,
    completed (milestone_at s' id mid) = completed (milestone_at s id mid) ∧
    released (milestone_at s' id mid) = released (milestone_at s id mid).
Proof.
  destruct (exec_Spared now id _ c Hnot s s' E (reachable_Inv s Hs) Hex
              eq_refl) as (_ & _ & Hcr & Hw & Hm).
  done.
Qed.

Lemma only_the_creator_moves_the_flags_witness :
  creator
    (campaign_at
       (step (2592100, call_refund 2 1 true [call_withdrawFunds 2 1 true []])
          underfunded) 1)
  = creator (campaign_at underfunded 1) ∧
  withdrawn
    (campaign_at
       (step (2592100, call_refund 2 1 true [call_withdrawFunds 2 1 true []])
          underfunded) 1)
  = withdrawn (campaign_at underfunded 1) ∧
  ∀ mid,
    completed
      (milestone_at
         (step (2592100,
                call_refund 2 1 true [call_withdrawFunds 2 1 true []])
            underfunded) 1 mid)
    = completed (milestone_at underfunded 1 mid) ∧
    released
      (milestone_at
         (step (2592100,
                call_refund 2 1 true [call_withdrawFunds 2 1 true []])
            underfunded) 1 mid)
    = released (milestone_at underfunded 1 mid).
Proof.
  apply (only_the_creator_moves_the_flags 2592100
           (call_refund 2 1 true [call_withdrawFunds 2 1 true []])
           underfunded
           (step (2592100,
                  call_refund 2 1 true [call_withdrawFunds 2 1 true []])
              underfunded) 1 reachable_underfunded).
  - vm_compute. reflexivity.
  - apply (bool_decide_unpack _). vm_compute. exact I.
  - vm_compute. reflexivity.
Defined.

(** * Solvency: what the contract holds against what it owes *)

(** ** Sums *)

Lemma sum_upto_ext f g n :
  (∀ i, (i < n)%nat → f i = g i) → sum_upto f n = sum_upto g n.
Proof.
  induction n as [|n IH]; intros H; simpl; [done|].
  rewrite IH by (intros; apply H; lia). rewrite H by lia. done.
Qed.

Lemma sum_upto_change f g n k :
  (k < n)%nat → (∀ i, (i < n)%nat → i ≠ k → g i = f i) →
  sum_upto g n = (sum_upto f n + (g k - f k))%Z.
Proof.
  induction n as [|n IH]; intros Hk H; simpl; [lia|].
  destruct (decide (k = n)) as [->|Hne].
  - rewrite (sum_upto_ext g f n) by (intros; apply H; lia). lia.
  - rewrite IH by (try lia; intros; apply H; lia).
    rewrite (H n) by lia. lia.
Qed.

Lemma sum_upto_nonneg f n :
  (∀ i, (i < n)%nat → (0 ≤ f i)%Z) → (0 ≤ sum_upto f n)%Z.
Proof.
  induction n as [|n IH]; intros H; simpl; [lia|].
  specialize (H n ltac:(lia)) as Hn.
  assert (0 ≤ sum_upto f n)%Z by (apply IH; intros; apply H; lia). lia.
Qed.

Lemma sum_upto_member f n k :
  (∀ i, (i < n)%nat → (0 ≤ f i)%Z) → (k < n)%nat →
  (f k ≤ sum_upto f n)%Z.
Proof.
  induction n as [|n IH]; intros H Hk; simpl; [lia|].
  assert (0 ≤ sum_upto f n)%Z by (apply sum_upto_nonneg; intros; apply H; lia).
  specialize (H n ltac:(lia)) as Hn.
  destruct (decide (k = n)) as [->|Hne]; [lia|].
  assert (f k ≤ sum_upto f n)%Z by (apply IH; [intros; apply H|]; lia). lia.
Qed.

Lemma sum_upto_le f g n :
  (∀ i, (i < n)%nat → (f i ≤ g i)%Z) → (sum_upto f n ≤ sum_upto g n)%Z.
Proof.
  induction n as [|n IH]; intros H; simpl; [lia|].
  specialize (H n ltac:(lia)) as Hn.
  assert (sum_upto f n ≤ sum_upto g n)%Z by (apply IH; intros; apply H; lia).
  lia.
Qed.

Lemma total_of_snoc l x : total_of (l ++ [x]) = total_of l + x.
Proof.
  unfold total_of. induction l as [|y l IH]; simpl; [lia|]. rewrite IH. lia.
Qed.

Lemma total_of_sum_upto (g : nat → N) n :
  Z.of_N (total_of (g <$> seq 0 n)) = sum_upto (λ i, Z.of_N (g i)) n.
Proof.
  induction n as [|n IH]; [done|].
  rewrite seq_S, fmap_app. change (g <$> [(0 + n)%nat]) with [g n].
  rewrite total_of_snoc. simpl. lia.
Qed.

Lemma ledger_sum_zero (m : gmap N N) :
  (∀ a, default 0 (m !! a) = 0) → ledger_sum m = 0.
Proof.
  induction m as [|a v m Hnone IH] using map_ind; intros H; [done|].
  rewrite ledger_sum_insert_fresh by done.
  pose proof (H a) as Ha. rewrite lookup_insert_eq in Ha. simpl in Ha.
  rewrite IH; [lia|]. intros b. destruct (decide (a = b)) as [->|Hne].
  - by rewrite Hnone.
  - specialize (H b). by rewrite lookup_insert_ne in H.
Qed.

(** ** How the writes move what is owed *)

Lemma owed_eq s id :
  owed s id
  = (Z.of_N (sum_contributions s id) - paid_lump s id
     - released_total s id)%Z.
Proof. done. Qed.

Lemma released_total_ext s s' id :
  milestoneCount (campaign_at s' id) = milestoneCount (campaign_at s id) →
  (∀ mid, released (milestone_at s' id mid) = released (milestone_at s id mid)
          ∧ amount (milestone_at s' id mid) = amount (milestone_at s id mid)) →
  released_total s' id = released_total s id.
Proof.
  intros Hn Hm. unfold released_total. rewrite Hn.
  apply sum_upto_ext. intros i _. simpl.
  by destruct (Hm (N.of_nat i)) as [-> ->].
Qed.

Lemma owed_ext s s' id :
  ledger_of s' id = ledger_of s id →
  paid_lump s' id = paid_lump s id →
  released_total s' id = released_total s id →
  owed s' id = owed s id.
Proof.
  intros Hl Hp Hr. rewrite !owed_eq, Hp, Hr. unfold sum_contributions.
  by rewrite Hl.
Qed.

Lemma liabilities_ext s s' :
  campaignCounter s' = campaignCounter s →
  (∀ id, owed s' id = owed s id) → liabilities s' = liabilities s.
Proof.
  intros Hc Ho. unfold liabilities. rewrite Hc.
  apply sum_upto_ext. intros i _. apply Ho.
Qed.

Lemma liabilities_change s s' id0 :
  campaignCounter s' = campaignCounter s →
  1 ≤ id0 ≤ campaignCounter s →
  (∀ id, id ≠ id0 → owed s' id = owed s id) →
  liabilities s' = (liabilities s + (owed s' id0 - owed s id0))%Z.
Proof.
  intros Hc Hid Ho. unfold liabilities. rewrite Hc.
  rewrite (sum_upto_change (λ i, owed s (N.of_nat (S i)))
             (λ i, owed s' (N.of_nat (S i))) _ (N.to_nat id0 - 1)).
  - replace (N.of_nat (S (N.to_nat id0 - 1))) with id0 by lia. done.
  - lia.
  - intros i Hi Hne. apply Ho. lia.
Qed.

Lemma Clocked_ext clock s s' :
  (∀ id, exists_ (campaign_at s' id) = true →
         exists_ (campaign_at s id) = true ∧
         sum_contributions s' id = sum_contributions s id ∧
         amountRaised (campaign_at s' id) = amountRaised (campaign_at s id) ∧
         goalAmount (campaign_at s' id) = goalAmount (campaign_at s id) ∧
         deadline (campaign_at s' id) = deadline (campaign_at s id) ∧
         withdrawn (campaign_at s' id) = withdrawn (campaign_at s id)) →
  Clocked clock s → Clocked clock s'.
Proof.
  intros H HC id Hex. destruct (H id Hex) as (Hex0 & -> & -> & -> & -> & ->).
  by apply HC.
Qed.

Lemma Clocked_later clock clock' s :
  clock ≤ clock' → Clocked clock s → Clocked clock' s.
Proof.
  intros Hle HC id Hex. destruct (HC id Hex) as [H1 H2]. split.
  - destruct H1 as [H1|[H1 H1']]; [by left|right; split; [lia|done]].
  - intros Hw. destruct (H2 Hw). split; [lia|done].
Qed.

(** A write that leaves ledgers, campaigns' amounts and flags, and the
    milestones' amounts and release flags alone. *)
Lemma Solvent_frame clock forced s s' :
  campaignCounter s' = campaignCounter s → balance s' = balance s →
  (∀ id, ledger_of s' id = ledger_of s id) →
  (∀ id, exists_ (campaign_at s' id) = exists_ (campaign_at s id) ∧
         amountRaised (campaign_at s' id) = amountRaised (campaign_at s id) ∧
         goalAmount (campaign_at s' id) = goalAmount (campaign_at s id) ∧
         deadline (campaign_at s' id) = deadline (campaign_at s id) ∧
         withdrawn (campaign_at s' id) = withdrawn (campaign_at s id) ∧
         milestoneCount (campaign_at s' id)
         = milestoneCount (campaign_at s id)) →
  (∀ id mid,
     released (milestone_at s' id mid) = released (milestone_at s id mid) ∧
     amount (milestone_at s' id mid) = amount (milestone_at s id mid)) →
  Solvent clock forced s → Solvent clock forced s'.
Proof.
  intros Hc Hb Hl Hcamp Hm [HC HS]. split.
  - revert HC. apply Clocked_ext. intros id Hex.
    destruct (Hcamp id) as (He & Hr & Hg & Hd & Hw & Hn).
    unfold sum_contributions. rewrite Hl.
    split_and!; congruence.
  - rewrite Hb, HS. f_equal. symmetry. apply liabilities_ext; [done|].
    intros id. destruct (Hcamp id) as (He & Hr & Hg & Hd & Hw & Hn).
    apply owed_ext; [done| |by apply released_total_ext].
    unfold paid_lump. by rewrite Hw, Hr.
Qed.

(** A write to one campaign that moves the balance and what is owed to
    that campaign by the same amount. *)
Lemma Solvent_move clock forced s s' id0 (d : Z) :
  campaignCounter s' = campaignCounter s →
  1 ≤ id0 ≤ campaignCounter s →
  Z.of_N (balance s') = (Z.of_N (balance s) + d)%Z →
  (∀ id, id ≠ id0 →
         ledger_of s' id = ledger_of s id ∧
         campaign_at s' id = campaign_at s id ∧
         ∀ mid, milestone_at s' id mid = milestone_at s id mid) →
  owed s' id0 = (owed s id0 + d)%Z →
  (exists_ (campaign_at s' id0) = true →
   (sum_contributions s' id0 = amountRaised (campaign_at s' id0) ∨
    (deadline (campaign_at s' id0) ≤ clock ∧
     amountRaised (campaign_at s' id0) < goalAmount (campaign_at s' id0))) ∧
   (withdrawn (campaign_at s' id0) = true →
    deadline (campaign_at s' id0) ≤ clock ∧
    goalAmount (campaign_at s' id0) ≤ amountRaised (campaign_at s' id0))) →
  Solvent clock forced s → Solvent clock forced s'.
Proof.
  intros Hc Hid Hb Hothers Howed Hclock [HC HS]. split.
  - intros id Hex. destruct (decide (id = id0)) as [->|Hne]; [by apply Hclock|].
    destruct (Hothers id Hne) as (Hl & Hcamp & _).
    unfold sum_contributions. rewrite Hl, Hcamp. apply HC.
    by rewrite <- Hcamp.
  - rewrite Hb, HS, (liabilities_change s s' id0), Howed; [lia|done|done|].
    intros id Hne. destruct (Hothers id Hne) as (Hl & Hcamp & Hm).
    apply owed_ext; [done|unfold paid_lump; by rewrite Hcamp|].
    apply released_total_ext; [by rewrite Hcamp|].
    intros mid. by rewrite Hm.
Qed.

Lemma sum_upto_zero f n :
  (∀ i, (i < n)%nat → f i = 0%Z) → sum_upto f n = 0%Z.
Proof.
  induction n as [|n IH]; intros H; simpl; [done|].
  rewrite IH by (intros; apply H; lia). rewrite H by lia. done.
Qed.

Lemma Solvent_createCampaign now forced from ttl desc cat img goal days descs
    amts s r s' :
  Inv s → Sound s → Solvent now forced s →
  createCampaign (mkEnv now from 0) ttl desc cat img goal days descs amts s
  = Ok (r, s') →
  Solvent now forced s'.
Proof.
  intros HI ((HR & HU) & _) [HC HS] H.
  apply createCampaign_ok in H as (Hg & _ & _ & _ & _ & _ & ->).
  destruct (fresh_slot s HI) as [Hc0 Hm0].
  set (nid := campaignCounter s + 1) in *.
  set (c := new_campaign (mkEnv now from 0) ttl desc cat img goal days descs).
  set (s1 := stored nid descs amts 0
               (set_campaign nid c (set_campaignCounter nid s))).
  set (s2 := log_event _ (push_campaignId nid s1)).
  assert (Hcamp : ∀ id,
    campaign_at s2 id = if decide (nid = id) then c else campaign_at s id).
  { intros. unfold s2, s1. by storage. }
  assert (Hled : ∀ id, ledger_of s2 id = ledger_of s id).
  { intros. unfold s2, s1. by storage. }
  assert (Hmil : ∀ id mid, id ≠ nid →
    milestone_at s2 id mid = milestone_at s id mid).
  { intros. unfold s2, s1. storage.
    rewrite milestone_at_stored, decide_False by naive_solver. by storage. }
  assert (Hrel : ∀ mid, released (milestone_at s2 nid mid) = false).
  { intros. unfold s2, s1. storage. rewrite milestone_at_stored.
    case_decide; [done|]. storage. by rewrite Hm0. }
  assert (Hcnt : campaignCounter s2 = nid).
  { unfold s2, s1. by storage. }
  assert (Hbal : balance s2 = balance s).
  { unfold s2, s1. simpl.
    by destruct (stored_frame nid descs amts 0
                   (set_campaign nid c (set_campaignCounter nid s)))
      as (_ & _ & _ & _ & _ & -> & _). }
  assert (Hun : exists_ (campaign_at s nid) = false) by (by rewrite Hc0).
  assert (Hzero : sum_contributions s nid = 0).
  { apply ledger_sum_zero. intros a. apply (HU nid Hun). }
  split.
  - intros id. rewrite Hcamp. unfold sum_contributions. rewrite Hled.
    destruct (decide (nid = id)) as [<-|Hne]; [|apply HC].
    intros _. split; [by left|done].
  - rewrite Hbal, HS. unfold liabilities. rewrite Hcnt.
    replace (N.to_nat nid) with (S (N.to_nat (campaignCounter s)))
      by (unfold nid; lia).
    simpl sum_upto.
    replace (N.of_nat (S (N.to_nat (campaignCounter s)))) with nid
      by (unfold nid; lia).
    assert (Hnew : owed s2 nid = 0%Z).
    { rewrite owed_eq. unfold paid_lump, sum_contributions, released_total.
      rewrite Hled, Hcamp, decide_True by done.
      fold (sum_contributions s nid). rewrite Hzero.
      rewrite sum_upto_zero; [done|].
      intros i _. simpl. by rewrite Hrel. }
    rewrite Hnew, Z.add_0_r. f_equal. apply sum_upto_ext. intros i Hi.
    assert (Hne : N.of_nat (S i) ≠ nid) by (unfold nid; lia).
    apply eq_sym, owed_ext.
    + apply Hled.
    + unfold paid_lump. rewrite Hcamp, decide_False by done. done.
    + apply released_total_ext.
      * rewrite Hcamp, decide_False by done. done.
      * intros mid. by rewrite Hmil.
Qed.

Lemma owed_frame s s' id :
  ledger_of s' id = ledger_of s id →
  campaign_at s' id = campaign_at s id →
  (∀ mid, milestone_at s' id mid = milestone_at s id mid) →
  owed s' id = owed s id.
Proof.
  intros Hl Hc Hm. apply owed_ext; [done|unfold paid_lump; by rewrite Hc|].
  apply released_total_ext; [by rewrite Hc|]. intros mid. by rewrite Hm.
Qed.

Lemma owed_set_contribution id a v s :
  owed (set_contribution id a v s) id
  = (owed s id + Z.of_N v - Z.of_N (contribution_at s id a))%Z.
Proof.
  rewrite !owed_eq.
  assert (paid_lump (set_contribution id a v s) id = paid_lump s id) as ->
    by (unfold paid_lump; by storage).
  assert (released_total (set_contribution id a v s) id = released_total s id)
    as -> by (apply released_total_ext; intros; by storage).
  unfold sum_contributions. storage. rewrite decide_True by done.
  pose proof (ledger_sum_insert (ledger_of s id) a v) as Hs.
  unfold contribution_at. lia.
Qed.

Lemma owed_set_amountRaised id r s :
  withdrawn (campaign_at s id) = false →
  owed (update_campaign id (with_amountRaised r) s) id = owed s id.
Proof.
  intros Hw. apply owed_ext.
  - by storage.
  - unfold paid_lump. storage. rewrite decide_True by done. simpl.
    by rewrite Hw.
  - apply released_total_ext; same_fields.
Qed.

Lemma owed_mark_withdrawn id s :
  withdrawn (campaign_at s id) = false →
  owed (update_campaign id (with_withdrawn true) s) id
  = (owed s id - Z.of_N (amountRaised (campaign_at s id)))%Z.
Proof.
  intros Hw. rewrite !owed_eq.
  assert (released_total (update_campaign id (with_withdrawn true) s) id
          = released_total s id) as ->
    by (apply released_total_ext; same_fields).
  unfold paid_lump, sum_contributions. storage.
  rewrite !decide_True by done. simpl. rewrite Hw. lia.
Qed.

Lemma owed_mark_released id mid s :
  mid < milestoneCount (campaign_at s id) →
  released (milestone_at s id mid) = false →
  owed (update_milestone id mid (with_released true) s) id
  = (owed s id - Z.of_N (amount (milestone_at s id mid)))%Z.
Proof.
  intros Hmid Hr. rewrite !owed_eq.
  assert (paid_lump (update_milestone id mid (with_released true) s) id
          = paid_lump s id) as -> by (unfold paid_lump; by storage).
  assert (sum_contributions (update_milestone id mid (with_released true) s) id
          = sum_contributions s id) as ->
    by (unfold sum_contributions; by storage).
  unfold released_total. storage.
  rewrite (sum_upto_change
             (λ i, if released (milestone_at s id (N.of_nat i))
                   then Z.of_N (amount (milestone_at s id (N.of_nat i)))
                   else 0%Z) _ _ (N.to_nat mid)); [|lia|].
  - simpl. storage. rewrite N2Nat.id, decide_True by done. simpl.
    rewrite Hr. lia.
  - intros i Hi Hne. simpl. storage.
    rewrite decide_False; [done|]. intros [_ ->]. lia.
Qed.

Lemma owed_log_event ev s id : owed (log_event ev s) id = owed s id.
Proof. apply owed_frame; intros; by storage. Qed.

Lemma owed_set_balance b s id : owed (set_balance b s) id = owed s id.
Proof. apply owed_frame; intros; by storage. Qed.

Lemma Solvent_stable now forced : Stable now Sound (Solvent now forced).
Proof.
  split.
  - intros ev s _. apply Solvent_frame; intros; by storage.
  - intros *. apply Solvent_createCampaign.
  - intros * HI ((HR & HU) & _) HP H.
    pose proof HP as [HC _].
    apply contribute_ok in H as (Hex & Hdl & Hv & ->). simpl in *.
    destruct (HC id Hex) as [Hsum Hw].
    assert (Hnw : withdrawn (campaign_at s id) = false).
    { destruct (withdrawn (campaign_at s id)); [|done].
      destruct Hw; [done|lia]. }
    revert HP. apply (Solvent_move now forced _ _ id (Z.of_N value)).
    + by storage.
    + by apply HR.
    + simpl. lia.
    + intros id0 Hne. split_and!; intros; storage;
        rewrite ?decide_False by naive_solver; done.
    + rewrite owed_log_event, owed_set_amountRaised by (by storage).
      rewrite owed_set_contribution, owed_set_balance. storage. lia.
    + intros _. storage. rewrite !decide_True by done. simpl.
      rewrite Hnw. split; [|done]. left.
      unfold sum_contributions. storage. rewrite decide_True by done.
      pose proof (ledger_sum_insert (ledger_of s id) from
                    (contribution_at s id from + value)) as Hs.
      unfold sum_contributions, contribution_at in *.
      destruct Hsum as [Hsum|[Hsum _]]; lia.
  - intros * HI _ HP H. apply completeMilestone_ok in H as (_ & ->).
    revert HP. apply Solvent_frame; same_fields.
  - intros * HI _ HP H. apply voteOnMilestone_ok in H as (_ & ->).
    revert HP. apply Solvent_frame; same_fields.
    all: unfold add_vote; by destruct approve.
  - intros * HI ((HR & HU) & _) HP (Hex & _ & Hmid & _ & _ & Hr & _) Hbal.
    pose proof HP as [HC _]. simpl in *.
    revert HP.
    apply (Solvent_move now forced _ _ id
             (- Z.of_N (amount (milestone_at s id mid)))).
    + by storage.
    + by apply HR.
    + unfold debit. simpl. lia.
    + intros id0 Hne. unfold debit. split_and!; intros; storage;
        rewrite ?decide_False by naive_solver; done.
    + unfold debit. rewrite owed_set_balance, owed_mark_released by done.
      lia.
    + intros _. unfold debit, sum_contributions. storage.
      by apply HC.
  - intros * HI ((HR & HU) & _) HP (Hex & Hdl & _ & Hw & Hgoal & _) Hbal.
    pose proof HP as [HC _]. simpl in *.
    revert HP.
    apply (Solvent_move now forced _ _ id
             (- Z.of_N (amountRaised (campaign_at s id)))).
    + by storage.
    + by apply HR.
    + unfold debit. simpl. lia.
    + intros id0 Hne. unfold debit. split_and!; intros; storage;
        rewrite ?decide_False by naive_solver; done.
    + unfold debit. rewrite owed_set_balance, owed_mark_withdrawn by done.
      lia.
    + intros _. unfold debit, sum_contributions. storage.
      rewrite !decide_True by done. simpl.
      split; [by apply HC|done].
  - intros * HI ((HR & HU) & _) HP (Hex & Hdl & Hgoal & Hpos) Hbal.
    pose proof HP as [HC _]. simpl in *.
    revert HP.
    apply (Solvent_move now forced _ _ id
             (- Z.of_N (contribution_at s id from))).
    + by storage.
    + by apply HR.
    + unfold debit. simpl. lia.
    + intros id0 Hne. unfold debit. split_and!; intros; storage;
        rewrite ?decide_False by naive_solver; done.
    + unfold debit. rewrite owed_set_balance, owed_set_contribution. lia.
    + intros _. unfold debit. storage. split; [by right|].
      by apply HC.
Qed.

Lemma Stable_weaken now J P : Stable now anything P → Stable now J P.
Proof.
  intros [Plog Pcreate Pcontribute Pcomplete Pvote Prelease Pwithdraw Prefund].
  split.
  - intros ev s _. by apply Plog.
  - intros * HI _ HP H. exact (Pcreate _ _ _ _ _ _ _ _ _ _ _ _ HI I HP H).
  - intros * HI _ HP H. exact (Pcontribute _ _ _ _ _ HI I HP H).
  - intros * HI _ HP H. exact (Pcomplete _ _ _ _ _ HI I HP H).
  - intros * HI _ HP H. exact (Pvote _ _ _ _ _ _ HI I HP H).
  - intros * HI _ HP Hg Hb. exact (Prelease _ _ _ _ HI I HP Hg Hb).
  - intros * HI _ HP Hg Hb. exact (Pwithdraw _ _ _ HI I HP Hg Hb).
  - intros * HI _ HP Hg Hb. exact (Prefund _ _ _ HI I HP Hg Hb).
Qed.

Lemma Sound_stable now : Stable now anything Sound.
Proof.
  apply (Stable_and now (λ s, Registry s ∧ Unused s)
           (λ s, PlanSound s ∧ LumpOnly s)).
  - apply Stable_and; [apply Registry_stable|].
    apply Stable_weaken, Unused_stable.
  - apply Stable_weaken, Stable_and; [apply PlanSound_stable|].
    apply Stable_weaken, LumpOnly_stable.
Qed.

Lemma reachable_Sound s : reachable s → Sound s.
Proof.
  intros Hs. split; split.
  - by apply reachable_Registry.
  - by apply reachable_Unused.
  - by apply reachable_PlanSound.
  - by apply reachable_LumpOnly.
Qed.

Lemma reachable_at_reachable clock s : reachable_at clock s → reachable s.
Proof.
  induction 1 as [|clock now c s _ IH _]; [by exists []|].
  by apply reachable_step.
Qed.

Lemma reachable_at_open clock s :
  reachable_at clock s → reachable_open_at clock 0 s.
Proof.
  induction 1 as [|clock now c s _ IH Hle]; [exact (open_at_init 0)|].
  by eapply open_at_step.
Qed.

(** The invariants do not read the balance. *)
Lemma Sound_set_balance b s : Sound s → Sound (set_balance b s).
Proof.
  intros ((HR & HU) & HP & HL). split; split.
  - destruct HR as [Hl Hex]. split; [exact Hl|]. intros id. storage.
    apply Hex.
  - intros id Hex. storage. destruct (HU id Hex) as [Hc Hv].
    split; intros; storage; auto.
  - revert HP. apply PlanSound_ext; same_fields.
  - revert HL. apply LumpOnly_ext; same_fields.
Qed.

Lemma open_at_Inv clock forced s : reachable_open_at clock forced s → Inv s.
Proof.
  induction 1 as [b|clock now forced c s _ IH _|clock forced x s _ IH].
  - by apply (Keeps_set_balance 0 b init), Inv_init.
  - by apply (step_Keeps (now, c) s).
  - by apply (Keeps_set_balance 0 (balance s + x) s).
Qed.

Lemma open_at_Sound clock forced s :
  reachable_open_at clock forced s → Sound s.
Proof.
  induction 1 as [b|clock now forced c s Hs IH _|clock forced x s _ IH].
  - apply Sound_set_balance, reachable_Sound. by exists [].
  - apply (step_Carries now Sound); [apply Sound_stable| |done].
    by eapply open_at_Inv.
  - by apply Sound_set_balance.
Qed.

Lemma Solvent_init b : Solvent 0 b (set_balance b init).
Proof.
  split.
  - intros id Hex. unfold campaign_at in Hex. simpl in Hex.
    by rewrite lookup_empty in Hex.
  - unfold liabilities. simpl. lia.
Qed.

Lemma open_at_Solvent clock forced s :
  reachable_open_at clock forced s → Solvent clock forced s.
Proof.
  induction 1 as [b|clock now forced c s Hs IH Hle|clock forced x s Hs IH].
  - apply Solvent_init.
  - assert (H : Sound (step (now, c) s)
                ∧ Solvent now forced (step (now, c) s)).
    { apply (step_Carries now (λ s, Sound s ∧ Solvent now forced s)).
      - apply Stable_and; [apply Sound_stable|apply Solvent_stable].
      - by eapply open_at_Inv.
      - split; [by eapply open_at_Sound|].
        destruct IH as [HC HS]. split; [|done]. by eapply Clocked_later. }
    apply H.
  - destruct IH as [HC HS]. unfold credit. split.
    + revert HC. apply Clocked_ext. intros id Hex.
      unfold sum_contributions. storage. by split_and!.
    + rewrite (liabilities_ext s); [simpl; lia|done|].
      intros id. apply owed_set_balance.
Qed.

(** ** What is owed to a campaign is never negative *)

Lemma released_total_none s id :
  (∀ mid, released (milestone_at s id mid) = false) →
  released_total s id = 0%Z.
Proof.
  intros H. unfold released_total. apply sum_upto_zero. intros i _. simpl.
  by rewrite H.
Qed.

Lemma plan_total s id :
  Z.of_N (total_of (plan_amounts s id))
  = sum_upto (λ i, Z.of_N (amount (milestone_at s id (N.of_nat i))))
      (N.to_nat (milestoneCount (campaign_at s id))).
Proof. unfold plan_amounts. apply total_of_sum_upto. Qed.

Lemma released_total_unreleased s id mid :
  mid < milestoneCount (campaign_at s id) →
  released (milestone_at s id mid) = false →
  (released_total s id + Z.of_N (amount (milestone_at s id mid))
   ≤ Z.of_N (total_of (plan_amounts s id)))%Z.
Proof.
  intros Hmid Hr. rewrite plan_total. unfold released_total.
  set (f := λ i : nat,
         let m := milestone_at s id (N.of_nat i) in
         if released m then Z.of_N (amount m) else 0%Z).
  set (g := λ i : nat,
         if decide (i = N.to_nat mid)
         then Z.of_N (amount (milestone_at s id mid)) else f i).
  set (n := N.to_nat (milestoneCount (campaign_at s id))).
  assert (Hg : sum_upto g n
               = (sum_upto f n + Z.of_N (amount (milestone_at s id mid)))%Z).
  { rewrite (sum_upto_change f g n (N.to_nat mid)).
    - unfold g, f. rewrite decide_True by done. simpl.
      rewrite N2Nat.id, Hr. lia.
    - unfold n. lia.
    - intros i _ Hne. unfold g. by rewrite decide_False. }
  rewrite <- Hg. apply sum_upto_le. intros i _. unfold g, f. simpl.
  case_decide as Hd.
  - subst i. rewrite N2Nat.id. lia.
  - destruct (released (milestone_at s id (N.of_nat i))); lia.
Qed.

Lemma released_total_le_plan s id :
  (released_total s id ≤ Z.of_N (total_of (plan_amounts s id)))%Z.
Proof.
  rewrite plan_total. apply sum_upto_le. intros i _. simpl.
  destruct (released (milestone_at s id (N.of_nat i))); lia.
Qed.

Lemma released_total_nonneg s id : (0 ≤ released_total s id)%Z.
Proof.
  apply sum_upto_nonneg. intros i _. simpl.
  destruct (released (milestone_at s id (N.of_nat i))); lia.
Qed.

Lemma released_total_no_plan s id :
  milestoneCount (campaign_at s id) = 0 → released_total s id = 0%Z.
Proof. intros H. unfold released_total. by rewrite H. Qed.

Lemma released_total_unfunded s id :
  Inv s →
  amountRaised (campaign_at s id) < goalAmount (campaign_at s id) →
  released_total s id = 0%Z.
Proof.
  intros HI Hlt. apply released_total_none. intros mid.
  destruct (released (milestone_at s id mid)) eqn:Hr; [|done].
  apply (inv_released s HI) in Hr. apply (inv_funded s HI) in Hr. lia.
Qed.

(** What is owed to a campaign, case by case. *)
Lemma owed_cases clock s id :
  Inv s → Sound s → Clocked clock s → exists_ (campaign_at s id) = true →
  let c := campaign_at s id in
  (amountRaised c < goalAmount c →
   owed s id = Z.of_N (sum_contributions s id)) ∧
  (goalAmount c ≤ amountRaised c →
   sum_contributions s id = amountRaised c ∧
   (withdrawn c = true → owed s id = 0%Z) ∧
   (withdrawn c = false →
    owed s id = (Z.of_N (amountRaised c) - released_total s id)%Z ∧
    (released_total s id ≤ Z.of_N (goalAmount c))%Z)).
Proof.
  intros HI (_ & HPS & HL) HC Hex c. destruct (HC id Hex) as [Hsum Hw].
  fold c in Hsum, Hw. split.
  - intros Hlt. rewrite owed_eq, released_total_unfunded by done.
    unfold paid_lump. fold c.
    destruct (withdrawn c); [destruct Hw; [done|lia]|lia].
  - intros Hge.
    assert (Hs : sum_contributions s id = amountRaised c)
      by (destruct Hsum as [?|[_ ?]]; [done|lia]).
    split; [done|]. rewrite owed_eq. unfold paid_lump. fold c. split.
    + intros Hwd. rewrite Hwd, released_total_no_plan by (by apply HL). lia.
    + intros Hwd. rewrite Hwd, Hs. split; [lia|].
      destruct (decide (milestoneCount c = 0)) as [Hz|Hnz].
      * rewrite released_total_no_plan by done. lia.
      * destruct (HPS id) as [_ Hplan]; [fold c; lia|].
        pose proof (released_total_le_plan s id). fold c in Hplan. lia.
Qed.

Lemma owed_nonneg clock s id :
  Inv s → Sound s → Clocked clock s → exists_ (campaign_at s id) = true →
  (0 ≤ owed s id)%Z.
Proof.
  intros HI HS HC Hex.
  destruct (owed_cases clock s id HI HS HC Hex) as [Hlt Hge].
  destruct (decide (amountRaised (campaign_at s id)
                    < goalAmount (campaign_at s id))) as [H|H].
  - rewrite Hlt by done. lia.
  - destruct Hge as (_ & Hw1 & Hw2); [lia|].
    destruct (withdrawn (campaign_at s id)); [rewrite Hw1 by done; lia|].
    destruct Hw2 as [-> Hr]; [done|]. lia.
Qed.

Lemma owed_le_balance clock forced s id :
  reachable_open_at clock forced s → exists_ (campaign_at s id) = true →
  (0 ≤ owed s id ≤ Z.of_N (balance s))%Z.
Proof.
  intros Hs Hex.
  pose proof (open_at_Inv _ _ _ Hs) as HI.
  pose proof (open_at_Sound _ _ _ Hs) as HS.
  destruct (open_at_Solvent _ _ _ Hs) as [HC Hbal].
  destruct HS as ((HR & HU) & HS2).
  assert (Hrange : 1 ≤ id ≤ campaignCounter s) by (by apply HR).
  split; [by eapply owed_nonneg|].
  assert (owed s id ≤ liabilities s)%Z; [|lia]. unfold liabilities.
  pose proof (sum_upto_member (λ i, owed s (N.of_nat (S i)))
                (N.to_nat (campaignCounter s)) (N.to_nat id - 1)) as Hm.
  simpl in Hm. replace (N.of_nat (S (N.to_nat id - 1))) with id in Hm by lia.
  apply Hm; [|lia]. intros i Hi.
  eapply owed_nonneg; [done|done|done|]. apply HR. lia.
Qed.

Lemma reachable_at_run_trace txs clock s :
  reachable_at clock s → ordered_from clock txs →
  reachable_at (last_time clock txs) (run_trace txs s).
Proof.
  revert clock s. induction txs as [|[now c] txs IH]; intros clock s Hs Ho;
    [done|].
  destruct Ho as [Hle Ho]. simpl in *.
  apply (IH now (step (now, c) s)); [|done]. by eapply reachable_at_step.
Qed.

Lemma reachable_at_approved : reachable_at 500 approved.
Proof.
  apply (reachable_at_run_trace plan_history 0 init reachable_at_init).
  unfold plan_history. simpl. repeat split; lia.
Qed.

(** Whenever the guards of a paying function hold, the balance covers the
    payment. *)
Lemma guards_covered clock forced s :
  reachable_open_at clock forced s →
  (∀ e id, refund_guards e id s →
           contribution_at s id (msg_sender e) ≤ balance s) ∧
  (∀ e id, withdrawFunds_guards e id s →
           amountRaised (campaign_at s id) ≤ balance s) ∧
  (∀ e id mid, releaseMilestone_guards e id mid s →
               amount (milestone_at s id mid) ≤ balance s).
Proof.
  intros Hs.
  pose proof (open_at_Inv _ _ _ Hs) as HI.
  pose proof (open_at_Sound _ _ _ Hs) as HS.
  destruct (open_at_Solvent _ _ _ Hs) as [HC Hbal].
  split_and!.
  - intros e id (Hex & _ & Hlt & _).
    destruct (owed_le_balance clock forced s id Hs Hex) as [_ Hle].
    destruct (owed_cases clock s id HI HS HC Hex) as [Ho _].
    rewrite Ho in Hle by done.
    pose proof (contribution_le_sum s id (msg_sender e)). lia.
  - intros e id (Hex & _ & _ & Hw & Hge & _ & Hn).
    destruct (owed_le_balance clock forced s id Hs Hex) as [_ Hle].
    destruct (owed_cases clock s id HI HS HC Hex) as [_ Ho].
    destruct (Ho Hge) as (_ & _ & Ho2). destruct (Ho2 Hw) as [Heq _].
    rewrite Heq, released_total_no_plan in Hle by done. lia.
  - intros e id mid (Hex & _ & Hmid & Hge & _ & Hrel & _).
    destruct (owed_le_balance clock forced s id Hs Hex) as [_ Hle].
    destruct (owed_cases clock s id HI HS HC Hex) as [_ Ho].
    destruct HS as (_ & HPS & HL).
    assert (Hw : withdrawn (campaign_at s id) = false).
    { destruct (withdrawn (campaign_at s id)) eqn:Hw; [|done].
      apply HL in Hw. lia. }
    destruct (Ho Hge) as (_ & _ & Ho2). destruct (Ho2 Hw) as [Heq _].
    destruct (HPS id) as [_ Hplan]; [lia|].
    pose proof (released_total_unreleased s id mid Hmid Hrel). lia.
Qed.

(** X13: while block times do not go back, the balance is exactly what
    the contract owes its campaigns (for each one its ledger, less what
    was withdrawn, less what was released) plus what reached the address
    without a call; no campaign is owed a negative amount.  So the balance
    is never less than what is owed, and whenever the guards of a paying
    function hold the balance covers the payment: the transfer can only
    fail because the payee rejects it. *)
Theorem payouts_are_covered (clock forced : N) (s : State)
    (Hs : reachable_open_at clock forced s) :
  Z.of_N (balance s) = (liabilities s + Z.of_N forced)%Z ∧
  (liabilities s ≤ Z.of_N (balance s))%Z ∧
  (∀ id, exists_ (campaign_at s id) = true → (0 ≤ owed s id)%Z) ∧
  (∀ e id, refund_guards e id s →
           contribution_at s id (msg_sender e) ≤ balance s) ∧
  (∀ e id, withdrawFunds_guards e id s →
           amountRaised (campaign_at s id) ≤ balance s) ∧
  (∀ e id mid, releaseMilestone_guards e id mid s →
               amount (milestone_at s id mid) ≤ balance s).
Proof.
  destruct (open_at_Solvent _ _ _ Hs) as [HC Hbal].
  split; [done|]. split; [lia|].
  split; [|by apply (guards_covered clock forced)].
  intros id Hex. eapply owed_nonneg; [| |done|done].
  - by eapply open_at_Inv.
  - by eapply open_at_Sound.
Qed.

Lemma open_at_approved_credited :
  reachable_open_at 500 (0 + 3) approved_credited.
Proof. apply open_at_credit, reachable_at_open, reachable_at_approved. Qed.

Lemma payouts_are_covered_witness :
  Z.of_N (balance approved_credited)
  = (liabilities approved_credited + Z.of_N (0 + 3))%Z ∧
  (liabilities approved_credited ≤ Z.of_N (balance approved_credited))%Z ∧
  (∀ id, exists_ (campaign_at approved_credited id) = true →
         (0 ≤ owed approved_credited id)%Z) ∧
  (∀ e id, refund_guards e id approved_credited →
           contribution_at approved_credited id (msg_sender e)
           ≤ balance approved_credited) ∧
  (∀ e id, withdrawFunds_guards e id approved_credited →
           amountRaised (campaign_at approved_credited id)
           ≤ balance approved_credited) ∧
  (∀ e id mid, releaseMilestone_guards e id mid approved_credited →
               amount (milestone_at approved_credited id mid)
               ≤ balance approved_credited).
Proof.
  exact (payouts_are_covered 500 (0 + 3) approved_credited
           open_at_approved_credited).
Defined.

(** X14: while block times do not go back, a payment whose guards hold
    goes through whenever the payee takes it: the call returns, the slot
    is flipped or zeroed, the balance drops by the amount and the event
    is logged. *)
Theorem payouts_go_through (clock now : N) (s : State)
    (Hs : reachable_at clock s) :
  (∀ from id,
     refund_guards (mkEnv now from 0) id s →
     exec now (call_refund from id true []) s
     = Ok (log_event (RefundIssued id from (contribution_at s id from))
             (debit (contribution_at s id from)
                (set_contribution id from 0 s)))) ∧
  (∀ from id,
     withdrawFunds_guards (mkEnv now from 0) id s →
     exec now (call_withdrawFunds from id true []) s
     = Ok (log_event
             (FundsWithdrawn id (creator (campaign_at s id))
                (amountRaised (campaign_at s id)))
             (debit (amountRaised (campaign_at s id))
                (update_campaign id (with_withdrawn true) s)))) ∧
  (∀ from id mid,
     releaseMilestone_guards (mkEnv now from 0) id mid s →
     exec now (call_releaseMilestone from id mid true []) s
     = Ok (log_event
             (MilestoneReleased id mid (amount (milestone_at s id mid)))
             (debit (amount (milestone_at s id mid))
                (update_milestone id mid (with_released true) s)))).
Proof.
  destruct (guards_covered clock 0 s (reachable_at_open _ _ Hs))
    as (Hr & Hw & Hm).
  split_and!.
  - intros from id Hg. simpl.
    rewrite (proj2 (refund_ok _ (mkEnv now from 0) id s
      (log_event (RefundIssued id from (contribution_at s id from))
         (debit (contribution_at s id from)
            (set_contribution id from 0 s))))); [done|].
    split; [done|]. simpl. split; [by apply (Hr (mkEnv now from 0))|].
    eexists. split; [reflexivity|done].
  - intros from id Hg. simpl.
    rewrite (proj2 (withdrawFunds_ok _ (mkEnv now from 0) id s
      (log_event
         (FundsWithdrawn id (creator (campaign_at s id))
            (amountRaised (campaign_at s id)))
         (debit (amountRaised (campaign_at s id))
            (update_campaign id (with_withdrawn true) s))))); [done|].
    split; [done|]. simpl. split; [by apply (Hw (mkEnv now from 0))|].
    eexists. split; [reflexivity|]. simpl. unfold debit. storage.
    rewrite decide_True by done. done.
  - intros from id mid Hg. simpl.
    rewrite (proj2 (releaseMilestone_ok _ (mkEnv now from 0) id mid s
      (log_event
         (MilestoneReleased id mid (amount (milestone_at s id mid)))
         (debit (amount (milestone_at s id mid))
            (update_milestone id mid (with_released true) s))))); [done|].
    split; [done|]. simpl. split; [by apply (Hm (mkEnv now from 0))|].
    eexists. split; [reflexivity|done].
Qed.

Lemma payouts_go_through_witness :
  (∀ from id,
     refund_guards (mkEnv 600 from 0) id approved →
     exec 600 (call_refund from id true []) approved
     = Ok (log_event (RefundIssued id from (contribution_at approved id from))
             (debit (contribution_at approved id from)
                (set_contribution id from 0 approved)))) ∧
  (∀ from id,
     withdrawFunds_guards (mkEnv 600 from 0) id approved →
     exec 600 (call_withdrawFunds from id true []) approved
     = Ok (log_event
             (FundsWithdrawn id (creator (campaign_at approved id))
                (amountRaised (campaign_at approved id)))
             (debit (amountRaised (campaign_at approved id))
                (update_campaign id (with_withdrawn true) approved)))) ∧
  (∀ from id mid,
     releaseMilestone_guards (mkEnv 600 from 0) id mid approved →
     exec 600 (call_releaseMilestone from id mid true []) approved
     = Ok (log_event
             (MilestoneReleased id mid
                (amount (milestone_at approved id mid)))
             (debit (amount (milestone_at approved id mid))
                (update_milestone id mid (with_released true) approved)))).
Proof.
  exact (payouts_go_through 500 600 approved reachable_at_approved).
Defined.

(** X15: what the milestones of a campaign have paid out never exceeds
    its goal, whatever was raised; a campaign without a plan pays nothing
    through milestones. *)
Theorem releases_stay_within_goal (s : State) (id : N)
    (Hs : reachable s) (Hex : exists_ (campaign_at s id) = true) :
  (0 ≤ released_total s id ≤ Z.of_N (goalAmount (campaign_at s id)))%Z ∧
  (released_total s id ≠ 0%Z →
   goalAmount (campaign_at s id) ≤ amountRaised (campaign_at s id)).
Proof.
  pose proof (reachable_Inv s Hs) as HI.
  destruct (reachable_Sound s Hs) as (_ & HPS & _).
  split.
  - split; [apply released_total_nonneg|].
    destruct (decide (milestoneCount (campaign_at s id) = 0)) as [Hz|Hnz].
    + rewrite released_total_no_plan by done. lia.
    + destruct (HPS id) as [_ Hplan]; [lia|].
      pose proof (released_total_le_plan s id). lia.
  - intros Hne.
    destruct (decide (goalAmount (campaign_at s id)
                      ≤ amountRaised (campaign_at s id))) as [|Hlt]; [done|].
    rewrite released_total_unfunded in Hne by (done || lia). done.
Qed.

Lemma reachable_survey_paid : reachable survey_paid.
Proof. exact (reachable_step _ _ reachable_approved). Qed.

Lemma releases_stay_within_goal_witness :
  (0 ≤ released_total survey_paid 1
   ≤ Z.of_N (goalAmount (campaign_at survey_paid 1)))%Z ∧
  (released_total survey_paid 1 ≠ 0%Z →
   goalAmount (campaign_at survey_paid 1)
   ≤ amountRaised (campaign_at survey_paid 1)).
Proof.
  apply (releases_stay_within_goal survey_paid 1 reachable_survey_paid).
  vm_compute. reflexivity.
Defined.

(** * Votes weigh no more than what was contributed *)

Lemma weighted_insert_fresh w (m : gmap N N) a v :
  m !! a = None → weighted w (<[a := v]> m) = w a v + weighted w m.
Proof.
  intros Hnone. unfold weighted.
  rewrite map_fold_insert_L; [done| |done]. intros; lia.
Qed.

Lemma weighted_ext w w' (m : gmap N N) :
  (∀ a v, m !! a = Some v → w a v = w' a v) → weighted w m = weighted w' m.
Proof.
  induction m as [|a v m Hnone IH] using map_ind; intros H; [done|].
  rewrite !weighted_insert_fresh by done.
  rewrite (H a v) by apply lookup_insert_eq.
  rewrite IH; [done|]. intros b x Hb. apply H.
  rewrite lookup_insert_ne; [done|]. intros ->. congruence.
Qed.

Lemma weighted_le w w' (m : gmap N N) :
  (∀ a v, m !! a = Some v → w a v ≤ w' a v) → weighted w m ≤ weighted w' m.
Proof.
  induction m as [|a v m Hnone IH] using map_ind; intros H; [done|].
  rewrite !weighted_insert_fresh by done.
  pose proof (H a v (lookup_insert_eq _ _ _)).
  assert (weighted w m ≤ weighted w' m); [|lia].
  apply IH. intros b x Hb. apply H.
  rewrite lookup_insert_ne; [done|]. intros ->. congruence.
Qed.

Lemma weighted_insert w (m : gmap N N) a v :
  weighted w (<[a := v]> m)
  + match m !! a with Some x => w a x | None => 0 end
  = weighted w m + w a v.
Proof.
  destruct (m !! a) as [x|] eqn:E.
  - rewrite <- (insert_delete_eq m a v).
    rewrite <- (insert_delete_id m a x) at 2 by done.
    rewrite !weighted_insert_fresh by apply lookup_delete_eq. lia.
  - rewrite weighted_insert_fresh by done. lia.
Qed.

(** The weight of one key changes. *)
Lemma weighted_reweigh w w' (m : gmap N N) a x :
  m !! a = Some x → (∀ b v, b ≠ a → w' b v = w b v) →
  weighted w' m + w a x = weighted w m + w' a x.
Proof.
  intros Ha Hother.
  rewrite <- (insert_delete_id m a x) by done.
  rewrite !weighted_insert_fresh by apply lookup_delete_eq.
  rewrite (weighted_ext w' w (delete a m)); [lia|].
  intros b v Hb. apply Hother. intros ->.
  by rewrite lookup_delete_eq in Hb.
Qed.

Lemma weighted_le_ledger_sum w (m : gmap N N) :
  (∀ a v, w a v ≤ v) → weighted w m ≤ ledger_sum m.
Proof. intros H. apply (weighted_le w (λ _ v, v)). intros; apply H. Qed.

Lemma voters_stake_frame s s' id mid :
  ledger_of s' id = ledger_of s id →
  (∀ a, vote_at s' id mid a = vote_at s id mid a) →
  voters_stake s' id mid = voters_stake s id mid.
Proof.
  intros Hl Hv. unfold voters_stake. rewrite Hl. apply weighted_ext.
  intros a v _. by rewrite Hv.
Qed.

Lemma Tally_ext s s' :
  (∀ id mid,
     (completed (milestone_at s' id mid) = false →
      completed (milestone_at s id mid) = false) ∧
     votesFor (milestone_at s' id mid) = votesFor (milestone_at s id mid) ∧
     votesAgainst (milestone_at s' id mid)
     = votesAgainst (milestone_at s id mid)) →
  (∀ id, ledger_of s' id = ledger_of s id) →
  (∀ id mid a, vote_at s' id mid a = vote_at s id mid a) →
  Tally s → Tally s'.
Proof.
  intros Hm Hl Hv H id mid. destruct (Hm id mid) as (Hc & -> & ->).
  rewrite (voters_stake_frame s s') by auto.
  destruct (H id mid) as [H1 H2]. split; [|done]. intros Hc'. auto.
Qed.

Lemma Tally_stable now : Stable now anything Tally.
Proof.
  split.
  - intros ev s _. apply Tally_ext; same_fields.
  - intros * HI _ HP H.
    apply createCampaign_ok in H as (_ & _ & _ & _ & _ & _ & ->).
    intros id mid.
    rewrite (voters_stake_frame s) by (intros; by storage).
    storage. rewrite milestone_at_stored. case_decide; [simpl; lia|].
    storage. apply HP.
  - intros * HI _ HP H. apply contribute_ok in H as (_ & _ & Hv & ->).
    intros id0 mid. destruct (HP id0 mid) as [H1 H2]. storage.
    split; [done|]. unfold voters_stake in *. storage.
    assert (Hvote : ∀ a, vote_at (log_event
              (ContributionReceived id (msg_sender (mkEnv now from value))
                 (msg_value (mkEnv now from value)))
              (set_campaign id
                 (with_amountRaised
                    (amountRaised (campaign_at s id)
                     + msg_value (mkEnv now from value)) (campaign_at s id))
                 (set_contribution id (msg_sender (mkEnv now from value))
                    (contribution_at s id (msg_sender (mkEnv now from value))
                     + msg_value (mkEnv now from value))
                    (set_balance
                       (balance s + msg_value (mkEnv now from value)) s))))
              id0 mid a = vote_at s id0 mid a) by (intros; by storage).
    rewrite (weighted_ext _ (λ a v, if vote_at s id0 mid a then v else 0))
      by (intros; by rewrite Hvote).
    case_decide as Hid; [subst id0|done]. simpl.
    pose proof (weighted_insert
                  (λ a v, if vote_at s id mid a then v else 0)
                  (ledger_of s id) from (contribution_at s id from + value))
      as Hw.
    cbv beta in Hw. unfold contribution_at in *.
    destruct (ledger_of s id !! from) as [x|]; simpl in *;
      destruct (vote_at s id mid from); lia.
  - intros * HI _ HP H. apply completeMilestone_ok in H as (_ & ->).
    revert HP. apply Tally_ext; same_fields.
  - intros * HI _ HP H.
    apply voteOnMilestone_ok in H as ((_ & Hpos & _ & Hc & _ & Hnv) & ->).
    simpl in *. intros id0 mid0. destruct (HP id0 mid0) as [H1 H2].
    destruct (decide (id = id0 ∧ mid = mid0)) as [[<- <-]|Hne].
    + set (s' := log_event _ _).
      assert (Hvote : ∀ b, vote_at s' id mid b
                = if decide (b = from) then true else vote_at s id mid b).
      { intros b. unfold s'. storage. repeat case_decide; naive_solver. }
      assert (Hled : ledger_of s' id = ledger_of s id)
        by (unfold s'; by storage).
      assert (Hmil : milestone_at s' id mid
                = add_vote approve (contribution_at s id from)
                    (milestone_at s id mid)).
      { unfold s'. storage. by rewrite decide_True. }
      rewrite Hmil.
      split; [unfold add_vote; destruct approve; simpl; congruence|].
      assert (Hin : ledger_of s id !! from = Some (contribution_at s id from)).
      { unfold contribution_at in *.
        destruct (ledger_of s id !! from); [done|simpl in Hpos; lia]. }
      unfold voters_stake in *. rewrite Hled.
      pose proof (weighted_reweigh
                    (λ a v, if vote_at s id mid a then v else 0)
                    (λ a v, if vote_at s' id mid a then v else 0)
                    (ledger_of s id) from _ Hin) as Hw.
      cbv beta in Hw. rewrite Hvote, decide_True, Hnv in Hw by done.
      assert (Hsum : votesFor (add_vote approve (contribution_at s id from)
                                 (milestone_at s id mid))
                     + votesAgainst (add_vote approve
                                       (contribution_at s id from)
                                       (milestone_at s id mid))
                     = votesFor (milestone_at s id mid)
                       + votesAgainst (milestone_at s id mid)
                       + contribution_at s id from)
        by (unfold add_vote; destruct approve; simpl; lia).
      rewrite Hsum.
      assert (Hother : ∀ b v : N, b ≠ from →
                (if vote_at s' id mid b then v else 0)
                = (if vote_at s id mid b then v else 0)).
      { intros b v Hb. by rewrite Hvote, decide_False. }
      specialize (Hw Hother). lia.
    + rewrite (voters_stake_frame s).
      * storage. rewrite decide_False by done. done.
      * by storage.
      * intros a. storage. rewrite decide_False by naive_solver. done.
  - intros * HI _ HP _ _. revert HP. unfold debit.
    apply Tally_ext; same_fields.
  - intros * HI _ HP _ _. revert HP. unfold debit.
    apply Tally_ext; same_fields.
  - intros * HI _ HP (_ & _ & Hlt & _) _. simpl in *.
    intros id0 mid. destruct (HP id0 mid) as [H1 H2]. unfold debit. storage.
    split; [done|].
    destruct (decide (id = id0)) as [<-|Hne].
    + destruct H1 as [-> ->]; [|lia].
      destruct (completed (milestone_at s id mid)) eqn:Hc; [|done].
      apply (inv_funded s HI) in Hc. lia.
    + rewrite (voters_stake_frame s); [done| |].
      * storage. by rewrite decide_False.
      * intros a. by storage.
Qed.

Lemma reachable_Tally s : reachable s → Tally s.
Proof.
  intros [txs <-].
  apply run_trace_Invariant;
    [apply Stable_Invariant, Tally_stable|apply Inv_init|].
  intros id mid. unfold milestone_at, voters_stake. simpl.
  rewrite !lookup_empty. simpl. rewrite lookup_empty. simpl. split; [done|].
  unfold weighted. lia.
Qed.

(** X16: the two tallies of a milestone together never exceed what its
    voters hold in the campaign's ledger, hence never what the campaign
    raised: a contribution weighs at most once on a milestone.  Before a
    milestone is completed both tallies are zero. *)
Theorem tallies_within_raised (s : State) (id mid : N) (Hs : reachable s) :
  votesFor (milestone_at s id mid) + votesAgainst (milestone_at s id mid)
  ≤ voters_stake s id mid ∧
  voters_stake s id mid ≤ sum_contributions s id ∧
  sum_contributions s id ≤ amountRaised (campaign_at s id) ∧
  (completed (milestone_at s id mid) = false →
   votesFor (milestone_at s id mid) = 0 ∧
   votesAgainst (milestone_at s id mid) = 0).
Proof.
  destruct (reachable_Tally s Hs id mid) as [H1 H2]. split_and!.
  - done.
  - apply weighted_le_ledger_sum. intros a v.
    destruct (vote_at s id mid a); lia.
  - rewrite (reachable_accounted s id Hs). lia.
  - done.
Qed.

Lemma tallies_within_raised_witness :
  votesFor (milestone_at approved 1 0)
  + votesAgainst (milestone_at approved 1 0)
  ≤ voters_stake approved 1 0 ∧
  voters_stake approved 1 0 ≤ sum_contributions approved 1 ∧
  sum_contributions approved 1 ≤ amountRaised (campaign_at approved 1) ∧
  (completed (milestone_at approved 1 0) = false →
   votesFor (milestone_at approved 1 0) = 0 ∧
   votesAgainst (milestone_at approved 1 0) = 0).
Proof. exact (tallies_within_raised approved 1 0 reachable_approved). Defined.

(** ** The milestone calls of the creator and of the contributors *)

Lemma Bounded_ext s s' :
  (∀ id, amountRaised (campaign_at s' id) = amountRaised (campaign_at s id)) →
  Bounded s → Bounded s'.
Proof. intros H HB id. rewrite H. apply HB. Qed.

Lemma Bounded_stable now : Stable now anything Bounded.
Proof.
  split.
  - intros ev s _. apply Bounded_ext. same_fields.
  - intros * HI _ HP H.
    apply createCampaign_ok in H as (_ & _ & _ & _ & _ & _ & ->).
    intros id. storage. case_decide; [simpl; unfold UINT256_MAX; lia|].
    apply HP.
  - intros * HI _ HP H. pose proof (contribute_overflow _ _ _ _ H) as Hmax.
    apply contribute_ok in H as (_ & _ & _ & ->).
    intros id0. storage. case_decide; [done|apply HP].
  - intros * HI _ HP H. apply completeMilestone_ok in H as (_ & ->).
    revert HP. apply Bounded_ext. same_fields.
  - intros * HI _ HP H. apply voteOnMilestone_ok in H as (_ & ->).
    revert HP. apply Bounded_ext. same_fields.
  - intros * HI _ HP _ _. revert HP. apply Bounded_ext. same_fields.
  - intros * HI _ HP _ _. revert HP. apply Bounded_ext. same_fields.
  - intros * HI _ HP _ _. revert HP. apply Bounded_ext. same_fields.
Qed.

Lemma reachable_Bounded s : reachable s → Bounded s.
Proof.
  intros [txs <-].
  apply run_trace_Invariant;
    [apply Stable_Invariant, Bounded_stable|apply Inv_init|].
  intros id. unfold campaign_at. simpl. rewrite lookup_empty. simpl.
  unfold UINT256_MAX. lia.
Qed.

(** The stake of the voters and the entry of one who has not voted fit in
    the ledger together. *)
Lemma stake_and_newcomer s id mid a :
  vote_at s id mid a = false →
  voters_stake s id mid + contribution_at s id a ≤ sum_contributions s id.
Proof.
  intros Hnv. unfold voters_stake, sum_contributions, contribution_at.
  destruct (ledger_of s id !! a) as [x|] eqn:Ha; simpl.
  - pose proof (weighted_reweigh
                  (λ b v, if vote_at s id mid b then v else 0)
                  (λ b v, if decide (b = a) then v
                          else if vote_at s id mid b then v else 0)
                  (ledger_of s id) a x Ha) as Hw.
    cbv beta in Hw. rewrite decide_True, Hnv in Hw by done.
    assert (weighted
              (λ b v, if decide (b = a) then v
                      else if vote_at s id mid b then v else 0)
              (ledger_of s id) ≤ ledger_sum (ledger_of s id)).
    { apply weighted_le_ledger_sum. intros b v.
      case_decide; [lia|]. destruct (vote_at s id mid b); lia. }
    rewrite <- Hw in *; [lia|]. intros b v Hb. by rewrite decide_False.
  - pose proof (weighted_le_ledger_sum
                  (λ b v, if vote_at s id mid b then v else 0)
                  (ledger_of s id)) as Hle.
    rewrite N.add_0_r. apply Hle. intros b v.
    destruct (vote_at s id mid b); lia.
Qed.

Lemma completeMilestone_run e id mid s :
  completeMilestone_guards e id mid s →
  completeMilestone e id mid s
  = Ok (tt, log_event (MilestoneCompleted id mid)
              (update_milestone id mid (with_completed true) s)).
Proof.
  intros (Hex & Hcr & Hmid & Hgoal & Hc & Hprev).
  unfold completeMilestone. unfold_body. cbn zeta in *. repeat pass.
  destruct (0 <? mid) eqn:Hpos; [|done].
  bool_facts. by rewrite Hprev.
Qed.

Lemma voteOnMilestone_run e id mid approve s :
  voteOnMilestone_guards e id mid s →
  votesFor (milestone_at s id mid) + votesAgainst (milestone_at s id mid)
  + contribution_at s id (msg_sender e) ≤ UINT256_MAX →
  voteOnMilestone e id mid approve s
  = Ok (tt, log_event
              (MilestoneVoted id mid (msg_sender e) approve
                 (contribution_at s id (msg_sender e)))
              (update_milestone id mid
                 (add_vote approve (contribution_at s id (msg_sender e)))
                 (set_vote id mid (msg_sender e) true s))).
Proof.
  intros (Hex & Hpos & Hmid & Hc & Hr & Hnv) Hmax.
  unfold voteOnMilestone. unfold_body. cbn zeta in *. repeat pass.
  destruct approve; storage; pass; unfold add_vote; storage; done.
Qed.

(** X17: in a reachable state the two milestone calls that pay nothing,
    called without value (neither is payable: a call that carries value
    is turned away before the body runs), return exactly when their
    guards hold; the additions to the tallies in [voteOnMilestone] never
    overflow, since the tallies and the weight of one who has not voted
    yet fit in what was raised. *)
Theorem milestone_calls_succeed_iff (e : Env) (id mid : N) (approve : bool)
    (s s' : State) (Hs : reachable s) (Hv : msg_value e = 0) :
  (completeMilestone e id mid s = Ok (tt, s') ↔
   completeMilestone_guards e id mid s ∧
   s' = log_event (MilestoneCompleted id mid)
          (update_milestone id mid (with_completed true) s)) ∧
  (voteOnMilestone e id mid approve s = Ok (tt, s') ↔
   voteOnMilestone_guards e id mid s ∧
   s' = log_event
          (MilestoneVoted id mid (msg_sender e) approve
             (contribution_at s id (msg_sender e)))
          (update_milestone id mid
             (add_vote approve (contribution_at s id (msg_sender e)))
             (set_vote id mid (msg_sender e) true s))).
Proof.
  split; split.
  - apply completeMilestone_ok.
  - intros [Hg ->]. by apply completeMilestone_run.
  - apply voteOnMilestone_ok.
  - intros [Hg ->]. apply voteOnMilestone_run; [done|].
    destruct Hg as (_ & _ & _ & _ & _ & Hnv).
    destruct (reachable_Tally s Hs id mid) as [_ Ht].
    pose proof (stake_and_newcomer s id mid (msg_sender e) Hnv).
    pose proof (reachable_accounted s id Hs) as Hacc.
    pose proof (reachable_Bounded s Hs id). unfold accounted in Hacc. lia.
Qed.

Lemma milestone_calls_succeed_iff_witness :
  (completeMilestone (mkEnv 500 3 0) 1 0 survey_done
   = Ok (tt, first_vote) ↔
   completeMilestone_guards (mkEnv 500 3 0) 1 0 survey_done ∧
   first_vote
   = log_event (MilestoneCompleted 1 0)
       (update_milestone 1 0 (with_completed true) survey_done)) ∧
  (voteOnMilestone (mkEnv 500 3 0) 1 0 true survey_done
   = Ok (tt, first_vote) ↔
   voteOnMilestone_guards (mkEnv 500 3 0) 1 0 survey_done ∧
   first_vote
   = log_event
       (MilestoneVoted 1 0 (msg_sender (mkEnv 500 3 0)) true
          (contribution_at survey_done 1 (msg_sender (mkEnv 500 3 0))))
       (update_milestone 1 0
          (add_vote true
             (contribution_at survey_done 1 (msg_sender (mkEnv 500 3 0))))
          (set_vote 1 0 (msg_sender (mkEnv 500 3 0)) true survey_done))).
Proof.
  exact (milestone_calls_succeed_iff (mkEnv 500 3 0) 1 0 true survey_done
           first_vote reachable_survey_done eq_refl).
Defined.

(** * Crowdfunding: the contract without milestones

    The first contract of the file, embedded the same way: its own storage
    record, the same monad over it, the same conventions for the value
    call. *)

(** ** Reads and writes commute with [lift] *)

Lemma campaign_at_lift s id :
  campaign_at (lift s) id = lift_campaign (V1.campaign_at s id).
Proof.
  unfold campaign_at, V1.campaign_at, lift. simpl.
  rewrite lookup_fmap. by destruct (V1.campaigns s !! id).
Qed.

Lemma contribution_at_lift s id a :
  contribution_at (lift s) id a = V1.contribution_at s id a.
Proof. done. Qed.

Lemma lift_set_campaign id c s :
  lift (V1.set_campaign id c s) = set_campaign id (lift_campaign c) (lift s).
Proof.
  unfold lift, V1.set_campaign, set_campaign. simpl. by rewrite fmap_insert.
Qed.

Lemma lift_set_contribution id a v s :
  lift (V1.set_contribution id a v s) = set_contribution id a v (lift s).
Proof. done. Qed.

Lemma lift_set_campaignCounter n s :
  lift (V1.set_campaignCounter n s) = set_campaignCounter n (lift s).
Proof. done. Qed.

Lemma lift_push_campaignId id s :
  lift (V1.push_campaignId id s) = push_campaignId id (lift s).
Proof. done. Qed.

Lemma lift_set_balance b s :
  lift (V1.set_balance b s) = set_balance b (lift s).
Proof. done. Qed.

Lemma lift_log_event ev s :
  lift (V1.log_event ev s) = log_event (lift_event ev) (lift s).
Proof.
  unfold lift, V1.log_event, log_event. simpl. by rewrite fmap_app.
Qed.

Lemma lift_update_amountRaised id r s :
  lift (V1.update_campaign id (V1.with_amountRaised r) s)
  = update_campaign id (with_amountRaised r) (lift s).
Proof.
  unfold V1.update_campaign, update_campaign.
  by rewrite lift_set_campaign, campaign_at_lift.
Qed.

Lemma lift_update_withdrawn id b s :
  lift (V1.update_campaign id (V1.with_withdrawn b) s)
  = update_campaign id (with_withdrawn b) (lift s).
Proof.
  unfold V1.update_campaign, update_campaign.
  by rewrite lift_set_campaign, campaign_at_lift.
Qed.

Lemma campaignCounter_lift s : campaignCounter (lift s) = V1.campaignCounter s.
Proof. done. Qed.

Lemma balance_lift s : balance (lift s) = V1.balance s.
Proof. done. Qed.

Lemma campaignIds_lift s : campaignIds (lift s) = V1.campaignIds s.
Proof. done. Qed.

(** Towards the second contract: [lift] is pushed to the initial state. *)
Create Rewrite HintDb lift.
#[global] Hint Rewrite lift_set_campaign lift_set_contribution
  lift_set_campaignCounter lift_push_campaignId lift_set_balance
  lift_log_event lift_update_amountRaised lift_update_withdrawn : lift.

(** Towards the first contract: reads and writes on a lifted state become
    reads and writes of the first contract. *)
Create Rewrite HintDb unlift.
#[global] Hint Rewrite campaign_at_lift contribution_at_lift
  campaignCounter_lift balance_lift campaignIds_lift : unlift.
#[global] Hint Rewrite <- lift_set_contribution lift_set_campaignCounter
  lift_push_campaignId lift_set_balance lift_update_amountRaised
  lift_update_withdrawn : unlift.

Ltac unfold_V1 :=
  cbv beta iota delta
    [V1.bind V1.ret V1.fail V1.gets V1.modify V1.require V1.emit
     V1.campaignExists V1.campaignActive V1.campaignEnded V1.onlyCreator
     V1.checked_add V1.checked_mul V1.call_value lift_result].

(** Brings the reads of both sides to the same form, then splits on the
    next guard. *)
Ltac lift_reads :=
  autorewrite with unlift;
  cbn [creator title description category imageUrl goalAmount deadline
       amountRaised withdrawn exists_ milestoneCount lift_campaign].

Ltac same_guard :=
  lift_reads;
  try match goal with H : same_payee _ _ |- _ => rewrite H end;
  match goal with
  | |- context [if ?b then _ else _] => destruct b eqn:?; cbv beta iota
  | |- context [lift <$> ?r] =>
      destruct r eqn:?; cbn [fmap option_fmap option_map]; cbv beta iota
  end;
  try reflexivity.

(** X18: [createCampaign] of the first contract is [createCampaign] of
    the second called with no category, no image and no plan. *)
Theorem V1_createCampaign_simulated (e : Env) (ttl desc : string)
    (goal days : N) (s : V1.State) :
  createCampaign e ttl desc "" "" goal days [] [] (lift s)
  = lift_result (λ id, id) (V1.createCampaign e ttl desc goal days s).
Proof.
  unfold createCampaign, V1.createCampaign. unfold_body. unfold_V1.
  change (0 <? N.of_nat (@length string [])) with false. cbv beta iota.
  repeat same_guard.
  simpl. autorewrite with lift. done.
Qed.

(** X19: [contribute] is the same function in both contracts. *)
Theorem V1_contribute_simulated (e : Env) (id : N) (s : V1.State) :
  contribute e id (lift s)
  = lift_result (λ u, u) (V1.contribute e id s).
Proof.
  unfold contribute, V1.contribute. unfold_body. unfold_V1.
  repeat same_guard.
  lift_reads. autorewrite with lift. done.
Qed.

(** X20: on a campaign without a plan the two paying functions of the
    second contract are those of the first, payee for payee: same
    guards in the same order, same writes, same events. *)
Theorem V1_payouts_simulated (recv1 : V1.Receiver) (recv2 : Receiver)
    (e : Env) (id : N) (s : V1.State)
    (Hrecv : same_payee recv1 recv2) :
  withdrawFunds recv2 e id (lift s)
  = lift_result (λ u, u) (V1.withdrawFunds recv1 e id s) ∧
  refund recv2 e id (lift s)
  = lift_result (λ u, u) (V1.refund recv1 e id s).
Proof.
  split.
  - unfold withdrawFunds, V1.withdrawFunds. unfold_body. unfold_V1.
    do 6 same_guard. lift_reads. change (0 =? 0) with true. cbv beta iota.
    repeat same_guard.
    lift_reads. autorewrite with lift. done.
  - unfold refund, V1.refund. unfold_body. unfold_V1.
    repeat same_guard.
    lift_reads. autorewrite with lift. done.
Qed.

(** X21: the views the two contracts share answer alike, and on the
    storage of the first contract the milestone views of the second show
    nothing. *)
Theorem V1_views_simulated (s : V1.State) (id mid : N) (a : address) :
  getCampaign id (lift s) = lift_result lift_campaign (V1.getCampaign id s) ∧
  getTotalCampaigns (lift s)
  = lift_result (λ n, n) (V1.getTotalCampaigns s) ∧
  getContribution id a (lift s)
  = lift_result (λ n, n) (V1.getContribution id a s) ∧
  isGoalReached id (lift s)
  = lift_result (λ b, b) (V1.isGoalReached id s) ∧
  getAllCampaignIds (lift s)
  = lift_result (λ l, l) (V1.getAllCampaignIds s) ∧
  getContractBalance (lift s)
  = lift_result (λ n, n) (V1.getContractBalance s) ∧
  getMilestone id mid (lift s) = Ok (Milestone0, lift s) ∧
  hasVoted id mid a (lift s) = Ok (false, lift s) ∧
  getAllMilestones id (lift s)
  = lift_result (λ _, []) (V1.getCampaign id s).
Proof.
  split_and!.
  - unfold getCampaign, V1.getCampaign. unfold_body. unfold_V1.
    same_guard. by lift_reads.
  - done.
  - done.
  - unfold isGoalReached, V1.isGoalReached. unfold_body. unfold_V1.
    same_guard. by lift_reads.
  - done.
  - done.
  - done.
  - done.
  - unfold getAllMilestones, V1.getCampaign. unfold_body. unfold_V1.
    same_guard. by lift_reads.
Qed.

Lemma V1_payouts_simulated_witness :
  withdrawFunds plain_account (mkEnv 2592100 1 0) 1 (lift V1_funded)
  = lift_result (λ u, u)
      (V1.withdrawFunds V1_plain_account (mkEnv 2592100 1 0) 1 V1_funded) ∧
  refund plain_account (mkEnv 2592100 1 0) 1 (lift V1_funded)
  = lift_result (λ u, u)
      (V1.refund V1_plain_account (mkEnv 2592100 1 0) 1 V1_funded).
Proof.
  apply (V1_payouts_simulated V1_plain_account plain_account
           (mkEnv 2592100 1 0) 1 V1_funded).
  intros to amt t. reflexivity.
Defined.

(** * The front end: category and image carried in the description

    [CreateCampaign.jsx] writes the category and the image address in
    front of the description; [parseCampaignData] reads them back.  A
    JavaScript string is a list of UTF-16 code units. *)

(** ** Lemmas *)

Lemma after_prefix_app p s : after_prefix p (p ++ s) = Some s.
Proof.
  induction p as [|a p IH]; simpl; [by destruct s|].
  by rewrite N.eqb_refl.
Qed.

Lemma lazy_until_bracket_found g rest :
  Forall inside_tag g → lazy_until_bracket (g ++ 93 :: rest) = Some (g, rest).
Proof.
  induction 1 as [|c g [Hc Hlt] _ IH]; simpl; [done|].
  apply N.eqb_neq in Hc. by rewrite Hc, Hlt, IH.
Qed.

Lemma regexp_exec_here tag s r g after :
  after_prefix tag s = Some r → lazy_until_bracket r = Some (g, after) →
  regexp_exec tag s = Some ([], g, after).
Proof. intros H1 H2. destruct s; simpl; by rewrite H1, H2. Qed.

Lemma regexp_exec_skip t tag pre s :
  Forall (λ c, c ≠ t) pre →
  regexp_exec (t :: tag) (pre ++ s)
  = match regexp_exec (t :: tag) s with
    | Some (before, g, after) => Some (pre ++ before, g, after)
    | None => None
    end.
Proof.
  induction 1 as [|c pre Hc _ IH].
  - simpl. by destruct (regexp_exec (t :: tag) s) as [[[??]?]|].
  - change ((c :: pre) ++ s) with (c :: (pre ++ s)).
    simpl. apply not_eq_sym in Hc. apply N.eqb_neq in Hc. rewrite Hc.
    fold (regexp_exec (t :: tag)). rewrite IH.
    by destruct (regexp_exec (t :: tag) s) as [[[??]?]|].
Qed.

Lemma regexp_exec_none t tag s :
  Forall (λ c, c ≠ t) s → regexp_exec (t :: tag) s = None.
Proof.
  intros H. rewrite <- (app_nil_r s). rewrite regexp_exec_skip by done. done.
Qed.

Lemma regexp_exec_next tag c s :
  after_prefix tag (c :: s) = None →
  regexp_exec tag (c :: s)
  = match regexp_exec tag s with
    | Some (before, g, after) => Some (c :: before, g, after)
    | None => None
    end.
Proof. intros H. simpl regexp_exec. simpl in H. by rewrite H. Qed.

Lemma regexp_exec_tagged tag value rest :
  Forall inside_tag value →
  regexp_exec tag (tag ++ value ++ [93] ++ rest) = Some ([], value, rest).
Proof.
  intros H. eapply regexp_exec_here; [apply after_prefix_app|].
  by apply lazy_until_bracket_found.
Qed.

(** X22: what [CreateCampaign.jsx] writes, [parseCampaignData] reads back:
    the category, the image address, and the description trimmed, as long
    as category and image hold no closing bracket and no line terminator,
    and the category no opening bracket. *)
Theorem parseCampaignData_reads_back (category imageUrl description : list N)
    (Hcat : Forall (λ c, inside_tag c ∧ c ≠ 91) category)
    (Himg : Forall inside_tag imageUrl) :
  parseCampaignData (enhancedDescription category imageUrl description)
  = mkCampaignData category imageUrl (trim description).
Proof.
  assert (Hcat1 : Forall inside_tag category)
    by (eapply Forall_impl; [exact Hcat|by intros c [? _]]).
  assert (Hcat2 : Forall (λ c, c ≠ 91) category)
    by (eapply Forall_impl; [exact Hcat|by intros c [_ ?]]).
  unfold parseCampaignData, match_group, replace_first, enhancedDescription.
  rewrite (regexp_exec_tagged CATEGORY_TAG) by done.
  assert (Himage :
    regexp_exec IMAGE_TAG
      (CATEGORY_TAG ++ category ++ [93] ++ IMAGE_TAG ++ imageUrl ++ [93]
         ++ description)
    = Some (CATEGORY_TAG ++ category ++ [93], imageUrl, description)).
  { set (rest := IMAGE_TAG ++ imageUrl ++ [93] ++ description).
    assert (Heq : CATEGORY_TAG ++ category ++ [93] ++ rest
                  = 91 :: ([67; 65; 84; 69; 71; 79; 82; 89; 58] ++ category
                             ++ [93]) ++ rest).
    { unfold CATEGORY_TAG. simpl. by rewrite <- !app_assoc. }
    rewrite Heq. rewrite regexp_exec_next by done.
    unfold IMAGE_TAG at 1. rewrite regexp_exec_skip.
    - fold IMAGE_TAG. unfold rest. rewrite regexp_exec_tagged by done.
      by rewrite app_nil_r.
    - repeat (apply Forall_cons; split; [done|]).
      apply Forall_app. split; [done|]. by apply Forall_singleton. }
  rewrite Himage, !app_nil_l.
  rewrite (regexp_exec_tagged IMAGE_TAG) by done. done.
Qed.

Lemma parseCampaignData_reads_back_witness :
  parseCampaignData
    (enhancedDescription (lit "Art & Design") (lit "https://x.io/a.png")
       (lit " A mural [draft] "))
  = mkCampaignData (lit "Art & Design") (lit "https://x.io/a.png")
      (trim (lit " A mural [draft] ")).
Proof.
  apply parseCampaignData_reads_back.
  - vm_compute. repeat constructor; discriminate.
  - vm_compute. repeat constructor; discriminate.
Defined.

(** X23: a description without an opening bracket carries no tag: the
    category is "Other", the image address is empty and the description
    is returned trimmed. *)
Theorem parseCampaignData_untagged (description : list N)
    (H : Forall (λ c, c ≠ 91) description) :
  parseCampaignData description
  = mkCampaignData Other [] (trim description).
Proof.
  unfold parseCampaignData, match_group, replace_first.
  unfold CATEGORY_TAG, IMAGE_TAG. by rewrite !regexp_exec_none.
Qed.

Lemma parseCampaignData_untagged_witness :
  parseCampaignData (lit "Dig a well")
  = mkCampaignData Other [] (trim (lit "Dig a well")).
Proof.
  apply parseCampaignData_untagged.
  vm_compute. repeat constructor; discriminate.
Defined.
